(** * LED-KEY: three buttons select one of three LED modes (RT-Thread demo)

    Shallow embedding of [src/main.c].  The program consists of

    - a shared byte [g_led_mode] written by the key-scanning thread and
      read by the LED thread;
    - two pattern generators with function-local [static] state
      ([index] in [led_mode_flow_step], [value] in [led_mode_binary_step]);
    - the two thread bodies, both [while (1)] loops;
    - [main], which configures the pins and creates/starts the threads.

    All platform calls ([rt_pin_mode], [rt_pin_write], [rt_pin_read],
    [rt_thread_mdelay], [rt_kprintf], [rt_thread_create],
    [rt_thread_startup]) act on an explicit [world]; the code is written
    in a state-and-failure monad over it.  Failure ([None]) stands for
    undefined behaviour of the C program (an out-of-bounds read of the
    [led_pins] table). *)

From stdpp Require Import gmap strings list fin_maps.
From Stdlib Require Import ZArith Lia Ascii.

Local Open Scope Z_scope.

(* ===================================================================== *)
(** ** Platform types *)
(* ===================================================================== *)

(** GPIO ports named in the schematic comment of [main.c]. *)
Inductive port := A | B | C | E | F.

#[global] Instance port_eq_dec : EqDecision port.
Proof. solve_decision. Defined.

Definition port_code (p : port) : nat :=
  match p with A => 0 | B => 1 | C => 2 | E => 4 | F => 5 end%nat.

Definition port_of_code (n : nat) : option port :=
  match n with
  | 0 => Some A | 1 => Some B | 2 => Some C | 4 => Some E | 5 => Some F
  | _ => None
  end%nat.

#[global] Instance port_countable : Countable port.
Proof.
  apply (inj_countable port_code port_of_code).
  intros []; reflexivity.
Defined.

(** A pin is named by its port and its line number. *)
Abbreviation pin := (port * Z)%type.

(** Modelled from the spec: [GET_PIN] is a macro of the board header,
    which is not among the sources.  The spec speaks of "a named pin"
    that is configured, written and read; the program only ever hands the
    macro's result back to the pin driver, so the identifier is kept as
    the name it was built from, and distinct names are distinct pins. *)
Definition GET_PIN (p : port) (n : Z) : pin := (p, n).

(** Modelled from the spec: the two levels of the pin driver ("write
    boolean level", "read boolean level"), with the values that
    [key_thread_entry] compares its reads against (0 is low, pressed). *)
Definition PIN_LOW : Z := 0.
Definition PIN_HIGH : Z := 1.

(** Modelled from the spec: the two pin configurations [main] uses
    ("configure a named pin as output", "as input with pull-up"). *)
Inductive pin_mode := PIN_MODE_OUTPUT | PIN_MODE_INPUT_PULLUP.

(** Modelled from the spec: the "success status" [main] returns. *)
Definition RT_EOK : Z := 0.

(** The two thread entry functions of the program. *)
Inductive entry_fn := led_thread_entry_fn | key_thread_entry_fn.

#[global] Instance entry_fn_eq_dec : EqDecision entry_fn.
Proof. solve_decision. Defined.

(** A thread control block as built by [rt_thread_create]; [RT_NULL] is
    [None] at type [option thread]. *)
Record thread := Thread {
  th_name : string;
  th_entry : entry_fn;
  th_stack : Z;
  th_prio : Z;
  th_tick : Z
}.

(** Every platform call that acts on the outside world is logged. *)
Inductive event :=
| EvPinMode (p : pin) (m : pin_mode)
| EvPinWrite (p : pin) (v : Z)
| EvDelay (ms : Z)
| EvKprintf (s : string)
| EvThreadCreate (name : string) (ok : bool)
| EvThreadStartup (t : thread).

(* ===================================================================== *)
(** ** The world *)
(* ===================================================================== *)

Record world := World {
  (** [static volatile rt_uint8_t g_led_mode] *)
  g_led_mode : Z;
  (** [static int index] of [led_mode_flow_step] *)
  flow_index : Z;
  (** [static rt_uint8_t value] of [led_mode_binary_step] *)
  binary_value : Z;
  (** output latch of every pin written so far *)
  pin_level : gmap pin Z;
  (** environment: what the [n]-th read of a pin returns *)
  pin_input : pin -> nat -> Z;
  (** how many times each pin has been read *)
  pin_reads : pin -> nat;
  (** environment: whether the [n]-th [rt_thread_create] succeeds *)
  create_ok : nat -> bool;
  (** how many times [rt_thread_create] has been called *)
  creates : nat;
  (** threads handed to [rt_thread_startup], oldest first *)
  ready : list thread;
  (** log of platform calls, oldest first *)
  trace : list event
}.

Definition set_g_led_mode (v : Z) (w : world) : world :=
  World v (flow_index w) (binary_value w) (pin_level w) (pin_input w)
        (pin_reads w) (create_ok w) (creates w) (ready w) (trace w).

Definition set_flow_index (v : Z) (w : world) : world :=
  World (g_led_mode w) v (binary_value w) (pin_level w) (pin_input w)
        (pin_reads w) (create_ok w) (creates w) (ready w) (trace w).

Definition set_binary_value (v : Z) (w : world) : world :=
  World (g_led_mode w) (flow_index w) v (pin_level w) (pin_input w)
        (pin_reads w) (create_ok w) (creates w) (ready w) (trace w).

Definition set_pin_level (m : gmap pin Z) (w : world) : world :=
  World (g_led_mode w) (flow_index w) (binary_value w) m (pin_input w)
        (pin_reads w) (create_ok w) (creates w) (ready w) (trace w).

Definition set_pin_reads (r : pin -> nat) (w : world) : world :=
  World (g_led_mode w) (flow_index w) (binary_value w) (pin_level w)
        (pin_input w) r (create_ok w) (creates w) (ready w) (trace w).

Definition set_creates (n : nat) (w : world) : world :=
  World (g_led_mode w) (flow_index w) (binary_value w) (pin_level w)
        (pin_input w) (pin_reads w) (create_ok w) n (ready w) (trace w).

Definition set_ready (l : list thread) (w : world) : world :=
  World (g_led_mode w) (flow_index w) (binary_value w) (pin_level w)
        (pin_input w) (pin_reads w) (create_ok w) (creates w) l (trace w).

Definition log (e : event) (w : world) : world :=
  World (g_led_mode w) (flow_index w) (binary_value w) (pin_level w)
        (pin_input w) (pin_reads w) (create_ok w) (creates w) (ready w)
        (trace w ++ [e]).

(* ===================================================================== *)
(** ** The monad of the program *)
(* ===================================================================== *)

Module Prog.

Definition M (X : Type) : Type := world -> option (X * world).

Definition ret {X} (x : X) : M X := fun w => Some (x, w).

Definition bind {X Y} (m : M X) (k : X -> M Y) : M Y :=
  fun w => match m w with
           | Some (x, w') => k x w'
           | None => None
           end.

(** undefined behaviour *)
Definition undef {X} : M X := fun _ => None.

Definition get {X} (f : world -> X) : M X := fun w => Some (f w, w).

Definition modify (f : world -> world) : M unit := fun w => Some (tt, f w).

(** the final world of a run, when it has one *)
Definition exec {X} (m : M X) (w : world) : option world :=
  match m w with Some (_, w') => Some w' | None => None end.

End Prog.

Import Prog.

(** stdpp's [x ← m; k] and [m ;; k] notations for the program monad. *)
#[global] Instance M_ret : MRet M := @ret.
#[global] Instance M_bind : MBind M := fun X Y k m => bind m k.

(** [for (int i = lo; i < hi; i++) body(i)]; the fuel is the trip count. *)
Fixpoint for_fuel (fuel : nat) (i hi : Z) (body : Z -> M unit) : M unit :=
  match fuel with
  | O => mret tt
  | S fuel' =>
      if i <? hi then body i ;; for_fuel fuel' (i + 1) hi body else mret tt
  end.

Definition for_lt (lo hi : Z) (body : Z -> M unit) : M unit :=
  for_fuel (Z.to_nat (hi - lo)) lo hi body.

(** [n] iterations of the body of a [while (1)] loop whose locals are [x]. *)
Fixpoint loop_n {X} (n : nat) (body : X -> M X) (x : X) : M X :=
  match n with
  | O => mret x
  | S n' => x' ← body x; loop_n n' body x'
  end.

(* ===================================================================== *)
(** ** Platform calls *)
(* ===================================================================== *)

Definition rt_pin_mode (p : pin) (m : pin_mode) : M unit :=
  modify (log (EvPinMode p m)).

Definition rt_pin_write (p : pin) (v : Z) : M unit :=
  modify (fun w => log (EvPinWrite p v) (set_pin_level (<[p := v]> (pin_level w)) w)).

Definition bump (p : pin) (r : pin -> nat) : pin -> nat :=
  fun q => if decide (q = p) then S (r q) else r q.

Definition rt_pin_read (p : pin) : M Z :=
  fun w => Some (pin_input w p (pin_reads w p),
                 set_pin_reads (bump p (pin_reads w)) w).

Definition rt_thread_mdelay (ms : Z) : M unit :=
  modify (log (EvDelay ms)).

Definition rt_kprintf (s : string) : M unit :=
  modify (log (EvKprintf s)).

Definition rt_thread_create (name : string) (entry : entry_fn)
    (stack prio tick : Z) : M (option thread) :=
  fun w =>
    let ok := create_ok w (creates w) in
    Some (if ok then Some (Thread name entry stack prio tick) else None,
          log (EvThreadCreate name ok) (set_creates (S (creates w)) w)).

Definition rt_thread_startup (t : thread) : M unit :=
  modify (fun w => log (EvThreadStartup t) (set_ready (ready w ++ [t]) w)).

(* ===================================================================== *)
(** ** The program: [src/main.c] *)
(* ===================================================================== *)

Definition LED1_PIN : pin := GET_PIN F 7.
Definition LED2_PIN : pin := GET_PIN F 8.
Definition LED3_PIN : pin := GET_PIN E 3.
Definition LED4_PIN : pin := GET_PIN E 2.

Definition KEY1_PIN : pin := GET_PIN A 0.
Definition KEY2_PIN : pin := GET_PIN C 13.
Definition KEY3_PIN : pin := GET_PIN B 14.

Definition LED_MODE_NONE : Z := 0.
Definition LED_MODE_FLOW : Z := 1.
Definition LED_MODE_BINARY : Z := 2.

Definition led_pins : list pin := [LED1_PIN; LED2_PIN; LED3_PIN; LED4_PIN].

(** [led_pins[i]]; an index outside the table is undefined behaviour. *)
Definition led_pins_at (i : Z) : M pin :=
  if i <? 0 then undef
  else match led_pins !! Z.to_nat i with
       | Some p => mret p
       | None => undef
       end.

Definition leds_all_off : M unit :=
  for_lt 0 4 (fun i =>
    p ← led_pins_at i;
    rt_pin_write p PIN_LOW).

(** [index] is an [int] that stays in [0,4), so [index + 1] cannot
    overflow; C's [%] truncates, hence [Z.rem]. *)
Definition led_mode_flow_step : M unit :=
  leds_all_off;;
  index ← get flow_index;
  p ← led_pins_at index;
  rt_pin_write p PIN_HIGH;;
  rt_thread_mdelay 150;;
  index ← get flow_index;
  modify (set_flow_index (Z.rem (index + 1) 4)).

(** [value++] on an [rt_uint8_t] wraps modulo 256. *)
Definition led_mode_binary_step : M unit :=
  for_lt 0 4 (fun i =>
    value ← get binary_value;
    p ← led_pins_at i;
    if negb (Z.land value (Z.shiftl 1 i) =? 0)
    then rt_pin_write p PIN_HIGH
    else rt_pin_write p PIN_LOW);;
  value ← get binary_value;
  modify (set_binary_value ((value + 1) mod 256));;
  rt_thread_mdelay 200.

(** One iteration of the [while (1)] of [led_thread_entry]. *)
Definition led_thread_body : M unit :=
  mode ← get g_led_mode;
  if mode =? LED_MODE_FLOW then led_mode_flow_step
  else if mode =? LED_MODE_BINARY then led_mode_binary_step
  else (leds_all_off;; rt_thread_mdelay 50).

(** The first [n] iterations of [led_thread_entry]. *)
Definition led_thread_entry (n : nat) : M unit :=
  loop_n n (fun _ => led_thread_body) tt.

Definition CRLF : string :=
  String "013"%char (String "010"%char EmptyString).

Definition msg_flow : string := "Mode: 普通流水灯" +:+ CRLF.
Definition msg_binary : string := "Mode: 二进制计数" +:+ CRLF.
Definition msg_none : string := "Mode: 全灭" +:+ CRLF.

(** The locals of [key_thread_entry] that live across iterations. *)
Record key_last := KeyLast {
  key1_last : Z;
  key2_last : Z;
  key3_last : Z
}.

(** One iteration of the [while (1)] of [key_thread_entry]. *)
Definition key_thread_body (l : key_last) : M key_last :=
  k1 ← rt_pin_read KEY1_PIN;
  k2 ← rt_pin_read KEY2_PIN;
  k3 ← rt_pin_read KEY3_PIN;
  (if (key1_last l =? 1) && (k1 =? 0) then
     rt_thread_mdelay 20;;
     r ← rt_pin_read KEY1_PIN;
     if r =? 0 then
       modify (set_g_led_mode LED_MODE_FLOW);;
       rt_kprintf msg_flow
     else mret tt
   else mret tt);;
  (if (key2_last l =? 1) && (k2 =? 0) then
     rt_thread_mdelay 20;;
     r ← rt_pin_read KEY2_PIN;
     if r =? 0 then
       modify (set_g_led_mode LED_MODE_BINARY);;
       rt_kprintf msg_binary
     else mret tt
   else mret tt);;
  (if (key3_last l =? 1) && (k3 =? 0) then
     rt_thread_mdelay 20;;
     r ← rt_pin_read KEY3_PIN;
     if r =? 0 then
       modify (set_g_led_mode LED_MODE_NONE);;
       rt_kprintf msg_none
     else mret tt
   else mret tt);;
  rt_thread_mdelay 10;;
  mret (KeyLast k1 k2 k3).

Definition key_last_init : key_last := KeyLast 1 1 1.

(** The first [n] iterations of [key_thread_entry]. *)
Definition key_thread_entry (n : nat) : M key_last :=
  loop_n n key_thread_body key_last_init.

Definition main : M Z :=
  rt_pin_mode LED1_PIN PIN_MODE_OUTPUT;;
  rt_pin_mode LED2_PIN PIN_MODE_OUTPUT;;
  rt_pin_mode LED3_PIN PIN_MODE_OUTPUT;;
  rt_pin_mode LED4_PIN PIN_MODE_OUTPUT;;
  leds_all_off;;
  rt_pin_mode KEY1_PIN PIN_MODE_INPUT_PULLUP;;
  rt_pin_mode KEY2_PIN PIN_MODE_INPUT_PULLUP;;
  rt_pin_mode KEY3_PIN PIN_MODE_INPUT_PULLUP;;
  led_tid ← rt_thread_create "led" led_thread_entry_fn 1024 5 10;
  match led_tid with
  | Some t => rt_thread_startup t
  | None => mret tt
  end;;
  key_tid ← rt_thread_create "key" key_thread_entry_fn 1024 6 10;
  match key_tid with
  | Some t => rt_thread_startup t
  | None => mret tt
  end;;
  mret RT_EOK.

(** The world at reset: the static initialisers of [main.c], no pin
    written, nothing read, nothing logged. *)
Definition boot (inp : pin -> nat -> Z) (mk : nat -> bool) : world :=
  World LED_MODE_NONE 0 0 ∅ inp (fun _ => O) mk O [] [].

(* ===================================================================== *)
(** ** Observations *)
(* ===================================================================== *)

(** Output [i] (an index into [led_pins]) is driven high / low. *)
Definition led_is (v : Z) (w : world) (i : nat) : bool :=
  match led_pins !! i with
  | Some p => bool_decide (pin_level w !! p = Some v)
  | None => false
  end.

Definition led_high : world -> nat -> bool := led_is PIN_HIGH.
Definition led_low : world -> nat -> bool := led_is PIN_LOW.

(** The outputs that are high, in index order. *)
Definition lit_leds (w : world) : list nat :=
  List.filter (led_high w) [0; 1; 2; 3]%nat.

Definition all_leds_low (w : world) : bool :=
  forallb (led_low w) [0; 1; 2; 3]%nat.

(** The four outputs read as a 4-bit unsigned value, output [i] being
    bit [i]. *)
Definition visible_pattern (w : world) : Z :=
  fold_right (fun i acc => (if led_high w i then 2 ^ Z.of_nat i else 0) + acc)
             0 [0; 1; 2; 3]%nat.

(** The level a binary step drives on output [i] for counter [v]. *)
Definition bit_level (v i : Z) : Z :=
  if negb (Z.land v (Z.shiftl 1 i) =? 0) then PIN_HIGH else PIN_LOW.

(** Writing the four outputs in table order. *)
Definition write4 (a b c d : Z) (w : world) : world :=
  World (g_led_mode w) (flow_index w) (binary_value w)
        (<[LED4_PIN := d]> (<[LED3_PIN := c]> (<[LED2_PIN := b]>
           (<[LED1_PIN := a]> (pin_level w)))))
        (pin_input w) (pin_reads w) (create_ok w) (creates w) (ready w)
        ((((trace w ++ [EvPinWrite LED1_PIN a]) ++ [EvPinWrite LED2_PIN b])
            ++ [EvPinWrite LED3_PIN c]) ++ [EvPinWrite LED4_PIN d]).

(* ===================================================================== *)
(** ** Derived definitions: the worlds each operation leaves, runs, and
       the specification-side vocabulary *)
(* ===================================================================== *)

(** The world a chase step leaves when [led_pins[index]] is [p]. *)
Definition flow_after (p : pin) (w : world) : world :=
  let w0 := write4 PIN_LOW PIN_LOW PIN_LOW PIN_LOW w in
  set_flow_index (Z.rem (flow_index w + 1) 4)
    (log (EvDelay 150)
       (log (EvPinWrite p PIN_HIGH)
          (set_pin_level (<[p := PIN_HIGH]> (pin_level w0)) w0))).

(** [n] consecutive invocations of the chase step. *)
Definition flow_run (n : nat) : M unit :=
  loop_n n (fun _ => led_mode_flow_step) tt.

(** The world a binary step leaves. *)
Definition binary_after (w : world) : world :=
  let v := binary_value w in
  log (EvDelay 200)
    (set_binary_value ((v + 1) mod 256)
       (write4 (bit_level v 0) (bit_level v 1) (bit_level v 2) (bit_level v 3) w)).

(** [n] consecutive invocations of the binary-count step. *)
Definition binary_run (n : nat) : M unit :=
  loop_n n (fun _ => led_mode_binary_step) tt.

(** The world an Off render leaves. *)
Definition off_after (w : world) : world :=
  log (EvDelay 50) (write4 PIN_LOW PIN_LOW PIN_LOW PIN_LOW w).

Inductive button := KEY1 | KEY2 | KEY3.

#[global] Instance button_eq_dec : EqDecision button.
Proof. solve_decision. Defined.

Definition key_pin (b : button) : pin :=
  match b with KEY1 => KEY1_PIN | KEY2 => KEY2_PIN | KEY3 => KEY3_PIN end.

Definition last_of (b : button) (l : key_last) : Z :=
  match b with
  | KEY1 => key1_last l
  | KEY2 => key2_last l
  | KEY3 => key3_last l
  end.

(** The mode each button selects and the line it prints (header comment
    of [main.c] and the three blocks of [key_thread_entry]). *)
Definition mode_of_button (b : button) : Z :=
  match b with
  | KEY1 => LED_MODE_FLOW
  | KEY2 => LED_MODE_BINARY
  | KEY3 => LED_MODE_NONE
  end.

Definition msg_of_button (b : button) : string :=
  match b with
  | KEY1 => msg_flow
  | KEY2 => msg_binary
  | KEY3 => msg_none
  end.

(** What the scan that starts in world [w] samples for button [b], and
    what a re-sample 20ms later would read. *)
Definition sample (b : button) (w : world) : Z :=
  pin_input w (key_pin b) (pin_reads w (key_pin b)).

Definition resample (b : button) (w : world) : Z :=
  pin_input w (key_pin b) (S (pin_reads w (key_pin b))).

(** Specification side.  A falling edge: previous sample high, this
    sample low.  It is confirmed when the re-sample is still low, and a
    glitch when it is not. *)
Definition falling_edge (b : button) (l : key_last) (w : world) : bool :=
  (last_of b l =? 1) && (sample b w =? 0).

Definition confirmed_edge (b : button) (l : key_last) (w : world) : bool :=
  falling_edge b l w && (resample b w =? 0).

Definition glitch (b : button) (l : key_last) (w : world) : bool :=
  falling_edge b l w && negb (resample b w =? 0).

(** The confirmed edges of one scan, in program order. *)
Definition scan_edges (l : key_last) (w : world) : list button :=
  List.filter (fun b => confirmed_edge b l w) [KEY1; KEY2; KEY3].

(** The confirmed edges of [n] consecutive scans, oldest first. *)
Fixpoint run_edges (n : nat) (l : key_last) (w : world) : list button :=
  match n with
  | O => []
  | S n' =>
      scan_edges l w ++
      match key_thread_body l w with
      | Some (l', w') => run_edges n' l' w'
      | None => []
      end
  end.

(** Last write wins: the mode of the last edge, or the old mode. *)
Definition last_write_wins (m0 : Z) (es : list button) : Z :=
  match last es with
  | Some b => mode_of_button b
  | None => m0
  end.

(** The diagnostic lines of a log. *)
Definition kprintf_lines (t : list event) : list string :=
  omap (fun e => match e with EvKprintf s => Some s | _ => None end) t.

(** One of the three edge-detect blocks of the scan loop. *)
Definition key_block (last k : Z) (p : pin) (mode : Z) (msg : string) : M unit :=
  if (last =? 1) && (k =? 0) then
    rt_thread_mdelay 20;;
    r ← rt_pin_read p;
    if r =? 0 then
      modify (set_g_led_mode mode);;
      rt_kprintf msg
    else mret tt
  else mret tt.

(** The world a block leaves: [e] says whether the edge test passed and
    [c] whether the re-sample read low. *)
Definition key_block_after (e c : bool) (p : pin) (mode : Z) (msg : string)
    (w : world) : world :=
  if e then
    let w1 := set_pin_reads (bump p (pin_reads w)) (log (EvDelay 20) w) in
    if c then log (EvKprintf msg) (set_g_led_mode mode w1) else w1
  else w.

(** The world one scan leaves, and the samples it remembers. *)
Definition scan_after (l : key_last) (w : world) : world :=
  let w3 := set_pin_reads
              (bump KEY3_PIN (bump KEY2_PIN (bump KEY1_PIN (pin_reads w)))) w in
  let wa := key_block_after (falling_edge KEY1 l w) (resample KEY1 w =? 0)
              KEY1_PIN LED_MODE_FLOW msg_flow w3 in
  let wb := key_block_after (falling_edge KEY2 l w) (resample KEY2 w =? 0)
              KEY2_PIN LED_MODE_BINARY msg_binary wa in
  let wc := key_block_after (falling_edge KEY3 l w) (resample KEY3 w =? 0)
              KEY3_PIN LED_MODE_NONE msg_none wb in
  log (EvDelay 10) wc.

Definition scan_last (w : world) : key_last :=
  KeyLast (sample KEY1 w) (sample KEY2 w) (sample KEY3 w).

Definition led_thread : thread := Thread "led" led_thread_entry_fn 1024 5 10.
Definition key_thread : thread := Thread "key" key_thread_entry_fn 1024 6 10.

(** The threads [main] starts, given which creations succeeded. *)
Definition main_started (ok_led ok_key : bool) : list thread :=
  (if ok_led then [led_thread] else []) ++ (if ok_key then [key_thread] else []).

(** Everything [main] does to the outside world. *)
Definition main_events (ok_led ok_key : bool) : list event :=
  [ EvPinMode LED1_PIN PIN_MODE_OUTPUT;
    EvPinMode LED2_PIN PIN_MODE_OUTPUT;
    EvPinMode LED3_PIN PIN_MODE_OUTPUT;
    EvPinMode LED4_PIN PIN_MODE_OUTPUT;
    EvPinWrite LED1_PIN PIN_LOW;
    EvPinWrite LED2_PIN PIN_LOW;
    EvPinWrite LED3_PIN PIN_LOW;
    EvPinWrite LED4_PIN PIN_LOW;
    EvPinMode KEY1_PIN PIN_MODE_INPUT_PULLUP;
    EvPinMode KEY2_PIN PIN_MODE_INPUT_PULLUP;
    EvPinMode KEY3_PIN PIN_MODE_INPUT_PULLUP ]
  ++ [EvThreadCreate "led" ok_led]
  ++ (if ok_led then [EvThreadStartup led_thread] else [])
  ++ [EvThreadCreate "key" ok_key]
  ++ (if ok_key then [EvThreadStartup key_thread] else []).

(** The LED thread rendering while the mode variable is rewritten between
    renders (as the key thread may do): [ms] lists the mode that each
    successive iteration reads. *)
Fixpoint led_run_modes (ms : list Z) : M unit :=
  match ms with
  | [] => mret tt
  | m :: ms' =>
      modify (set_g_led_mode m);;
      led_thread_body;;
      led_run_modes ms'
  end.

(** How many iterations of [ms] read mode [m]. *)
Definition count_mode (m : Z) (ms : list Z) : Z :=
  Z.of_nat (length (List.filter (Z.eqb m) ms)).

Definition mode_valid (m : Z) : Prop :=
  m = LED_MODE_NONE \/ m = LED_MODE_FLOW \/ m = LED_MODE_BINARY.

(** A world for examples: every button released, every thread creation
    succeeding. *)
Definition idle_input : pin -> nat -> Z := fun _ _ => 1.
Definition demo_world : world := boot idle_input (fun _ => true).

(** KEY1 bounces (low, then high at the re-sample) while KEY2 is pressed
    and stays low; KEY3 is released. *)
Definition bounce_input : pin -> nat -> Z :=
  fun p n =>
    if decide (p = KEY1_PIN) then match n with O => 0 | S _ => 1 end
    else if decide (p = KEY2_PIN) then 0
    else 1.

Definition bounce_world : world := boot bounce_input (fun _ => true).

(** KEY1 is pressed and held; the other buttons are released. *)
Definition press1_input : pin -> nat -> Z :=
  fun p _ => if decide (p = KEY1_PIN) then 0 else 1.

(** KEY1 and KEY2 are pressed and held; KEY3 is released. *)
Definition press12_input : pin -> nat -> Z :=
  fun p _ => if decide (p = KEY3_PIN) then 1 else 0.

(* ===================================================================== *)
(** ** Vocabulary for logs, timing and button histories *)
(* ===================================================================== *)

(** Total of the delays of a log, in milliseconds. *)
Definition delay_total (t : list event) : Z :=
  fold_right (fun e acc => match e with EvDelay ms => ms + acc | _ => acc end)
             0 t.

(** The pin writes of a log, oldest first. *)
Definition pin_writes (t : list event) : list (pin * Z) :=
  omap (fun e => match e with EvPinWrite p v => Some (p, v) | _ => None end) t.

(** A write of a level to one of the four LED pins. *)
Definition led_write (pv : pin * Z) : Prop :=
  pv.1 ∈ led_pins /\ (pv.2 = PIN_LOW \/ pv.2 = PIN_HIGH).

(** The latches of the four LED pins, in table order. *)
Definition led_levels (w : world) : list (option Z) :=
  (fun p => pin_level w !! p) <$> led_pins.

(** How many of the three buttons show a falling edge in the scan that
    starts in [w]. *)
Definition falling_count (l : key_last) (w : world) : Z :=
  Z.b2z (falling_edge KEY1 l w) + Z.b2z (falling_edge KEY2 l w)
  + Z.b2z (falling_edge KEY3 l w).

(** From world [w] on, every read of button [b] returns low / never
    returns low. *)
Definition reads_low_from (b : button) (w : world) : Prop :=
  forall k : nat, (pin_reads w (key_pin b) <= k)%nat ->
                  pin_input w (key_pin b) k = 0.

Definition never_low_from (b : button) (w : world) : Prop :=
  forall k : nat, (pin_reads w (key_pin b) <= k)%nat ->
                  pin_input w (key_pin b) k <> 0.

(** The edges of button [b] among [es]. *)
Definition edges_of (b : button) (es : list button) : list button :=
  List.filter (fun b' => bool_decide (b' = b)) es.

(** The events one edge-detect block logs. *)
Definition block_events (e c : bool) (msg : string) : list event :=
  if e then EvDelay 20 :: (if c then [EvKprintf msg] else []) else [].

(** The latches after the pin writes of a log are applied in order. *)
Definition levels_after (t : list event) (m : gmap pin Z) : gmap pin Z :=
  fold_left (fun m e => match e with
                        | EvPinWrite p v => <[p := v]> m
                        | _ => m
                        end) t m.

(** The LED indices that are high in a latch map. *)
Definition lit_of (m : gmap pin Z) : list nat :=
  List.filter (fun i => match led_pins !! i with
                        | Some p => bool_decide (m !! p = Some PIN_HIGH)
                        | None => false
                        end) [0; 1; 2; 3]%nat.

(** KEY1 bounces once (low, high at the re-sample) and is then held low;
    the other buttons are released. *)
Definition bounce_then_hold_input : pin -> nat -> Z :=
  fun p n =>
    if decide (p = KEY1_PIN) then match n with 1%nat => 1 | _ => 0 end
    else 1.

(** The LED latches, in table order, that an LED-thread iteration leaves
    for mode byte [m], chase index [i] and binary counter [v]. *)
Definition render_levels (m i v : Z) : list (option Z) :=
  if m =? LED_MODE_FLOW then
    (fun k => Some (if k =? i then PIN_HIGH else PIN_LOW)) <$> [0; 1; 2; 3]
  else if m =? LED_MODE_BINARY then
    (fun k => Some (bit_level v k)) <$> [0; 1; 2; 3]
  else [Some PIN_LOW; Some PIN_LOW; Some PIN_LOW; Some PIN_LOW].

(* ===================================================================== *)
(** ** Threads as sequences of atomic steps *)
(* ===================================================================== *)

(** The scheduler of the target may switch threads between any two
    platform calls or accesses to shared state (the LED thread has the
    higher priority and preempts, and every [rt_thread_mdelay] yields).
    A thread is therefore a sequence of atomic steps: [TStep m k] runs
    the monadic action [m] as one step and continues with [k] on its
    result. *)
Inductive Thr (X : Type) : Type :=
| TDone (x : X)
| TStep {A : Type} (m : M A) (k : A -> Thr X).

Arguments TDone {X} x.
Arguments TStep {X A} m k.

Fixpoint tbind {X Y} (t : Thr X) (f : X -> Thr Y) : Thr Y :=
  match t with
  | TDone x => f x
  | TStep m k => TStep m (fun a => tbind (k a) f)
  end.

(** One platform call, or one access to a variable, as one step. *)
Definition atom {X} (m : M X) : Thr X := TStep m TDone.

#[global] Instance Thr_ret : MRet Thr := @TDone.
#[global] Instance Thr_bind : MBind Thr := fun X Y f t => tbind t f.

(** A thread run to its end without interruption. *)
Fixpoint flatten {X} (t : Thr X) : M X :=
  match t with
  | TDone x => ret x
  | TStep m k => fun w => match m w with
                          | Some (a, w') => flatten (k a) w'
                          | None => None
                          end
  end.

Fixpoint tfor_fuel (fuel : nat) (i hi : Z) (body : Z -> Thr unit) : Thr unit :=
  match fuel with
  | O => mret tt
  | S fuel' =>
      if i <? hi then body i ;; tfor_fuel fuel' (i + 1) hi body else mret tt
  end.

Definition tfor_lt (lo hi : Z) (body : Z -> Thr unit) : Thr unit :=
  tfor_fuel (Z.to_nat (hi - lo)) lo hi body.

(** The functions of [src/main.c] once more, step by step: the same
    text as above with every call and every variable access marked as an
    atomic step. *)
Module Fine.

Definition leds_all_off : Thr unit :=
  tfor_lt 0 4 (fun i =>
    p ← atom (led_pins_at i);
    atom (rt_pin_write p PIN_LOW)).

Definition led_mode_flow_step : Thr unit :=
  leds_all_off;;
  index ← atom (get flow_index);
  p ← atom (led_pins_at index);
  atom (rt_pin_write p PIN_HIGH);;
  atom (rt_thread_mdelay 150);;
  index ← atom (get flow_index);
  atom (modify (set_flow_index (Z.rem (index + 1) 4))).

Definition led_mode_binary_step : Thr unit :=
  tfor_lt 0 4 (fun i =>
    value ← atom (get binary_value);
    p ← atom (led_pins_at i);
    if negb (Z.land value (Z.shiftl 1 i) =? 0)
    then atom (rt_pin_write p PIN_HIGH)
    else atom (rt_pin_write p PIN_LOW));;
  value ← atom (get binary_value);
  atom (modify (set_binary_value ((value + 1) mod 256)));;
  atom (rt_thread_mdelay 200).

Definition led_thread_body : Thr unit :=
  mode ← atom (get g_led_mode);
  if mode =? LED_MODE_FLOW then led_mode_flow_step
  else if mode =? LED_MODE_BINARY then led_mode_binary_step
  else (leds_all_off;; atom (rt_thread_mdelay 50)).

Definition key_thread_body (l : key_last) : Thr key_last :=
  k1 ← atom (rt_pin_read KEY1_PIN);
  k2 ← atom (rt_pin_read KEY2_PIN);
  k3 ← atom (rt_pin_read KEY3_PIN);
  (if (key1_last l =? 1) && (k1 =? 0) then
     atom (rt_thread_mdelay 20);;
     r ← atom (rt_pin_read KEY1_PIN);
     if r =? 0 then
       atom (modify (set_g_led_mode LED_MODE_FLOW));;
       atom (rt_kprintf msg_flow)
     else mret tt
   else mret tt);;
  (if (key2_last l =? 1) && (k2 =? 0) then
     atom (rt_thread_mdelay 20);;
     r ← atom (rt_pin_read KEY2_PIN);
     if r =? 0 then
       atom (modify (set_g_led_mode LED_MODE_BINARY));;
       atom (rt_kprintf msg_binary)
     else mret tt
   else mret tt);;
  (if (key3_last l =? 1) && (k3 =? 0) then
     atom (rt_thread_mdelay 20);;
     r ← atom (rt_pin_read KEY3_PIN);
     if r =? 0 then
       atom (modify (set_g_led_mode LED_MODE_NONE));;
       atom (rt_kprintf msg_none)
     else mret tt
   else mret tt);;
  atom (rt_thread_mdelay 10);;
  mret (KeyLast k1 k2 k3).

Definition main : Thr Z :=
  atom (rt_pin_mode LED1_PIN PIN_MODE_OUTPUT);;
  atom (rt_pin_mode LED2_PIN PIN_MODE_OUTPUT);;
  atom (rt_pin_mode LED3_PIN PIN_MODE_OUTPUT);;
  atom (rt_pin_mode LED4_PIN PIN_MODE_OUTPUT);;
  leds_all_off;;
  atom (rt_pin_mode KEY1_PIN PIN_MODE_INPUT_PULLUP);;
  atom (rt_pin_mode KEY2_PIN PIN_MODE_INPUT_PULLUP);;
  atom (rt_pin_mode KEY3_PIN PIN_MODE_INPUT_PULLUP);;
  led_tid ← atom (rt_thread_create "led" led_thread_entry_fn 1024 5 10);
  match led_tid with
  | Some t => atom (rt_thread_startup t)
  | None => mret tt
  end;;
  key_tid ← atom (rt_thread_create "key" key_thread_entry_fn 1024 6 10);
  match key_tid with
  | Some t => atom (rt_thread_startup t)
  | None => mret tt
  end;;
  mret RT_EOK.

End Fine.

(* ===================================================================== *)
(** ** The three threads under a scheduler *)
(* ===================================================================== *)

(** The scheduler picks which thread takes its next atomic step. *)
Inductive action := RunMain | RunLed | RunKey.

(** A thread runs only once [rt_thread_startup] was called on it. *)
Definition started (f : entry_fn) (w : world) : bool :=
  bool_decide (f ∈ th_entry <$> ready w).

(** The world and what is left of [main] and of the current iteration of
    each thread loop. *)
Record config := Config {
  cf_world : world;
  cf_main : Thr Z;
  cf_led : Thr unit;
  cf_key : Thr key_last
}.

(** One step of a thread; a finished iteration continues with [next]. *)
Definition thr_step {X} (next : X -> Thr X) (t : Thr X) (w : world)
    : option (Thr X * world) :=
  match t with
  | TDone x => Some (next x, w)
  | TStep m k => match m w with
                 | Some (a, w') => Some (k a, w')
                 | None => None
                 end
  end.

Definition sys_step (a : action) (c : config) : option config :=
  match a with
  | RunMain =>
      match thr_step TDone (cf_main c) (cf_world c) with
      | Some (t, w) => Some (Config w t (cf_led c) (cf_key c))
      | None => None
      end
  | RunLed =>
      if started led_thread_entry_fn (cf_world c) then
        match thr_step (fun _ => Fine.led_thread_body) (cf_led c) (cf_world c) with
        | Some (t, w) => Some (Config w (cf_main c) t (cf_key c))
        | None => None
        end
      else Some c
  | RunKey =>
      if started key_thread_entry_fn (cf_world c) then
        match thr_step Fine.key_thread_body (cf_key c) (cf_world c) with
        | Some (t, w) => Some (Config w (cf_main c) (cf_led c) t)
        | None => None
        end
      else Some c
  end.

Fixpoint sys_run (sched : list action) (c : config) : option config :=
  match sched with
  | [] => Some c
  | a :: sched' =>
      match sys_step a c with
      | Some c' => sys_run sched' c'
      | None => None
      end
  end.

(** Reset: [main] is about to run, no thread is started; the key thread
    will enter its loop with the three remembered samples at 1. *)
Definition sys_init (inp : pin -> nat -> Z) (mk : nat -> bool) : config :=
  Config (boot inp mk) Fine.main (TDone tt) (TDone key_last_init).

Definition system (inp : pin -> nat -> Z) (mk : nat -> bool)
    (sched : list action) : option config :=
  sys_run sched (sys_init inp mk).

(** Whether [main] has returned. *)
Definition main_returned (c : config) : bool :=
  match cf_main c with TDone _ => true | TStep _ _ => false end.

(* ===================================================================== *)
(** ** Assertions about threads (rely/guarantee) *)
(* ===================================================================== *)

(** [Q] survives the steps [R] of the other threads. *)
Definition stable (I : world -> Prop) (R : world -> world -> Prop)
    (Q : world -> Prop) : Prop :=
  forall w w', I w -> Q w -> R w w' -> Q w'.

(** From a world satisfying the global invariant [I] and the thread's
    current assertion [Q], and while the thread is enabled ([E]), every
    step of [t] is defined, keeps [I], is allowed by the guarantee [G],
    and establishes an assertion that is stable under the rely [R] and
    from which the rest of [t] is safe again; at its end [t] has
    established [Qend]. *)
Fixpoint tsafe (I E : world -> Prop) (R G : world -> world -> Prop) {X}
    (Qend : X -> world -> Prop) (t : Thr X) (Q : world -> Prop) : Prop :=
  match t with
  | TDone x => forall w, I w -> Q w -> Qend x w
  | TStep m k =>
      forall w, I w -> Q w -> E w ->
        exists a w',
          m w = Some (a, w') /\ I w' /\ G w w'
          /\ exists Q', stable I R Q' /\ Q' w'
                        /\ tsafe I E R G Qend (k a) Q'
  end.

(** A thread in the middle of a run: some stable assertion holds now and
    makes the rest of the thread safe. *)
Definition thread_ok (I E : world -> Prop) (R G : world -> world -> Prop) {X}
    (Qend : X -> world -> Prop) (t : Thr X) (w : world) : Prop :=
  exists Q, stable I R Q /\ Q w /\ tsafe I E R G Qend t Q.

(** The four writes of [leds_all_off]. *)
Definition lows4 : list (pin * Z) :=
  [(LED1_PIN, PIN_LOW); (LED2_PIN, PIN_LOW);
   (LED3_PIN, PIN_LOW); (LED4_PIN, PIN_LOW)].

(** A latch that holds low or high. *)
Definition definite (o : option Z) : Prop :=
  o = Some PIN_LOW \/ o = Some PIN_HIGH.

(** The latches after a list of writes. *)
Definition replay (ws : list (pin * Z)) (m : gmap pin Z) : gmap pin Z :=
  fold_left (fun m pv => <[pv.1 := pv.2]> m) ws m.

(** The invariant of the running system, for thread-creation outcomes
    [mk]: it holds between any two atomic steps. *)
Definition sys_inv (mk : nat -> bool) (w : world) : Prop :=
  create_ok w = mk
  /\ mode_valid (g_led_mode w)
  /\ 0 <= flow_index w < 4
  /\ 0 <= binary_value w < 256
  /\ Forall led_write (pin_writes (trace w))
  /\ (forall q, (forall b, q <> key_pin b) -> pin_reads w q = O)
  /\ (started led_thread_entry_fn w = true -> mk 0%nat = true)
  /\ (started key_thread_entry_fn w = true -> mk 1%nat = true)
  /\ (started key_thread_entry_fn w = false ->
      g_led_mode w = LED_MODE_NONE
      /\ kprintf_lines (trace w) = []
      /\ (forall q, pin_reads w q = O)
      /\ Forall (fun pv => pv.2 = PIN_LOW) (pin_writes (trace w)))
  /\ (started led_thread_entry_fn w = false ->
      exists n : nat, pin_writes (trace w) = take n lows4)
  /\ pin_level w = replay (pin_writes (trace w)) ∅
  /\ (ready w <> [] -> exists rest, pin_writes (trace w) = lows4 ++ rest).

(** What the steps of each thread may do, as the other threads see it. *)
Definition led_guar (w w' : world) : Prop :=
  started led_thread_entry_fn w = true
  /\ ready w' = ready w
  /\ creates w' = creates w
  /\ exists l, pin_writes (trace w') = pin_writes (trace w) ++ l.

Definition key_guar (w w' : world) : Prop :=
  started key_thread_entry_fn w = true
  /\ ready w' = ready w
  /\ creates w' = creates w
  /\ pin_writes (trace w') = pin_writes (trace w).

Definition main_guar (w w' : world) : Prop :=
  forall f, started f w = true -> started f w' = true.

Definition main_rely (w w' : world) : Prop := led_guar w w' \/ key_guar w w'.
Definition led_rely (w w' : world) : Prop := main_guar w w' \/ key_guar w w'.
Definition key_rely (w w' : world) : Prop := main_guar w w' \/ led_guar w w'.

(** Where [main] is: the creations it has attempted and how many of its
    four writes it has made, none of them after a thread was started.
    The LED thread, once started, may have written after them. *)
Definition main_at (c n : nat) (w : world) : Prop :=
  creates w = c
  /\ ((n < 4)%nat -> ready w = [])
  /\ exists rest,
       pin_writes (trace w) = take n lows4 ++ rest
       /\ (started led_thread_entry_fn w = false -> rest = []).

(** What holds once [main] has returned. *)
Definition main_end (x : Z) (w : world) : Prop :=
  x = RT_EOK
  /\ exists rest,
       pin_writes (trace w) = lows4 ++ rest
       /\ (started led_thread_entry_fn w = false -> rest = []).

(** What the LED thread knows after it has read the mode byte [m]. *)
Definition led_at (m : Z) (w : world) : Prop :=
  m = LED_MODE_NONE \/ started key_thread_entry_fn w = true.

Definition led_enabled (w : world) : Prop :=
  started led_thread_entry_fn w = true.

Definition key_enabled (w : world) : Prop :=
  started key_thread_entry_fn w = true.

(** What is known after a step of the LED thread: a fact [P] about the
    step's result, and [led_at]. *)
Definition led_post (a : Z) {X} (P : X -> Prop) : X -> world -> Prop :=
  fun x w => P x /\ led_at a w.

(** A piece of the key thread is safe: each of its steps runs, keeps the
    system invariant and stays within the key thread's guarantee,
    whatever the other threads do in between. *)
Definition key_safe (mk : nat -> bool) {X} (t : Thr X) : Prop :=
  tsafe (sys_inv mk) key_enabled key_rely key_guar (fun _ _ => True) t
        (fun _ => True).

(** The same for a piece of the LED thread that runs after the shared
    mode was read as [a]. *)
Definition led_safe (mk : nat -> bool) (a : Z) {X}
    (Qend : X -> world -> Prop) (t : Thr X) : Prop :=
  tsafe (sys_inv mk) led_enabled led_rely led_guar Qend t (led_at a).

(** And for a piece of [main] between two of its positions. *)
Definition main_safe (mk : nat -> bool) {X} (Q : world -> Prop)
    (Qend : X -> world -> Prop) (t : Thr X) : Prop :=
  tsafe (sys_inv mk) (fun _ => True) main_rely main_guar Qend t Q.

(** The invariant of a configuration. *)
Definition config_ok (mk : nat -> bool) (c : config) : Prop :=
  sys_inv mk (cf_world c)
  /\ thread_ok (sys_inv mk) (fun _ => True) main_rely main_guar
       main_end (cf_main c) (cf_world c)
  /\ thread_ok (sys_inv mk) led_enabled led_rely led_guar
       (fun _ _ => True) (cf_led c) (cf_world c)
  /\ thread_ok (sys_inv mk) key_enabled key_rely key_guar
       (fun _ _ => True) (cf_key c) (cf_world c).

(** The lines of button [b] among [ls]. *)
Definition lines_of (b : button) (ls : list string) : list string :=
  List.filter (fun s => bool_decide (s = msg_of_button b)) ls.

(** Schedules for examples.  [main] takes at most nineteen steps. *)
Definition mk_no_led : nat -> bool :=
  fun n => match n with O => false | S _ => true end.
Definition mk_no_key : nat -> bool :=
  fun n => match n with 1%nat => false | _ => true end.

(** [main] to its end, then the key thread alone for a few scans: KEY1 is
    down from the first sample on and the first scan confirms it. *)
Definition sched_no_led : list action :=
  replicate 20 RunMain ++ [RunLed] ++ replicate 30 RunKey ++ [RunLed].

(** [main] to its end, then the LED thread for two renders with attempts
    to run the key thread in between. *)
Definition sched_no_key : list action :=
  replicate 20 RunMain ++ [RunKey] ++ replicate 12 RunLed ++ [RunKey]
    ++ replicate 12 RunLed.

(** What a schedule leaves, every creation succeeding. *)
Definition mode_after (inp : pin -> nat -> Z) (sched : list action) : option Z :=
  (fun c => g_led_mode (cf_world c)) <$> system inp (fun _ => true) sched.

Definition lit_after (inp : pin -> nat -> Z) (sched : list action)
    : option (list nat) :=
  (fun c => lit_leds (cf_world c)) <$> system inp (fun _ => true) sched.

Definition index_after (inp : pin -> nat -> Z) (sched : list action) : option Z :=
  (fun c => flow_index (cf_world c)) <$> system inp (fun _ => true) sched.

(** Pieces of schedules, in atomic steps: [main] to its end (nineteen
    steps when both creations succeed); one iteration of the LED thread
    rendering Off (the step that re-enters the loop, the read of the
    mode, four times table lookup and write, the delay) or a chase step;
    one scan of the key thread that confirms one edge. *)
Definition run_main : list action := replicate 19 RunMain.
Definition led_off_iteration : list action := replicate 11 RunLed.
Definition led_chase_iteration : list action := replicate 16 RunLed.
Definition key_scan_one_edge : list action := replicate 9 RunKey.

(** A scan with KEY1 and KEY2 down, cut in two inside the 20ms delay of
    the KEY2 block: up to and including that delay, and the rest. *)
Definition key_scan_to_second_delay : list action := replicate 9 RunKey.
Definition key_scan_rest : list action := replicate 4 RunKey.

(** A world with exactly LED1 lit: reset, then one chase step. *)
Definition one_lit_world : world := flow_after LED1_PIN demo_world.

(* ===================================================================== *)
(** ** Basic facts *)
(* ===================================================================== *)

(** Unfolds the field updates on a world. *)
Ltac world_simpl :=
  cbn [g_led_mode flow_index binary_value pin_level pin_input pin_reads
       create_ok creates ready trace
       set_g_led_mode set_flow_index set_binary_value set_pin_level
       set_pin_reads set_creates set_ready log] in *.

(** The same by full unfolding, for worlds given by their fields. *)
Ltac world_cbv :=
  cbv [g_led_mode flow_index binary_value pin_level pin_input pin_reads
       create_ok creates ready trace
       set_g_led_mode set_flow_index set_binary_value set_pin_level
       set_pin_reads set_creates set_ready log write4].

(** Unfolds one layer of the monad. *)
Ltac monad_simpl :=
  cbv [mbind M_bind bind mret M_ret ret get modify exec
       rt_pin_mode rt_thread_mdelay rt_kprintf rt_pin_write
       rt_thread_startup] in *.

Lemma leds_all_off_run (w : world) :
  leds_all_off w = Some (tt, write4 PIN_LOW PIN_LOW PIN_LOW PIN_LOW w).
Proof. reflexivity. Qed.

Lemma binary_render_run (w : world) :
  for_lt 0 4 (fun i =>
    value ← get binary_value;
    p ← led_pins_at i;
    if negb (Z.land value (Z.shiftl 1 i) =? 0)
    then rt_pin_write p PIN_HIGH
    else rt_pin_write p PIN_LOW) w
  = Some (tt, write4 (bit_level (binary_value w) 0) (bit_level (binary_value w) 1)
                     (bit_level (binary_value w) 2) (bit_level (binary_value w) 3) w).
Proof.
  unfold bit_level.
  destruct (negb (Z.land (binary_value w) (Z.shiftl 1 0) =? 0)) eqn:E0,
           (negb (Z.land (binary_value w) (Z.shiftl 1 1) =? 0)) eqn:E1,
           (negb (Z.land (binary_value w) (Z.shiftl 1 2) =? 0)) eqn:E2,
           (negb (Z.land (binary_value w) (Z.shiftl 1 3) =? 0)) eqn:E3.
  all: cbv [for_lt for_fuel Z.to_nat Z.sub Z.add Z.opp Z.pos_sub Pos.to_nat
            Pos.iter_op Init.Nat.add Z.ltb Z.compare Pos.compare Pos.compare_cont
            mbind M_bind bind get led_pins_at led_pins lookup list_lookup
            mret M_ret ret rt_pin_write modify Pos.succ Pos.add]; cbn [binary_value].
  all: repeat (cbn [binary_value log set_pin_level];
               first [rewrite E0 | rewrite E1 | rewrite E2 | rewrite E3]).
  all: reflexivity.
Qed.

Lemma led_pins_distinct : NoDup led_pins.
Proof. apply (bool_decide_unpack _). vm_compute. exact I. Qed.

Lemma led_pins_at_run (i : Z) (w : world) :
  led_pins_at i w =
    if (0 <=? i) && (i <? 4)
    then match led_pins !! Z.to_nat i with
         | Some p => Some (p, w)
         | None => None
         end
    else None.
Proof.
  unfold led_pins_at.
  destruct (i <? 0) eqn:Hneg.
  - apply Z.ltb_lt in Hneg.
    replace (0 <=? i) with false by (symmetry; apply Z.leb_gt; lia).
    reflexivity.
  - apply Z.ltb_ge in Hneg.
    replace (0 <=? i) with true by (symmetry; apply Z.leb_le; lia).
    destruct (i <? 4) eqn:Hlt; cbn [andb].
    + destruct (led_pins !! Z.to_nat i); reflexivity.
    + apply Z.ltb_ge in Hlt.
      assert (4 <= Z.to_nat i)%nat as Hn by lia.
      rewrite (lookup_ge_None_2 led_pins (Z.to_nat i)) by exact Hn.
      reflexivity.
Qed.

Section Write4.
Variables (a b c d : Z) (w : world).

Lemma write4_led1 : pin_level (write4 a b c d w) !! LED1_PIN = Some a.
Proof.
  cbn [write4 pin_level].
  rewrite !lookup_insert_ne by discriminate. apply lookup_insert_eq.
Qed.

Lemma write4_led2 : pin_level (write4 a b c d w) !! LED2_PIN = Some b.
Proof.
  cbn [write4 pin_level].
  rewrite !lookup_insert_ne by discriminate. apply lookup_insert_eq.
Qed.

Lemma write4_led3 : pin_level (write4 a b c d w) !! LED3_PIN = Some c.
Proof.
  cbn [write4 pin_level].
  rewrite !lookup_insert_ne by discriminate. apply lookup_insert_eq.
Qed.

Lemma write4_led4 : pin_level (write4 a b c d w) !! LED4_PIN = Some d.
Proof. cbn [write4 pin_level]. apply lookup_insert_eq. Qed.

Lemma write4_mode : g_led_mode (write4 a b c d w) = g_led_mode w.
Proof. reflexivity. Qed.

Lemma write4_index : flow_index (write4 a b c d w) = flow_index w.
Proof. reflexivity. Qed.

Lemma write4_value : binary_value (write4 a b c d w) = binary_value w.
Proof. reflexivity. Qed.
End Write4.

(** The observations only look at the output latches. *)
Lemma led_is_ext (v : Z) (w1 w2 : world) (i : nat) :
  pin_level w1 = pin_level w2 -> led_is v w1 i = led_is v w2 i.
Proof. intros Heq. unfold led_is. rewrite Heq. reflexivity. Qed.

Lemma lit_leds_ext (w1 w2 : world) :
  pin_level w1 = pin_level w2 -> lit_leds w1 = lit_leds w2.
Proof.
  intros Heq. unfold lit_leds, led_high. cbn [List.filter].
  rewrite !(led_is_ext _ w1 w2) by exact Heq. reflexivity.
Qed.

Lemma visible_pattern_ext (w1 w2 : world) :
  pin_level w1 = pin_level w2 -> visible_pattern w1 = visible_pattern w2.
Proof.
  intros Heq. unfold visible_pattern, led_high. cbn [fold_right].
  rewrite !(led_is_ext _ w1 w2) by exact Heq. reflexivity.
Qed.

Lemma all_leds_low_ext (w1 w2 : world) :
  pin_level w1 = pin_level w2 -> all_leds_low w1 = all_leds_low w2.
Proof.
  intros Heq. unfold all_leds_low, led_low. cbn [forallb].
  rewrite !(led_is_ext _ w1 w2) by exact Heq. reflexivity.
Qed.

(** What the observations see after four writes in table order. *)
Lemma led_is_write4 (v a b c d : Z) (w : world) (i : nat) :
  led_is v (write4 a b c d w) i =
    match i with
    | 0 => bool_decide (a = v)
    | 1 => bool_decide (b = v)
    | 2 => bool_decide (c = v)
    | 3 => bool_decide (d = v)
    | _ => false
    end%nat.
Proof.
  unfold led_is.
  destruct i as [|[|[|[|i]]]]; cbn [led_pins lookup list_lookup].
  - rewrite write4_led1. apply bool_decide_ext. split; congruence.
  - rewrite write4_led2. apply bool_decide_ext. split; congruence.
  - rewrite write4_led3. apply bool_decide_ext. split; congruence.
  - rewrite write4_led4. apply bool_decide_ext. split; congruence.
  - reflexivity.
Qed.

Lemma all_off_low (w : world) :
  all_leds_low (write4 PIN_LOW PIN_LOW PIN_LOW PIN_LOW w) = true.
Proof.
  unfold all_leds_low, led_low. cbn [forallb].
  rewrite !led_is_write4. reflexivity.
Qed.

(* ===================================================================== *)
(** ** The chase step *)
(* ===================================================================== *)

Lemma flow_step_run (w : world) (p : pin) :
  0 <= flow_index w < 4 ->
  led_pins !! Z.to_nat (flow_index w) = Some p ->
  led_mode_flow_step w = Some (tt, flow_after p w).
Proof.
  intros Hrange Hp.
  unfold led_mode_flow_step. monad_simpl.
  rewrite leds_all_off_run. rewrite led_pins_at_run.
  rewrite write4_index.
  replace (0 <=? flow_index w) with true by (symmetry; apply Z.leb_le; lia).
  replace (flow_index w <? 4) with true by (symmetry; apply Z.ltb_lt; lia).
  cbn [andb]. rewrite Hp. reflexivity.
Qed.

(** Outside [0,4) the table read is out of bounds. *)
Lemma flow_step_undefined (w : world) :
  ~ 0 <= flow_index w < 4 -> led_mode_flow_step w = None.
Proof.
  intros Hout.
  unfold led_mode_flow_step. monad_simpl.
  rewrite leds_all_off_run. rewrite led_pins_at_run.
  rewrite write4_index.
  destruct (0 <=? flow_index w) eqn:H0; [|reflexivity].
  destruct (flow_index w <? 4) eqn:H4; [|reflexivity].
  apply Z.leb_le in H0. apply Z.ltb_lt in H4. lia.
Qed.

Lemma led_pins_lookup_range (i : Z) :
  0 <= i < 4 -> exists p, led_pins !! Z.to_nat i = Some p.
Proof.
  intros Hi. apply lookup_lt_is_Some_2.
  change (length led_pins) with 4%nat. lia.
Qed.

Lemma lit_leds_flow_after (w : world) (p : pin) :
  0 <= flow_index w < 4 ->
  led_pins !! Z.to_nat (flow_index w) = Some p ->
  lit_leds (flow_after p w) = [Z.to_nat (flow_index w)].
Proof.
  intros Hrange Hp.
  assert (flow_index w = 0 \/ flow_index w = 1 \/ flow_index w = 2
          \/ flow_index w = 3) as Hcase by lia.
  destruct Hcase as [Hi|[Hi|[Hi|Hi]]]; rewrite Hi in Hp |- *;
    cbn in Hp; injection Hp as <-;
    unfold lit_leds, led_high, led_is, flow_after;
    cbn [List.filter led_pins lookup list_lookup];
    world_simpl; cbn [write4 pin_level];
    repeat first [ rewrite lookup_insert_eq
                 | rewrite lookup_insert_ne by discriminate ];
    rewrite ?(bool_decide_eq_true_2 (Some PIN_HIGH = Some PIN_HIGH)) by reflexivity;
    rewrite ?(bool_decide_eq_false_2 (Some PIN_LOW = Some PIN_HIGH)) by discriminate;
    reflexivity.
Qed.

Lemma flow_after_index (w : world) (p : pin) :
  0 <= flow_index w < 4 ->
  flow_index (flow_after p w) = (flow_index w + 1) mod 4.
Proof.
  intros Hrange. unfold flow_after. world_simpl.
  apply Z.rem_mod_nonneg; lia.
Qed.

Lemma loop_n_snoc {X} (n : nat) (body : X -> M X) (x : X) (w : world) :
  loop_n (S n) body x w =
    match loop_n n body x w with
    | Some (x', w') => body x' w'
    | None => None
    end.
Proof.
  revert x w. induction n as [|n IH]; intros x w.
  - cbn [loop_n]. monad_simpl. destruct (body x w) as [[x' w']|]; reflexivity.
  - change (loop_n (S (S n)) body x w)
      with (match body x w with
            | Some (x', w') => loop_n (S n) body x' w'
            | None => None
            end).
    change (loop_n (S n) body x w)
      with (match body x w with
            | Some (x', w') => loop_n n body x' w'
            | None => None
            end).
    destruct (body x w) as [[x' w']|]; [apply IH | reflexivity].
Qed.

Lemma flow_run_spec (n : nat) (w : world) :
  0 <= flow_index w < 4 ->
  exists w',
    flow_run n w = Some (tt, w')
    /\ flow_index w' = (flow_index w + Z.of_nat n) mod 4
    /\ binary_value w' = binary_value w
    /\ g_led_mode w' = g_led_mode w
    /\ ((1 <= n)%nat ->
        lit_leds w' = [Z.to_nat ((flow_index w + Z.of_nat n - 1) mod 4)]).
Proof.
  intros Hrange. induction n as [|n IH].
  - exists w. repeat split.
    + rewrite Z.add_0_r, Z.mod_small by lia. reflexivity.
    + intros Hn. lia.
  - destruct IH as (wn & Hrun & Hidx & Hval & Hmode & _).
    assert (0 <= flow_index wn < 4) as Hrange'.
    { rewrite Hidx. apply Z.mod_pos_bound. lia. }
    destruct (led_pins_lookup_range _ Hrange') as [p Hp].
    exists (flow_after p wn).
    unfold flow_run in *. rewrite loop_n_snoc, Hrun.
    split; [apply flow_step_run; assumption|].
    split.
    { rewrite flow_after_index by assumption. rewrite Hidx.
      rewrite Zplus_mod_idemp_l. f_equal. lia. }
    split; [exact Hval|]. split; [exact Hmode|].
    intros _. rewrite lit_leds_flow_after by assumption.
    rewrite Hidx. do 3 f_equal. lia.
Qed.

(* ===================================================================== *)
(** ** The binary-count step *)
(* ===================================================================== *)

Lemma bind_run {X Y} (m : M X) (k : X -> M Y) (w : world) :
  (m ≫= k) w = match m w with
               | Some (x, w') => k x w'
               | None => None
               end.
Proof. reflexivity. Qed.

Lemma binary_step_run (w : world) :
  led_mode_binary_step w = Some (tt, binary_after w).
Proof.
  unfold led_mode_binary_step.
  rewrite bind_run, binary_render_run. reflexivity.
Qed.

(** The mask test [value & (1 << i)] reads bit [i] of [value]. *)
Lemma mask_test_bit (v i : Z) :
  0 <= i -> negb (Z.land v (Z.shiftl 1 i) =? 0) = Z.testbit v i.
Proof.
  intros Hi. rewrite Z.shiftl_1_l.
  destruct (Z.testbit v i) eqn:Hbit.
  - apply negb_true_iff, Z.eqb_neq. intros Hz.
    assert (Z.testbit (Z.land v (2 ^ i)) i = true) as Hone.
    { rewrite Z.land_spec, Hbit, Z.pow2_bits_true by lia. reflexivity. }
    rewrite Hz, Z.bits_0 in Hone. discriminate.
  - apply negb_false_iff, Z.eqb_eq. apply Z.bits_inj'. intros j Hj.
    rewrite Z.land_spec, Z.bits_0, Z.pow2_bits_eqb by lia.
    destruct (Z.eqb_spec i j) as [->|Hne].
    + rewrite Hbit. reflexivity.
    + apply andb_false_r.
Qed.

Lemma bit_level_high (v i : Z) :
  0 <= i -> bool_decide (bit_level v i = PIN_HIGH) = Z.testbit v i.
Proof.
  intros Hi. unfold bit_level. rewrite mask_test_bit by assumption.
  destruct (Z.testbit v i); reflexivity.
Qed.

(** The four rendered bits, read back as a number, are [v mod 16]. *)
Lemma low_nibble (v : Z) :
  (if Z.testbit v 0 then 1 else 0) + ((if Z.testbit v 1 then 2 else 0)
   + ((if Z.testbit v 2 then 4 else 0) + ((if Z.testbit v 3 then 8 else 0) + 0)))
  = v mod 16.
Proof.
  assert (forall i, 0 <= i < 4 -> Z.testbit v i = Z.testbit (v mod 16) i) as Hlow.
  { intros i Hi. change 16 with (2 ^ 4). symmetry.
    apply Z.mod_pow2_bits_low. lia. }
  rewrite (Hlow 0), (Hlow 1), (Hlow 2), (Hlow 3) by lia.
  assert (0 <= v mod 16 < 16) as Hr by (apply Z.mod_pos_bound; lia).
  set (r := v mod 16) in *. clearbody r. clear Hlow.
  assert (r = 0 \/ r = 1 \/ r = 2 \/ r = 3 \/ r = 4 \/ r = 5 \/ r = 6 \/ r = 7
          \/ r = 8 \/ r = 9 \/ r = 10 \/ r = 11 \/ r = 12 \/ r = 13 \/ r = 14
          \/ r = 15) as Hcase by lia.
  repeat (destruct Hcase as [->|Hcase]; [reflexivity|]).
  subst r. reflexivity.
Qed.

Lemma visible_pattern_binary_after (w : world) :
  visible_pattern (binary_after w) = binary_value w mod 16.
Proof.
  set (v := binary_value w).
  rewrite (visible_pattern_ext _
             (write4 (bit_level v 0) (bit_level v 1) (bit_level v 2)
                     (bit_level v 3) w)) by reflexivity.
  unfold visible_pattern, led_high. cbn [fold_right].
  rewrite !led_is_write4, !bit_level_high by lia.
  exact (low_nibble v).
Qed.

Lemma binary_after_value (w : world) :
  binary_value (binary_after w) = (binary_value w + 1) mod 256.
Proof. reflexivity. Qed.

Lemma binary_run_spec (n : nat) (w : world) :
  exists w',
    binary_run (S n) w = Some (tt, w')
    /\ binary_value w' = (binary_value w + Z.of_nat (S n)) mod 256
    /\ flow_index w' = flow_index w
    /\ g_led_mode w' = g_led_mode w
    /\ visible_pattern w' = (binary_value w + Z.of_nat n) mod 16.
Proof.
  induction n as [|n IH].
  - exists (binary_after w). split; [|repeat split].
    + unfold binary_run. rewrite loop_n_snoc. cbn [loop_n].
      apply binary_step_run.
    + rewrite visible_pattern_binary_after, Z.add_0_r. reflexivity.
  - destruct IH as (wn & Hrun & Hval & Hidx & Hmode & _).
    exists (binary_after wn).
    unfold binary_run in *. rewrite loop_n_snoc, Hrun.
    split; [apply binary_step_run|].
    split.
    { rewrite binary_after_value, Hval, Zplus_mod_idemp_l. f_equal. lia. }
    split; [exact Hidx|]. split; [exact Hmode|].
    rewrite visible_pattern_binary_after, Hval.
    apply Z.mod_mod_divide. exists 16. reflexivity.
Qed.

(* ===================================================================== *)
(** ** The LED thread *)
(* ===================================================================== *)

Lemma off_render_run (w : world) :
  (leds_all_off;; rt_thread_mdelay 50) w = Some (tt, off_after w).
Proof. rewrite bind_run, leds_all_off_run. reflexivity. Qed.

Lemma led_body_flow (w : world) :
  g_led_mode w = LED_MODE_FLOW -> led_thread_body w = led_mode_flow_step w.
Proof.
  intros Hm. unfold led_thread_body. rewrite bind_run.
  cbv [get]. rewrite Hm. reflexivity.
Qed.

Lemma led_body_binary (w : world) :
  g_led_mode w = LED_MODE_BINARY -> led_thread_body w = led_mode_binary_step w.
Proof.
  intros Hm. unfold led_thread_body. rewrite bind_run.
  cbv [get]. rewrite Hm. reflexivity.
Qed.

Lemma led_body_default (w : world) :
  g_led_mode w <> LED_MODE_FLOW ->
  g_led_mode w <> LED_MODE_BINARY ->
  led_thread_body w = (leds_all_off;; rt_thread_mdelay 50) w.
Proof.
  intros Hf Hb. unfold led_thread_body. rewrite bind_run.
  cbv [get].
  apply Z.eqb_neq in Hf, Hb. rewrite Hf, Hb. reflexivity.
Qed.

Lemma all_leds_low_off_after (w : world) : all_leds_low (off_after w) = true.
Proof.
  rewrite (all_leds_low_ext _ (write4 PIN_LOW PIN_LOW PIN_LOW PIN_LOW w))
    by reflexivity.
  apply all_off_low.
Qed.

Lemma lit_leds_off_after (w : world) : lit_leds (off_after w) = [].
Proof.
  rewrite (lit_leds_ext _ (write4 PIN_LOW PIN_LOW PIN_LOW PIN_LOW w))
    by reflexivity.
  unfold lit_leds, led_high. cbn [List.filter].
  rewrite !led_is_write4. reflexivity.
Qed.

Lemma off_run_spec (n : nat) (w : world) :
  g_led_mode w = LED_MODE_NONE ->
  exists w',
    led_thread_entry (S n) w = Some (tt, w')
    /\ g_led_mode w' = LED_MODE_NONE
    /\ flow_index w' = flow_index w
    /\ binary_value w' = binary_value w
    /\ all_leds_low w' = true
    /\ lit_leds w' = [].
Proof.
  intros Hm. induction n as [|n IH].
  - exists (off_after w). unfold led_thread_entry.
    rewrite loop_n_snoc. cbn [loop_n].
    cbv [mret M_ret ret].
    rewrite led_body_default, off_render_run by (rewrite Hm; discriminate).
    repeat split; auto using all_leds_low_off_after, lit_leds_off_after.
  - destruct IH as (wn & Hrun & Hmode & Hidx & Hval & _ & _).
    exists (off_after wn). unfold led_thread_entry in *.
    rewrite loop_n_snoc, Hrun.
    rewrite led_body_default, off_render_run by (rewrite Hmode; discriminate).
    repeat split; auto using all_leds_low_off_after, lit_leds_off_after.
Qed.

(* ===================================================================== *)
(** ** The key-scanning thread *)
(* ===================================================================== *)

Lemma key_thread_body_blocks (l : key_last) :
  key_thread_body l =
    (k1 ← rt_pin_read KEY1_PIN;
     k2 ← rt_pin_read KEY2_PIN;
     k3 ← rt_pin_read KEY3_PIN;
     key_block (key1_last l) k1 KEY1_PIN LED_MODE_FLOW msg_flow;;
     key_block (key2_last l) k2 KEY2_PIN LED_MODE_BINARY msg_binary;;
     key_block (key3_last l) k3 KEY3_PIN LED_MODE_NONE msg_none;;
     rt_thread_mdelay 10;;
     mret (KeyLast k1 k2 k3)).
Proof. reflexivity. Qed.

Lemma key_block_run (last k : Z) (p : pin) (mode : Z) (msg : string) (w : world) :
  key_block last k p mode msg w =
    Some (tt, key_block_after ((last =? 1) && (k =? 0))
                (pin_input w p (pin_reads w p) =? 0) p mode msg w).
Proof.
  unfold key_block, key_block_after.
  destruct ((last =? 1) && (k =? 0)); [|reflexivity].
  rewrite bind_run. cbv [rt_thread_mdelay modify]. rewrite bind_run.
  cbv [rt_pin_read]. world_simpl.
  destruct (pin_input w p (pin_reads w p) =? 0); reflexivity.
Qed.

Lemma bump_same (p : pin) (r : pin -> nat) : bump p r p = S (r p).
Proof. unfold bump. destruct (decide (p = p)); congruence. Qed.

Lemma bump_other (p q : pin) (r : pin -> nat) : q <> p -> bump p r q = r q.
Proof. intros Hne. unfold bump. destruct (decide (q = p)); congruence. Qed.

Section KeyBlockAfter.
Variables (e c : bool) (p : pin) (mode : Z) (msg : string) (w : world).

Lemma key_block_after_input :
  pin_input (key_block_after e c p mode msg w) = pin_input w.
Proof. unfold key_block_after. destruct e, c; reflexivity. Qed.

Lemma key_block_after_reads (q : pin) :
  q <> p -> pin_reads (key_block_after e c p mode msg w) q = pin_reads w q.
Proof.
  intros Hne. unfold key_block_after.
  destruct e, c; world_simpl; rewrite ?bump_other by exact Hne; reflexivity.
Qed.

Lemma key_block_after_mode :
  g_led_mode (key_block_after e c p mode msg w) =
    if e && c then mode else g_led_mode w.
Proof. unfold key_block_after. destruct e, c; reflexivity. Qed.

Lemma key_block_after_lines :
  kprintf_lines (trace (key_block_after e c p mode msg w)) =
    kprintf_lines (trace w) ++ (if e && c then [msg] else []).
Proof.
  unfold key_block_after, kprintf_lines.
  destruct e, c; world_simpl; rewrite ?omap_app; cbn [omap list_omap app];
    rewrite ?app_nil_r; reflexivity.
Qed.

Lemma key_block_after_frame :
  flow_index (key_block_after e c p mode msg w) = flow_index w
  /\ binary_value (key_block_after e c p mode msg w) = binary_value w
  /\ pin_level (key_block_after e c p mode msg w) = pin_level w
  /\ ready (key_block_after e c p mode msg w) = ready w
  /\ create_ok (key_block_after e c p mode msg w) = create_ok w
  /\ creates (key_block_after e c p mode msg w) = creates w.
Proof. unfold key_block_after. destruct e, c; repeat split. Qed.
End KeyBlockAfter.

Lemma key_body_run (l : key_last) (w : world) :
  key_thread_body l w = Some (scan_last w, scan_after l w).
Proof.
  rewrite key_thread_body_blocks.
  rewrite bind_run. unfold rt_pin_read at 1.
  rewrite bind_run. unfold rt_pin_read at 1.
  rewrite bind_run. unfold rt_pin_read at 1.
  world_simpl.
  rewrite (bump_other KEY1_PIN KEY2_PIN), !(bump_other _ KEY3_PIN) by discriminate.
  rewrite bind_run, key_block_run.
  rewrite bind_run, key_block_run.
  rewrite bind_run, key_block_run.
  rewrite !key_block_after_input, !key_block_after_reads by discriminate.
  world_simpl.
  rewrite !(bump_other _ KEY1_PIN), !(bump_other _ KEY2_PIN) by discriminate.
  rewrite !bump_same, ?(bump_other _ KEY2_PIN), ?(bump_other _ KEY3_PIN) by discriminate.
  reflexivity.
Qed.

Lemma scan_after_mode (l : key_last) (w : world) :
  g_led_mode (scan_after l w) = last_write_wins (g_led_mode w) (scan_edges l w).
Proof.
  unfold scan_after. cbv zeta. world_simpl.
  rewrite !key_block_after_mode. world_simpl.
  unfold last_write_wins, scan_edges, confirmed_edge. cbn [List.filter].
  destruct (falling_edge KEY1 l w && (resample KEY1 w =? 0)),
           (falling_edge KEY2 l w && (resample KEY2 w =? 0)),
           (falling_edge KEY3 l w && (resample KEY3 w =? 0));
    reflexivity.
Qed.

Lemma scan_after_lines (l : key_last) (w : world) :
  kprintf_lines (trace (scan_after l w)) =
    kprintf_lines (trace w) ++ (msg_of_button <$> scan_edges l w).
Proof.
  unfold scan_after. cbv zeta.
  change (trace (log (EvDelay 10) ?x)) with (trace x ++ [EvDelay 10]).
  unfold kprintf_lines at 1. rewrite omap_app. cbn [omap list_omap].
  rewrite app_nil_r.
  change (omap _ (trace ?x)) with (kprintf_lines (trace x)).
  rewrite !key_block_after_lines. world_simpl.
  unfold scan_edges, confirmed_edge. cbn [List.filter].
  destruct (falling_edge KEY1 l w && (resample KEY1 w =? 0)),
           (falling_edge KEY2 l w && (resample KEY2 w =? 0)),
           (falling_edge KEY3 l w && (resample KEY3 w =? 0));
    cbn [fmap list_fmap msg_of_button]; rewrite <- ?app_assoc, ?app_nil_r;
    reflexivity.
Qed.

Lemma scan_after_frame (l : key_last) (w : world) :
  flow_index (scan_after l w) = flow_index w
  /\ binary_value (scan_after l w) = binary_value w
  /\ pin_level (scan_after l w) = pin_level w
  /\ ready (scan_after l w) = ready w.
Proof.
  unfold scan_after. cbv zeta. world_simpl.
  repeat match goal with
         | |- context [key_block_after ?e ?c ?p ?m ?s ?x] =>
             let H := fresh in
             pose proof (key_block_after_frame e c p m s x) as H;
             destruct H as (-> & -> & -> & -> & _ & _)
         end.
  repeat split.
Qed.

Lemma last_write_wins_app (m0 : Z) (es1 es2 : list button) :
  last_write_wins m0 (es1 ++ es2) =
    last_write_wins (last_write_wins m0 es1) es2.
Proof.
  unfold last_write_wins. rewrite last_app.
  destruct (last es2); reflexivity.
Qed.

(** [n] scans: the run never fails, the mode follows the confirmed edges,
    and so do the diagnostic lines. *)
Lemma key_run_spec (n : nat) (l : key_last) (w : world) :
  exists l' w',
    loop_n n key_thread_body l w = Some (l', w')
    /\ g_led_mode w' = last_write_wins (g_led_mode w) (run_edges n l w)
    /\ kprintf_lines (trace w') =
         kprintf_lines (trace w) ++ (msg_of_button <$> run_edges n l w)
    /\ flow_index w' = flow_index w
    /\ binary_value w' = binary_value w
    /\ pin_level w' = pin_level w
    /\ ready w' = ready w.
Proof.
  revert l w. induction n as [|n IH]; intros l w.
  - exists l, w. cbn [run_edges fmap list_fmap]. rewrite app_nil_r.
    repeat split.
  - destruct (IH (scan_last w) (scan_after l w))
      as (l' & w' & Hrun & Hmode & Hlines & Hidx & Hval & Hpins & Hready).
    destruct (scan_after_frame l w) as (Fidx & Fval & Fpins & Fready).
    exists l', w'. cbn [loop_n run_edges].
    rewrite bind_run, key_body_run, Hrun.
    split; [reflexivity|].
    split. { rewrite Hmode, scan_after_mode, last_write_wins_app. reflexivity. }
    split. { rewrite Hlines, scan_after_lines, fmap_app, app_assoc. reflexivity. }
    repeat split; congruence.
Qed.

(* ===================================================================== *)
(** ** [main] *)
(* ===================================================================== *)

Lemma main_run (w : world) :
  let ok_led := create_ok w (creates w) in
  let ok_key := create_ok w (S (creates w)) in
  exists w',
    main w = Some (RT_EOK, w')
    /\ trace w' = trace w ++ main_events ok_led ok_key
    /\ ready w' = ready w ++ main_started ok_led ok_key
    /\ creates w' = S (S (creates w))
    /\ g_led_mode w' = g_led_mode w
    /\ flow_index w' = flow_index w
    /\ binary_value w' = binary_value w
    /\ pin_level w' = pin_level (write4 PIN_LOW PIN_LOW PIN_LOW PIN_LOW w)
    /\ pin_reads w' = pin_reads w
    /\ pin_input w' = pin_input w
    /\ create_ok w' = create_ok w.
Proof.
  cbv zeta. unfold main.
  do 4 (rewrite bind_run; unfold rt_pin_mode at 1; unfold modify at 1).
  rewrite bind_run, leds_all_off_run.
  do 3 (rewrite bind_run; unfold rt_pin_mode at 1; unfold modify at 1).
  rewrite bind_run. unfold rt_thread_create at 1.
  destruct w as [m i v lv inp rd mk n thr tr]. world_cbv.
  destruct (mk n) eqn:E1.
  - rewrite bind_run. unfold rt_thread_startup at 1, modify at 1.
    rewrite bind_run. unfold rt_thread_create at 1. world_cbv.
    destruct (mk (S n)) eqn:E2;
      (eexists; split; [reflexivity|]); world_cbv;
      unfold main_events, main_started, led_thread, key_thread;
      rewrite <- ?app_assoc; cbn [app]; rewrite ?app_nil_r; repeat split.
  - rewrite bind_run. cbv [mret M_ret ret].
    rewrite bind_run. unfold rt_thread_create at 1. world_cbv.
    destruct (mk (S n)) eqn:E2;
      (eexists; split; [reflexivity|]); world_cbv;
      unfold main_events, main_started, led_thread, key_thread;
      rewrite <- ?app_assoc; cbn [app]; rewrite ?app_nil_r; repeat split.
Qed.

(* ===================================================================== *)
(** ** One LED-thread iteration, whatever the mode *)
(* ===================================================================== *)

Lemma led_body_spec (w : world) :
  0 <= flow_index w < 4 ->
  exists w',
    led_thread_body w = Some (tt, w')
    /\ g_led_mode w' = g_led_mode w
    /\ flow_index w' =
         (if g_led_mode w =? LED_MODE_FLOW
          then (flow_index w + 1) mod 4 else flow_index w)
    /\ binary_value w' =
         (if g_led_mode w =? LED_MODE_BINARY
          then (binary_value w + 1) mod 256 else binary_value w)
    /\ ready w' = ready w.
Proof.
  intros Hrange.
  destruct (Z.eqb_spec (g_led_mode w) LED_MODE_FLOW) as [Hf|Hf].
  - destruct (led_pins_lookup_range _ Hrange) as [p Hp].
    exists (flow_after p w).
    rewrite led_body_flow, (flow_step_run w p) by assumption.
    split; [reflexivity|]. split; [reflexivity|].
    split; [apply flow_after_index; assumption|].
    rewrite Hf. split; reflexivity.
  - destruct (Z.eqb_spec (g_led_mode w) LED_MODE_BINARY) as [Hb|Hb].
    + exists (binary_after w).
      rewrite led_body_binary, binary_step_run by assumption.
      repeat split.
    + exists (off_after w).
      rewrite led_body_default, off_render_run by assumption.
      repeat split.
Qed.

Lemma count_mode_cons (m x : Z) (ms : list Z) :
  count_mode m (x :: ms) = (if x =? m then 1 else 0) + count_mode m ms.
Proof.
  unfold count_mode. cbn [List.filter]. rewrite (Z.eqb_sym m x).
  destruct (x =? m); cbn [length]; lia.
Qed.

Lemma led_run_modes_spec (ms : list Z) (w : world) :
  0 <= flow_index w < 4 ->
  0 <= binary_value w < 256 ->
  exists w',
    led_run_modes ms w = Some (tt, w')
    /\ flow_index w' = (flow_index w + count_mode LED_MODE_FLOW ms) mod 4
    /\ binary_value w' =
         (binary_value w + count_mode LED_MODE_BINARY ms) mod 256.
Proof.
  revert w. induction ms as [|m ms IH]; intros w Hidx Hval.
  - exists w. split; [reflexivity|].
    unfold count_mode. cbn [List.filter length Z.of_nat].
    rewrite !Z.add_0_r, !Z.mod_small by lia. split; reflexivity.
  - destruct (led_body_spec (set_g_led_mode m w) Hidx)
      as (w1 & Hrun1 & _ & Hidx1 & Hval1 & _).
    world_simpl.
    assert (0 <= flow_index w1 < 4) as Hidx1'.
    { rewrite Hidx1. destruct (m =? LED_MODE_FLOW); [|assumption].
      apply Z.mod_pos_bound; lia. }
    assert (0 <= binary_value w1 < 256) as Hval1'.
    { rewrite Hval1. destruct (m =? LED_MODE_BINARY); [|assumption].
      apply Z.mod_pos_bound; lia. }
    destruct (IH w1 Hidx1' Hval1') as (w' & Hrun & Hi & Hv).
    exists w'. cbn [led_run_modes].
    rewrite bind_run. unfold modify at 1.
    rewrite bind_run, Hrun1, Hrun.
    split; [reflexivity|].
    rewrite Hi, Hv, Hidx1, Hval1, !count_mode_cons.
    split.
    + destruct (m =? LED_MODE_FLOW).
      * rewrite Zplus_mod_idemp_l. f_equal. lia.
      * f_equal.
    + destruct (m =? LED_MODE_BINARY).
      * rewrite Zplus_mod_idemp_l. f_equal. lia.
      * f_equal.
Qed.

(* ===================================================================== *)
(** ** The system invariant *)
(* ===================================================================== *)

Lemma last_write_wins_valid (m0 : Z) (es : list button) :
  mode_valid m0 -> mode_valid (last_write_wins m0 es).
Proof.
  intros Hm. unfold last_write_wins, mode_valid.
  destruct (last es) as [[]|]; cbn [mode_of_button]; auto.
Qed.

(** *** Running a thread without interruption *)

Lemma flatten_tbind {X Y} (t : Thr X) (f : X -> Thr Y) (w : world) :
  flatten (tbind t f) w =
    match flatten t w with
    | Some (x, w') => flatten (f x) w'
    | None => None
    end.
Proof.
  revert w. induction t as [x|A m k IH]; intros w; [reflexivity|].
  cbn [tbind flatten]. destruct (m w) as [[a w']|]; [apply IH | reflexivity].
Qed.

Lemma flatten_bind {X Y} (t : Thr X) (f : X -> Thr Y) (w : world) :
  flatten (t ≫= f) w = (flatten t ≫= (fun x => flatten (f x))) w.
Proof. apply flatten_tbind. Qed.

Lemma flatten_atom {X} (m : M X) (w : world) : flatten (atom m) w = m w.
Proof. cbn [atom flatten]. destruct (m w) as [[x w']|]; reflexivity. Qed.

Lemma bind_ext_run {X Y} (m1 m2 : M X) (k1 k2 : X -> M Y) (w : world) :
  m1 w = m2 w ->
  (forall x w', k1 x w' = k2 x w') ->
  (m1 ≫= k1) w = (m2 ≫= k2) w.
Proof.
  intros Hm Hk. rewrite !bind_run, Hm.
  destruct (m2 w) as [[x w']|]; [apply Hk | reflexivity].
Qed.

Ltac flatten_step :=
  first [ rewrite flatten_atom; reflexivity
        | rewrite flatten_bind; apply bind_ext_run;
          [ try (rewrite flatten_atom; reflexivity) | intros ? ? ]
        | reflexivity ].

(** Run without interruption, the step-by-step functions are the
    functions above. *)
Lemma flatten_leds_all_off (w : world) :
  flatten Fine.leds_all_off w = leds_all_off w.
Proof.
  unfold Fine.leds_all_off, leds_all_off.
  change (tfor_lt 0 4 ?body) with
    (body 0 ;; body 1 ;; body 2 ;; body 3 ;; mret tt).
  change (for_lt 0 4 ?body) with
    (body 0 ;; body 1 ;; body 2 ;; body 3 ;; mret tt).
  repeat flatten_step.
Qed.

Lemma flatten_led_mode_flow_step (w : world) :
  flatten Fine.led_mode_flow_step w = led_mode_flow_step w.
Proof.
  unfold Fine.led_mode_flow_step, led_mode_flow_step.
  rewrite flatten_bind. apply bind_ext_run; [apply flatten_leds_all_off|].
  intros _ w1. repeat flatten_step.
Qed.

Lemma flatten_led_mode_binary_step (w : world) :
  flatten Fine.led_mode_binary_step w = led_mode_binary_step w.
Proof.
  unfold Fine.led_mode_binary_step, led_mode_binary_step.
  change (tfor_lt 0 4 ?body) with
    (body 0 ;; body 1 ;; body 2 ;; body 3 ;; mret tt).
  change (for_lt 0 4 ?body) with
    (body 0 ;; body 1 ;; body 2 ;; body 3 ;; mret tt).
  repeat first [ flatten_step
               | match goal with
                 | |- context [if ?c then _ else _] => destruct c
                 end ].
Qed.

Lemma flatten_led_thread_body (w : world) :
  flatten Fine.led_thread_body w = led_thread_body w.
Proof.
  unfold Fine.led_thread_body, led_thread_body.
  rewrite flatten_bind. apply bind_ext_run; [apply flatten_atom|].
  intros mode w1.
  destruct (mode =? LED_MODE_FLOW); [apply flatten_led_mode_flow_step|].
  destruct (mode =? LED_MODE_BINARY); [apply flatten_led_mode_binary_step|].
  rewrite flatten_bind. apply bind_ext_run; [apply flatten_leds_all_off|].
  intros _ w2. apply flatten_atom.
Qed.

Lemma flatten_key_thread_body (l : key_last) (w : world) :
  flatten (Fine.key_thread_body l) w = key_thread_body l w.
Proof.
  unfold Fine.key_thread_body, key_thread_body.
  repeat first [ flatten_step
               | match goal with
                 | |- context [if ?c then _ else _] => destruct c
                 end ].
Qed.

Lemma flatten_main (w : world) : flatten Fine.main w = main w.
Proof.
  unfold Fine.main, main.
  do 4 (rewrite flatten_bind; apply bind_ext_run;
        [apply flatten_atom | intros _ ?]).
  rewrite flatten_bind. apply bind_ext_run; [apply flatten_leds_all_off|].
  intros _ ?.
  repeat first [ flatten_step
               | match goal with
                 | |- context [match ?c with Some _ => _ | None => _ end] =>
                     destruct c
                 end ].
Qed.

(** *** Rules for [tsafe] *)

Section Rules.
Variables (I E : world -> Prop) (R G : world -> world -> Prop).

Lemma tsafe_pre {X} (Qend : X -> world -> Prop) (t : Thr X)
    (Q Q' : world -> Prop) :
  (forall w, I w -> Q w -> Q' w) ->
  tsafe I E R G Qend t Q' -> tsafe I E R G Qend t Q.
Proof.
  intros Himp. destruct t as [x|A m k]; cbn [tsafe]; intros H w HI HQ.
  - apply H; auto.
  - intros HE. apply H; auto.
Qed.

Lemma tsafe_pure {X} (Qend : X -> world -> Prop) (t : Thr X) (P : Prop)
    (Q : world -> Prop) :
  (P -> tsafe I E R G Qend t Q) ->
  tsafe I E R G Qend t (fun w => P /\ Q w).
Proof.
  intros H. destruct t as [x|A m k]; cbn [tsafe] in *.
  - intros w HI [HP HQ]. apply H; assumption.
  - intros w HI [HP HQ] HE. apply H; assumption.
Qed.

Lemma tsafe_bind {X Y} (Qmid : X -> world -> Prop) (Qend : Y -> world -> Prop)
    (t : Thr X) (f : X -> Thr Y) (Q : world -> Prop) :
  tsafe I E R G Qmid t Q ->
  (forall x, tsafe I E R G Qend (f x) (Qmid x)) ->
  tsafe I E R G Qend (t ≫= f) Q.
Proof.
  intros Ht Hf. revert Q Ht.
  induction t as [x|A m k IH]; intros Q Ht.
  - apply (tsafe_pre Qend (f x) Q (Qmid x)); [exact Ht | apply Hf].
  - change (TStep m k ≫= f) with (TStep m (fun a => k a ≫= f)).
    cbn [tsafe] in *. intros w HI HQ HE.
    destruct (Ht w HI HQ HE) as (a & w' & Hm & HI' & HG & Q' & Hst & HQ' & Hk).
    exists a, w'. repeat (split; [assumption|]).
    exists Q'. repeat (split; [assumption|]). apply IH. exact Hk.
Qed.

Lemma tsafe_atom {X} (Qend : X -> world -> Prop) (m : M X)
    (Q : world -> Prop) :
  (forall x, stable I R (Qend x)) ->
  (forall w, I w -> Q w -> E w ->
     exists x w', m w = Some (x, w') /\ I w' /\ G w w' /\ Qend x w') ->
  tsafe I E R G Qend (atom m) Q.
Proof.
  intros Hst H. cbn [atom tsafe]. intros w HI HQ HE.
  destruct (H w HI HQ HE) as (x & w' & Hm & HI' & HG & HQ').
  exists x, w'. repeat (split; [assumption|]).
  exists (Qend x). split; [apply Hst|]. split; [assumption|]. auto.
Qed.

Lemma tsafe_ret {X} (Qend : X -> world -> Prop) (x : X) (Q : world -> Prop) :
  (forall w, I w -> Q w -> Qend x w) ->
  tsafe I E R G Qend (mret x) Q.
Proof. intros H. exact H. Qed.

Lemma thread_ok_rely {X} (Qend : X -> world -> Prop) (t : Thr X)
    (w w' : world) :
  I w -> R w w' ->
  thread_ok I E R G Qend t w -> thread_ok I E R G Qend t w'.
Proof.
  intros HI HR (Q & Hst & HQ & Ht).
  exists Q. split; [exact Hst|]. split; [|exact Ht].
  apply (Hst w w'); assumption.
Qed.

(** One step of a thread that is safe. *)
Lemma thr_step_ok {X} (Qend : X -> world -> Prop) (next : X -> Thr X)
    (t : Thr X) (w : world) :
  (forall x, stable I R (Qend x)) ->
  (forall x, tsafe I E R G Qend (next x) (Qend x)) ->
  I w -> E w ->
  thread_ok I E R G Qend t w ->
  exists t' w',
    thr_step next t w = Some (t', w')
    /\ I w'
    /\ (w' = w \/ G w w')
    /\ thread_ok I E R G Qend t' w'.
Proof.
  intros Hst Hnext HI HE (Q & HstQ & HQ & Ht).
  destruct t as [x|A m k]; cbn [tsafe thr_step] in *.
  - exists (next x), w. split; [reflexivity|]. split; [exact HI|].
    split; [left; reflexivity|].
    exists (Qend x). split; [apply Hst|]. split; [apply Ht; assumption|].
    apply Hnext.
  - destruct (Ht w HI HQ HE) as (a & w' & Hm & HI' & HG & Q' & Hst' & HQ' & Hk).
    exists (k a), w'. rewrite Hm. split; [reflexivity|].
    split; [exact HI'|]. split; [right; exact HG|].
    exists Q'. auto.
Qed.
End Rules.

(** *** Logs, latches and started threads *)

Lemma pin_writes_app (t1 t2 : list event) :
  pin_writes (t1 ++ t2) = pin_writes t1 ++ pin_writes t2.
Proof. apply omap_app. Qed.

Lemma kprintf_lines_app (t1 t2 : list event) :
  kprintf_lines (t1 ++ t2) = kprintf_lines t1 ++ kprintf_lines t2.
Proof. apply omap_app. Qed.

Lemma pin_writes_snoc (t : list event) (e : event) :
  pin_writes (t ++ [e]) =
    pin_writes t ++ match e with EvPinWrite p v => [(p, v)] | _ => [] end.
Proof. rewrite pin_writes_app. destruct e; reflexivity. Qed.

Lemma kprintf_lines_snoc (t : list event) (e : event) :
  kprintf_lines (t ++ [e]) =
    kprintf_lines t ++ match e with EvKprintf s => [s] | _ => [] end.
Proof. rewrite kprintf_lines_app. destruct e; reflexivity. Qed.

Lemma replay_app (ws1 ws2 : list (pin * Z)) (m : gmap pin Z) :
  replay (ws1 ++ ws2) m = replay ws2 (replay ws1 m).
Proof. apply fold_left_app. Qed.

Lemma levels_after_replay (t : list event) (m : gmap pin Z) :
  levels_after t m = replay (pin_writes t) m.
Proof.
  revert m. induction t as [|e t IH]; intros m; [reflexivity|].
  destruct e; cbn [levels_after fold_left]; apply IH.
Qed.

Lemma started_ext (f : entry_fn) (w1 w2 : world) :
  ready w1 = ready w2 -> started f w1 = started f w2.
Proof. intros Heq. unfold started. rewrite Heq. reflexivity. Qed.

Lemma started_snoc (f : entry_fn) (w w' : world) (t : thread) :
  ready w' = ready w ++ [t] ->
  started f w' = true <-> started f w = true \/ th_entry t = f.
Proof.
  intros Hr. unfold started. rewrite Hr, fmap_app.
  rewrite !bool_decide_eq_true, elem_of_app.
  cbn [fmap list_fmap]. rewrite list_elem_of_singleton.
  split; intros [H|H]; auto.
Qed.

Lemma started_nil (f : entry_fn) (w : world) :
  ready w = [] -> started f w = false.
Proof. intros Hr. unfold started. rewrite Hr. reflexivity. Qed.

Lemma started_false_iff (f : entry_fn) (w : world) :
  started f w = false <-> started f w <> true.
Proof. destruct (started f w); split; congruence. Qed.

Lemma led_pin_in_lows4 (n : nat) (p : pin) (v : Z) :
  lows4 !! n = Some (p, v) -> led_write (p, v).
Proof.
  destruct n as [|[|[|[|n]]]]; cbn; intros H; try discriminate;
    injection H as <- <-; (split; [cbn; unfold led_pins; set_solver | auto]).
Qed.

(** *** Steps that keep the system invariant *)

Section Invariant.
Variable mk : nat -> bool.

(** Steps that leave everything the invariant looks at alone. *)
Lemma sys_inv_frame (w w' : world) :
  sys_inv mk w ->
  create_ok w' = create_ok w ->
  g_led_mode w' = g_led_mode w ->
  flow_index w' = flow_index w ->
  binary_value w' = binary_value w ->
  pin_writes (trace w') = pin_writes (trace w) ->
  pin_reads w' = pin_reads w ->
  ready w' = ready w ->
  kprintf_lines (trace w') = kprintf_lines (trace w) ->
  pin_level w' = pin_level w ->
  sys_inv mk w'.
Proof.
  unfold sys_inv, started.
  intros H -> -> -> -> -> -> -> -> ->. exact H.
Qed.

(** The chase index or the binary counter is replaced, in range. *)
Lemma sys_inv_counters (w w' : world) :
  sys_inv mk w ->
  0 <= flow_index w' < 4 ->
  0 <= binary_value w' < 256 ->
  create_ok w' = create_ok w ->
  g_led_mode w' = g_led_mode w ->
  trace w' = trace w ->
  pin_reads w' = pin_reads w ->
  ready w' = ready w ->
  pin_level w' = pin_level w ->
  sys_inv mk w'.
Proof.
  unfold sys_inv, started.
  intros (H1 & H2 & _ & _ & H) Hi Hv -> -> -> -> -> ->.
  split; [exact H1|]. split; [exact H2|]. split; [exact Hi|].
  split; [exact Hv | exact H].
Qed.

(** A step of the key thread: a read of a key pin, a store of a valid
    mode, a line or a delay. *)
Lemma sys_inv_key_step (w w' : world) :
  sys_inv mk w ->
  started key_thread_entry_fn w = true ->
  create_ok w' = create_ok w ->
  mode_valid (g_led_mode w') ->
  flow_index w' = flow_index w ->
  binary_value w' = binary_value w ->
  pin_writes (trace w') = pin_writes (trace w) ->
  (forall q, (forall b, q <> key_pin b) -> pin_reads w' q = pin_reads w q) ->
  ready w' = ready w ->
  pin_level w' = pin_level w ->
  sys_inv mk w'.
Proof.
  unfold sys_inv.
  intros (H1 & H2 & H3 & H4 & H5 & H6 & H7 & H8 & H9 & H10 & H11 & H12)
         Hst Hc Hm Hi Hv Hw Hr Hrd Hl.
  rewrite (started_ext _ w' w Hrd), (started_ext _ w' w Hrd).
  rewrite Hc, Hi, Hv, Hw, Hrd, Hl.
  split; [exact H1|]. split; [exact Hm|]. split; [exact H3|].
  split; [exact H4|]. split; [exact H5|].
  split; [intros q Hq; rewrite Hr by exact Hq; apply H6; exact Hq|].
  split; [exact H7|]. split; [exact H8|].
  split; [intros Hns; congruence|].
  split; [exact H10|]. split; [exact H11 | exact H12].
Qed.

(** A pin write. *)
Lemma sys_inv_write (w : world) (p : pin) (v : Z) :
  sys_inv mk w ->
  led_write (p, v) ->
  (started key_thread_entry_fn w = false -> v = PIN_LOW) ->
  (started led_thread_entry_fn w = false ->
   exists n : nat, pin_writes (trace w) ++ [(p, v)] = take n lows4) ->
  sys_inv mk (log (EvPinWrite p v)
                (set_pin_level (<[p := v]> (pin_level w)) w)).
Proof.
  unfold sys_inv.
  intros (H1 & H2 & H3 & H4 & H5 & H6 & H7 & H8 & H9 & H10 & H11 & H12)
         Hlw Hlow Hpre.
  set (w' := log (EvPinWrite p v) (set_pin_level (<[p := v]> (pin_level w)) w)).
  assert (pin_writes (trace w') = pin_writes (trace w) ++ [(p, v)]) as Hw.
  { unfold w'. world_simpl. apply pin_writes_snoc. }
  assert (kprintf_lines (trace w') = kprintf_lines (trace w)) as Hk.
  { unfold w'. world_simpl. rewrite kprintf_lines_snoc. apply app_nil_r. }
  assert (forall f, started f w' = started f w) as Hs by reflexivity.
  rewrite !Hs, Hw, Hk.
  change (create_ok w') with (create_ok w).
  change (g_led_mode w') with (g_led_mode w).
  change (flow_index w') with (flow_index w).
  change (binary_value w') with (binary_value w).
  change (pin_reads w') with (pin_reads w).
  change (ready w') with (ready w).
  change (pin_level w') with (<[p := v]> (pin_level w)).
  split; [exact H1|]. split; [exact H2|]. split; [exact H3|].
  split; [exact H4|].
  split; [apply Forall_app; split; [exact H5 | apply Forall_singleton; exact Hlw]|].
  split; [exact H6|]. split; [exact H7|]. split; [exact H8|].
  split.
  { intros Hns. destruct (H9 Hns) as (Hm & Hkp & Hrd & Hall).
    repeat (split; [assumption|]).
    apply Forall_app. split; [exact Hall|].
    apply Forall_singleton. cbn [snd]. apply Hlow. exact Hns. }
  split; [exact Hpre|].
  split.
  { rewrite replay_app, <- H11. reflexivity. }
  intros Hne. destruct (H12 Hne) as [rest Hrest].
  exists (rest ++ [(p, v)]). rewrite Hrest, app_assoc. reflexivity.
Qed.

(** [rt_thread_startup]. *)
Lemma sys_inv_startup (w : world) (t : thread) :
  sys_inv mk w ->
  (th_entry t = led_thread_entry_fn -> mk 0%nat = true) ->
  (th_entry t = key_thread_entry_fn -> mk 1%nat = true) ->
  (exists rest, pin_writes (trace w) = lows4 ++ rest) ->
  sys_inv mk (log (EvThreadStartup t) (set_ready (ready w ++ [t]) w)).
Proof.
  unfold sys_inv.
  intros (H1 & H2 & H3 & H4 & H5 & H6 & H7 & H8 & H9 & H10 & H11 & H12)
         Hled Hkey Hpre.
  set (w' := log (EvThreadStartup t) (set_ready (ready w ++ [t]) w)).
  assert (pin_writes (trace w') = pin_writes (trace w)) as Hw.
  { unfold w'. world_simpl. rewrite pin_writes_snoc. apply app_nil_r. }
  assert (kprintf_lines (trace w') = kprintf_lines (trace w)) as Hk.
  { unfold w'. world_simpl. rewrite kprintf_lines_snoc. apply app_nil_r. }
  assert (forall f, started f w' = true <->
                    started f w = true \/ th_entry t = f) as Hs.
  { intros f. apply started_snoc. reflexivity. }
  assert (forall f, started f w' = false -> started f w = false) as Hsf.
  { intros f Hf. apply started_false_iff. intros Ht.
    apply started_false_iff in Hf. apply Hf, Hs. left. exact Ht. }
  rewrite Hw, Hk.
  change (create_ok w') with (create_ok w).
  change (g_led_mode w') with (g_led_mode w).
  change (flow_index w') with (flow_index w).
  change (binary_value w') with (binary_value w).
  change (pin_reads w') with (pin_reads w).
  change (pin_level w') with (pin_level w).
  split; [exact H1|]. split; [exact H2|]. split; [exact H3|].
  split; [exact H4|]. split; [exact H5|]. split; [exact H6|].
  split; [intros Hst; apply Hs in Hst as [Hst|Hst]; auto|].
  split; [intros Hst; apply Hs in Hst as [Hst|Hst]; auto|].
  split; [intros Hns; apply H9, Hsf, Hns|].
  split; [intros Hns; apply H10, Hsf, Hns|].
  split; [exact H11|]. intros _. exact Hpre.
Qed.
End Invariant.

(** *** The key thread is safe *)

Section Threads.
Variable mk : nat -> bool.

Lemma tsafe_post {X} (I E : world -> Prop) (R G : world -> world -> Prop)
    (Qend Qend' : X -> world -> Prop) (t : Thr X) (Q : world -> Prop) :
  (forall x w, I w -> Qend x w -> Qend' x w) ->
  tsafe I E R G Qend t Q -> tsafe I E R G Qend' t Q.
Proof.
  intros Himp. revert Q. induction t as [x|A m k IH]; intros Q Ht.
  - cbn [tsafe] in *. intros w HI HQ. apply Himp; auto.
  - cbn [tsafe] in *. intros w HI HQ HE.
    destruct (Ht w HI HQ HE) as (a & w' & Hm & HI' & HG & Q' & Hst & HQ' & Hk).
    exists a, w'. repeat (split; [assumption|]).
    exists Q'. repeat (split; [assumption|]). apply IH. exact Hk.
Qed.

Lemma stable_true (I : world -> Prop) (R : world -> world -> Prop) :
  stable I R (fun _ => True).
Proof. intros w w' _ _ _. exact Logic.I. Qed.

Lemma key_safe_atom {X} (m : M X) :
  (forall w, sys_inv mk w -> key_enabled w ->
     exists x w', m w = Some (x, w') /\ sys_inv mk w' /\ key_guar w w') ->
  key_safe mk (atom m).
Proof.
  intros H. apply tsafe_atom; [intros x; apply stable_true|].
  intros w HI _ HE. destruct (H w HI HE) as (x & w' & Hm & HI' & HG).
  exists x, w'. auto.
Qed.

Lemma key_safe_bind {X Y} (t : Thr X) (f : X -> Thr Y) :
  key_safe mk t -> (forall x, key_safe mk (f x)) -> key_safe mk (t ≫= f).
Proof.
  intros Ht Hf. apply (tsafe_bind _ _ _ _ (fun _ _ => True)); assumption.
Qed.

Lemma key_safe_ret {X} (x : X) : key_safe mk (mret x).
Proof. apply tsafe_ret. auto. Qed.

Lemma key_safe_read (b : button) : key_safe mk (atom (rt_pin_read (key_pin b))).
Proof.
  apply key_safe_atom. intros w HI HE.
  eexists _, _. split; [reflexivity|]. split.
  - apply (sys_inv_key_step mk w); try reflexivity; try assumption.
    + apply HI.
    + intros q Hq. world_simpl. apply bump_other. apply Hq.
  - split; [exact HE|]. repeat split.
Qed.

Lemma key_safe_delay (ms : Z) : key_safe mk (atom (rt_thread_mdelay ms)).
Proof.
  apply key_safe_atom. intros w HI HE.
  eexists _, _. split; [reflexivity|].
  assert (pin_writes (trace (log (EvDelay ms) w)) = pin_writes (trace w)) as Hw.
  { world_simpl. rewrite pin_writes_snoc. apply app_nil_r. }
  split.
  - apply (sys_inv_frame mk w); try reflexivity; try assumption.
    world_simpl. rewrite kprintf_lines_snoc. apply app_nil_r.
  - split; [exact HE|]. repeat split. exact Hw.
Qed.

Lemma key_safe_store (m : Z) :
  mode_valid m -> key_safe mk (atom (modify (set_g_led_mode m))).
Proof.
  intros Hm. apply key_safe_atom. intros w HI HE.
  eexists _, _. split; [reflexivity|]. split.
  - apply (sys_inv_key_step mk w); try reflexivity; assumption.
  - split; [exact HE|]. repeat split.
Qed.

Lemma key_safe_kprintf (s : string) : key_safe mk (atom (rt_kprintf s)).
Proof.
  apply key_safe_atom. intros w HI HE.
  eexists _, _. split; [reflexivity|].
  assert (pin_writes (trace (log (EvKprintf s) w)) = pin_writes (trace w)) as Hw.
  { world_simpl. rewrite pin_writes_snoc. apply app_nil_r. }
  split.
  - apply (sys_inv_key_step mk w); try reflexivity; try assumption.
    apply HI.
  - split; [exact HE|]. repeat split. exact Hw.
Qed.

Lemma key_thread_safe (l : key_last) : key_safe mk (Fine.key_thread_body l).
Proof.
  unfold Fine.key_thread_body.
  apply key_safe_bind; [apply (key_safe_read KEY1)|intros k1].
  apply key_safe_bind; [apply (key_safe_read KEY2)|intros k2].
  apply key_safe_bind; [apply (key_safe_read KEY3)|intros k3].
  apply key_safe_bind; [|intros _].
  { destruct ((key1_last l =? 1) && (k1 =? 0)); [|apply key_safe_ret].
    apply key_safe_bind; [apply key_safe_delay|intros _].
    apply key_safe_bind; [apply (key_safe_read KEY1)|intros r].
    destruct (r =? 0); [|apply key_safe_ret].
    apply key_safe_bind; [|intros _; apply key_safe_kprintf].
    apply key_safe_store. right. left. reflexivity. }
  apply key_safe_bind; [|intros _].
  { destruct ((key2_last l =? 1) && (k2 =? 0)); [|apply key_safe_ret].
    apply key_safe_bind; [apply key_safe_delay|intros _].
    apply key_safe_bind; [apply (key_safe_read KEY2)|intros r].
    destruct (r =? 0); [|apply key_safe_ret].
    apply key_safe_bind; [|intros _; apply key_safe_kprintf].
    apply key_safe_store. right. right. reflexivity. }
  apply key_safe_bind; [|intros _].
  { destruct ((key3_last l =? 1) && (k3 =? 0)); [|apply key_safe_ret].
    apply key_safe_bind; [apply key_safe_delay|intros _].
    apply key_safe_bind; [apply (key_safe_read KEY3)|intros r].
    destruct (r =? 0); [|apply key_safe_ret].
    apply key_safe_bind; [|intros _; apply key_safe_kprintf].
    apply key_safe_store. left. reflexivity. }
  apply key_safe_bind; [apply key_safe_delay|intros _].
  apply key_safe_ret.
Qed.

(** *** The LED thread is safe *)

Lemma sys_inv_mode (w : world) : sys_inv mk w -> mode_valid (g_led_mode w).
Proof. intros H. apply H. Qed.

Lemma sys_inv_index (w : world) : sys_inv mk w -> 0 <= flow_index w < 4.
Proof. intros H. apply H. Qed.

Lemma sys_inv_value (w : world) : sys_inv mk w -> 0 <= binary_value w < 256.
Proof. intros H. apply H. Qed.

Lemma sys_inv_key_off (w : world) :
  sys_inv mk w -> started key_thread_entry_fn w = false ->
  g_led_mode w = LED_MODE_NONE.
Proof.
  intros (_ & _ & _ & _ & _ & _ & _ & _ & H9 & _) Hk. apply H9. exact Hk.
Qed.

Lemma led_at_ext (a : Z) (w w' : world) :
  ready w' = ready w -> led_at a w -> led_at a w'.
Proof.
  intros Hr [H|H]; [left; exact H|right].
  rewrite (started_ext _ w' w Hr). exact H.
Qed.

Lemma led_at_stable (a : Z) : stable (sys_inv mk) led_rely (led_at a).
Proof.
  intros w w' _ Ha HR. destruct HR as [Hm|(_ & Hr & _)].
  - destruct Ha as [H|H]; [left; exact H|right]. apply Hm. exact H.
  - apply (led_at_ext a w w' Hr Ha).
Qed.

Lemma led_post_stable (a : Z) {X} (P : X -> Prop) (x : X) :
  stable (sys_inv mk) led_rely (led_post a P x).
Proof.
  intros w w' HI [HP Ha] HR. split; [exact HP|].
  apply (led_at_stable a w w'); assumption.
Qed.

Lemma led_safe_atom (a : Z) {X} (P : X -> Prop) (m : M X) :
  (forall w, sys_inv mk w -> led_at a w -> led_enabled w ->
     exists x w', m w = Some (x, w') /\ sys_inv mk w' /\ led_guar w w' /\ P x) ->
  led_safe mk a (led_post a P) (atom m).
Proof.
  intros H. apply tsafe_atom; [intros x; apply led_post_stable|].
  intros w HI Ha HE. destruct (H w HI Ha HE) as (x & w' & Hm & HI' & HG & HP).
  exists x, w'. split; [exact Hm|]. split; [exact HI'|]. split; [exact HG|].
  split; [exact HP|].
  destruct HG as (_ & Hr & _). apply (led_at_ext a w w' Hr Ha).
Qed.

Lemma led_safe_bind (a : Z) {X Y} (P : X -> Prop) (Qend : Y -> world -> Prop)
    (t : Thr X) (f : X -> Thr Y) :
  led_safe mk a (led_post a P) t ->
  (forall x, P x -> led_safe mk a Qend (f x)) ->
  led_safe mk a Qend (t ≫= f).
Proof.
  intros Ht Hf. apply (tsafe_bind _ _ _ _ (led_post a P)); [exact Ht|].
  intros x. unfold led_post. apply tsafe_pure. intros HP. apply Hf. exact HP.
Qed.

Lemma led_safe_ret (a : Z) (x : unit) :
  led_safe mk a (led_post a (fun _ => True)) (mret x).
Proof. apply tsafe_ret. intros w _ Ha. split; [exact Logic.I|exact Ha]. Qed.

Lemma led_guar_same (w w' : world) :
  led_enabled w -> ready w' = ready w -> creates w' = creates w ->
  pin_writes (trace w') = pin_writes (trace w) -> led_guar w w'.
Proof.
  intros HE Hr Hc Hw. split; [exact HE|]. split; [exact Hr|].
  split; [exact Hc|]. exists []. rewrite Hw. symmetry. apply app_nil_r.
Qed.

Lemma led_safe_write (a : Z) (p : pin) (v : Z) :
  p ∈ led_pins ->
  v = PIN_LOW \/ (v = PIN_HIGH /\ a <> LED_MODE_NONE) ->
  led_safe mk a (led_post a (fun _ => True)) (atom (rt_pin_write p v)).
Proof.
  intros Hp Hv. apply led_safe_atom. intros w HI Ha HE.
  eexists _, _. split; [reflexivity|]. split; [|split; [|exact Logic.I]].
  - apply sys_inv_write; [exact HI| | |].
    + split; [exact Hp|]. cbn. destruct Hv as [-> | [-> _]]; auto.
    + intros Hk. destruct Hv as [-> | [_ Hne]]; [reflexivity|].
      destruct Ha as [Ha|Ha]; [contradiction|]. congruence.
    + intros Hl. unfold led_enabled in HE. congruence.
  - split; [exact HE|]. split; [reflexivity|]. split; [reflexivity|].
    exists [(p, v)]. world_simpl. apply pin_writes_snoc.
Qed.

Lemma led_safe_pin (a : Z) (i : Z) :
  0 <= i < 4 ->
  led_safe mk a (led_post a (fun p => p ∈ led_pins)) (atom (led_pins_at i)).
Proof.
  intros Hi. apply led_safe_atom. intros w HI Ha HE.
  rewrite led_pins_at_run.
  replace ((0 <=? i) && (i <? 4)) with true by lia.
  destruct (led_pins !! Z.to_nat i) as [p|] eqn:Hp.
  - exists p, w. split; [reflexivity|]. split; [exact HI|].
    split; [apply led_guar_same; auto|].
    apply (list_elem_of_lookup_2 _ _ _ Hp).
  - apply lookup_ge_None_1 in Hp. cbn in Hp. lia.
Qed.

Lemma led_safe_delay (a : Z) (ms : Z) :
  led_safe mk a (led_post a (fun _ => True)) (atom (rt_thread_mdelay ms)).
Proof.
  apply led_safe_atom. intros w HI Ha HE.
  eexists _, _. split; [reflexivity|].
  assert (pin_writes (trace (log (EvDelay ms) w)) = pin_writes (trace w)) as Hw.
  { world_simpl. rewrite pin_writes_snoc. apply app_nil_r. }
  split; [|split; [|exact Logic.I]].
  - apply (sys_inv_frame mk w); try reflexivity; try assumption.
    world_simpl. rewrite kprintf_lines_snoc. apply app_nil_r.
  - apply led_guar_same; auto.
Qed.

Lemma led_safe_get_index (a : Z) :
  led_safe mk a (led_post a (fun x => 0 <= x < 4)) (atom (get flow_index)).
Proof.
  apply led_safe_atom. intros w HI Ha HE.
  exists (flow_index w), w. split; [reflexivity|]. split; [exact HI|].
  split; [apply led_guar_same; auto|]. apply (sys_inv_index w HI).
Qed.

Lemma led_safe_get_value (a : Z) :
  led_safe mk a (led_post a (fun x => 0 <= x < 256)) (atom (get binary_value)).
Proof.
  apply led_safe_atom. intros w HI Ha HE.
  exists (binary_value w), w. split; [reflexivity|]. split; [exact HI|].
  split; [apply led_guar_same; auto|]. apply (sys_inv_value w HI).
Qed.

Lemma led_safe_set_index (a : Z) (x : Z) :
  0 <= x < 4 ->
  led_safe mk a (led_post a (fun _ => True))
           (atom (modify (set_flow_index x))).
Proof.
  intros Hx. apply led_safe_atom. intros w HI Ha HE.
  eexists _, _. split; [reflexivity|]. split; [|split; [|exact Logic.I]].
  - apply (sys_inv_counters mk w); try reflexivity; try assumption.
    apply (sys_inv_value w HI).
  - apply led_guar_same; auto.
Qed.

Lemma led_safe_set_value (a : Z) (x : Z) :
  0 <= x < 256 ->
  led_safe mk a (led_post a (fun _ => True))
           (atom (modify (set_binary_value x))).
Proof.
  intros Hx. apply led_safe_atom. intros w HI Ha HE.
  eexists _, _. split; [reflexivity|]. split; [|split; [|exact Logic.I]].
  - apply (sys_inv_counters mk w); try reflexivity; try assumption.
    apply (sys_inv_index w HI).
  - apply led_guar_same; auto.
Qed.

Lemma led_safe_for (a : Z) (body : Z -> Thr unit) (lo0 hi : Z) :
  (forall i, lo0 <= i < hi ->
     led_safe mk a (led_post a (fun _ => True)) (body i)) ->
  forall (fuel : nat) (lo : Z), lo0 <= lo ->
    led_safe mk a (led_post a (fun _ => True)) (tfor_fuel fuel lo hi body).
Proof.
  intros Hb fuel. induction fuel as [|fuel IH]; intros lo Hlo.
  - apply led_safe_ret.
  - cbn [tfor_fuel]. destruct (lo <? hi) eqn:Hlt; [|apply led_safe_ret].
    apply (led_safe_bind a (fun _ => True)).
    + apply Hb. lia.
    + intros _ _. apply IH. lia.
Qed.

Lemma led_safe_leds_all_off (a : Z) :
  led_safe mk a (led_post a (fun _ => True)) Fine.leds_all_off.
Proof.
  unfold Fine.leds_all_off, tfor_lt.
  apply (led_safe_for a _ 0 4); [|lia].
  intros i Hi. apply (led_safe_bind a (fun p => p ∈ led_pins)).
  - apply led_safe_pin. exact Hi.
  - intros p Hp. apply led_safe_write; [exact Hp|left; reflexivity].
Qed.

Lemma led_safe_flow_step (a : Z) :
  a <> LED_MODE_NONE ->
  led_safe mk a (led_post a (fun _ => True)) Fine.led_mode_flow_step.
Proof.
  intros Ha. unfold Fine.led_mode_flow_step.
  apply (led_safe_bind a (fun _ => True)); [apply led_safe_leds_all_off|].
  intros _ _.
  apply (led_safe_bind a (fun x => 0 <= x < 4)); [apply led_safe_get_index|].
  intros index Hi.
  apply (led_safe_bind a (fun p => p ∈ led_pins)); [apply led_safe_pin; exact Hi|].
  intros p Hp.
  apply (led_safe_bind a (fun _ => True)).
  { apply led_safe_write; [exact Hp|right; split; [reflexivity|exact Ha]]. }
  intros _ _.
  apply (led_safe_bind a (fun _ => True)); [apply led_safe_delay|].
  intros _ _.
  apply (led_safe_bind a (fun x => 0 <= x < 4)); [apply led_safe_get_index|].
  intros index' Hi'.
  apply led_safe_set_index.
  rewrite Z.rem_mod_nonneg by lia. apply Z.mod_pos_bound. lia.
Qed.

Lemma led_safe_binary_step (a : Z) :
  a <> LED_MODE_NONE ->
  led_safe mk a (led_post a (fun _ => True)) Fine.led_mode_binary_step.
Proof.
  intros Ha. unfold Fine.led_mode_binary_step.
  apply (led_safe_bind a (fun _ => True)).
  { unfold tfor_lt. apply (led_safe_for a _ 0 4); [|lia].
    intros i Hi.
    apply (led_safe_bind a (fun x => 0 <= x < 256)); [apply led_safe_get_value|].
    intros value _.
    apply (led_safe_bind a (fun p => p ∈ led_pins)); [apply led_safe_pin; exact Hi|].
    intros p Hp.
    destruct (negb (Z.land value (Z.shiftl 1 i) =? 0)).
    - apply led_safe_write; [exact Hp|right; split; [reflexivity|exact Ha]].
    - apply led_safe_write; [exact Hp|left; reflexivity]. }
  intros _ _.
  apply (led_safe_bind a (fun x => 0 <= x < 256)); [apply led_safe_get_value|].
  intros value Hv.
  apply (led_safe_bind a (fun _ => True)).
  { apply led_safe_set_value. apply Z.mod_pos_bound. lia. }
  intros _ _. apply led_safe_delay.
Qed.

Lemma led_safe_off_step (a : Z) :
  led_safe mk a (led_post a (fun _ => True))
           (Fine.leds_all_off;; atom (rt_thread_mdelay 50)).
Proof.
  apply (led_safe_bind a (fun _ => True)); [apply led_safe_leds_all_off|].
  intros _ _. apply led_safe_delay.
Qed.

Lemma led_thread_safe :
  tsafe (sys_inv mk) led_enabled led_rely led_guar (fun _ _ => True)
        Fine.led_thread_body (fun _ => True).
Proof.
  unfold Fine.led_thread_body.
  apply (tsafe_bind _ _ _ _ (fun a w => mode_valid a /\ led_at a w)).
  - apply tsafe_atom.
    + intros a w w' HI [Hv Ha] HR. split; [exact Hv|].
      apply (led_at_stable a w w'); assumption.
    + intros w HI _ HE. exists (g_led_mode w), w.
      split; [reflexivity|]. split; [exact HI|].
      split; [apply led_guar_same; auto|].
      split; [apply (sys_inv_mode w HI)|].
      destruct (started key_thread_entry_fn w) eqn:Hk.
      * right. exact Hk.
      * left. apply (sys_inv_key_off w HI Hk).
  - intros a. apply tsafe_pure. intros Hv.
    apply (tsafe_post _ _ _ _ (led_post a (fun _ => True))); [auto|].
    destruct Hv as [-> | [-> | ->]].
    + apply led_safe_off_step.
    + apply led_safe_flow_step. discriminate.
    + apply led_safe_binary_step. discriminate.
Qed.

(** *** [main] is safe *)

Lemma main_at_stable (c n : nat) :
  stable (sys_inv mk) main_rely (main_at c n).
Proof.
  intros w w' _ (Hc & Hrd & rest & Hw & Hrest) HR.
  destruct HR as [(Hl & Hr & Hcr & l & Hl')|(_ & Hr & Hcr & Hw')].
  - split; [congruence|]. split; [intros Hn; rewrite Hr; auto|].
    exists (rest ++ l). split; [rewrite Hl', Hw; symmetry; apply app_assoc|].
    intros Hoff. rewrite (started_ext _ w' w Hr) in Hoff. congruence.
  - split; [congruence|]. split; [intros Hn; rewrite Hr; auto|].
    exists rest. split; [congruence|].
    intros Hoff. rewrite (started_ext _ w' w Hr) in Hoff. auto.
Qed.

Lemma main_end_stable (x : Z) : stable (sys_inv mk) main_rely (main_end x).
Proof.
  intros w w' _ (Hx & rest & Hw & Hrest) HR. split; [exact Hx|].
  destruct HR as [(Hl & Hr & Hcr & l & Hl')|(_ & Hr & Hcr & Hw')].
  - exists (rest ++ l). split; [rewrite Hl', Hw; symmetry; apply app_assoc|].
    intros Hoff. rewrite (started_ext _ w' w Hr) in Hoff. congruence.
  - exists rest. split; [congruence|].
    intros Hoff. rewrite (started_ext _ w' w Hr) in Hoff. auto.
Qed.

Lemma main_guar_same (w w' : world) : ready w' = ready w -> main_guar w w'.
Proof. intros Hr f Hf. rewrite (started_ext f w' w Hr). exact Hf. Qed.

Lemma main_safe_atom {X} (Q : world -> Prop) (Qend : X -> world -> Prop)
    (m : M X) :
  (forall x, stable (sys_inv mk) main_rely (Qend x)) ->
  (forall w, sys_inv mk w -> Q w ->
     exists x w', m w = Some (x, w') /\ sys_inv mk w' /\ main_guar w w'
                  /\ Qend x w') ->
  main_safe mk Q Qend (atom m).
Proof.
  intros Hst H. apply tsafe_atom; [exact Hst|].
  intros w HI HQ _. apply H; assumption.
Qed.

Lemma main_safe_pin_mode (c n : nat) (p : pin) (m : pin_mode) :
  main_safe mk (main_at c n) (fun _ => main_at c n) (atom (rt_pin_mode p m)).
Proof.
  apply main_safe_atom; [intros _; apply main_at_stable|].
  intros w HI HQ. eexists _, _. split; [reflexivity|].
  assert (pin_writes (trace (log (EvPinMode p m) w)) = pin_writes (trace w))
    as Hw.
  { world_simpl. rewrite pin_writes_snoc. apply app_nil_r. }
  split; [|split; [apply main_guar_same; reflexivity|]].
  - apply (sys_inv_frame mk w); try reflexivity; try assumption.
    world_simpl. rewrite kprintf_lines_snoc. apply app_nil_r.
  - destruct HQ as (Hc & Hrd & rest & Hws & Hrest).
    split; [exact Hc|]. split; [exact Hrd|].
    exists rest. split; [rewrite Hw; exact Hws|exact Hrest].
Qed.

Lemma main_safe_pin (i : nat) (p : pin) :
  led_pins !! i = Some p ->
  main_safe mk (main_at 0 i) (fun x w => x = p /\ main_at 0 i w)
            (atom (led_pins_at (Z.of_nat i))).
Proof.
  intros Hp. apply main_safe_atom.
  { intros x w w' HI [Hx HQ] HR. split; [exact Hx|].
    apply (main_at_stable 0 i w w'); assumption. }
  intros w HI HQ. exists p, w. split.
  - rewrite led_pins_at_run. apply lookup_lt_Some in Hp as Hlt. cbn in Hlt.
    replace ((0 <=? Z.of_nat i) && (Z.of_nat i <? 4)) with true by lia.
    rewrite Nat2Z.id, Hp. reflexivity.
  - split; [exact HI|]. split; [apply main_guar_same; reflexivity|]. auto.
Qed.

Lemma main_safe_write (i : nat) (p : pin) :
  lows4 !! i = Some (p, PIN_LOW) ->
  main_safe mk (main_at 0 i) (fun _ => main_at 0 (S i))
            (atom (rt_pin_write p PIN_LOW)).
Proof.
  intros Hp. apply main_safe_atom; [intros _; apply main_at_stable|].
  intros w HI (Hc & Hrd & rest & Hws & Hrest).
  apply lookup_lt_Some in Hp as Hlt. cbn in Hlt.
  assert (started led_thread_entry_fn w = false) as Hoff.
  { apply started_nil. apply Hrd. exact Hlt. }
  rewrite (Hrest Hoff), app_nil_r in Hws.
  assert (pin_writes (trace w) ++ [(p, PIN_LOW)] = take (S i) lows4) as Hnew.
  { rewrite Hws. symmetry. apply take_S_r. exact Hp. }
  eexists _, _. split; [reflexivity|].
  split; [|split; [apply main_guar_same; reflexivity|]].
  - apply sys_inv_write; [exact HI| | |].
    + apply (led_pin_in_lows4 i). exact Hp.
    + reflexivity.
    + intros _. exists (S i). exact Hnew.
  - split; [exact Hc|]. split; [intros _; apply Hrd; exact Hlt|].
    exists []. split; [|reflexivity].
    world_simpl. rewrite pin_writes_snoc, app_nil_r. exact Hnew.
Qed.

Lemma main_safe_create (c : nat) (name : string) (entry : entry_fn)
    (stack prio tick : Z) :
  main_safe mk (main_at c 4)
    (fun a w =>
       a = (if mk c then Some (Thread name entry stack prio tick) else None)
       /\ main_at (S c) 4 w)
    (atom (rt_thread_create name entry stack prio tick)).
Proof.
  apply main_safe_atom.
  { intros x w w' HI [Hx HQ] HR. split; [exact Hx|].
    apply (main_at_stable (S c) 4 w w'); assumption. }
  intros w HI (Hc & Hrd & rest & Hws & Hrest).
  eexists _, _. split; [reflexivity|].
  set (w' := log _ _).
  assert (pin_writes (trace w') = pin_writes (trace w)) as Hw.
  { unfold w'. world_simpl. rewrite pin_writes_snoc. apply app_nil_r. }
  split; [|split; [apply main_guar_same; reflexivity|]].
  - apply (sys_inv_frame mk w); try reflexivity; try assumption.
    unfold w'. world_simpl. rewrite kprintf_lines_snoc. apply app_nil_r.
  - split.
    + assert (create_ok w = mk) as -> by apply HI. rewrite Hc. reflexivity.
    + split; [unfold w'; world_simpl; congruence|].
      split; [intros Hn; lia|].
      exists rest. split; [rewrite Hw; exact Hws|exact Hrest].
Qed.

Lemma main_safe_startup (c : nat) (t : thread) :
  (th_entry t = led_thread_entry_fn -> mk 0%nat = true) ->
  (th_entry t = key_thread_entry_fn -> mk 1%nat = true) ->
  main_safe mk (main_at c 4) (fun _ => main_at c 4)
            (atom (rt_thread_startup t)).
Proof.
  intros Hled Hkey. apply main_safe_atom; [intros _; apply main_at_stable|].
  intros w HI (Hc & Hrd & rest & Hws & Hrest).
  eexists _, _. split; [reflexivity|].
  set (w' := log _ _).
  assert (ready w' = ready w ++ [t]) as Hr by reflexivity.
  assert (pin_writes (trace w') = pin_writes (trace w)) as Hw.
  { unfold w'. world_simpl. rewrite pin_writes_snoc. apply app_nil_r. }
  split; [|split].
  - apply sys_inv_startup; [exact HI|exact Hled|exact Hkey|].
    exists rest. exact Hws.
  - intros f Hf. apply (started_snoc f w w' t Hr). left. exact Hf.
  - split; [exact Hc|]. split; [intros Hn; lia|].
    exists rest. split; [rewrite Hw; exact Hws|].
    intros Hoff. apply Hrest. apply started_false_iff. intros Hon.
    apply started_false_iff in Hoff. apply Hoff.
    apply (started_snoc _ w w' t Hr). left. exact Hon.
Qed.

Lemma main_safe_start (c c' : nat) (name : string) (entry : entry_fn)
    (stack prio tick : Z) (tid : option thread) :
  (entry = led_thread_entry_fn -> c = 0%nat) ->
  (entry = key_thread_entry_fn -> c = 1%nat) ->
  tid = (if mk c then Some (Thread name entry stack prio tick) else None) ->
  main_safe mk (main_at c' 4) (fun _ => main_at c' 4)
    (match tid with
     | Some t => atom (rt_thread_startup t)
     | None => mret tt
     end).
Proof.
  intros Hl Hk ->.
  destruct (mk c) eqn:Hmk.
  - apply main_safe_startup; cbn [th_entry]; intros He.
    + rewrite <- (Hl He). exact Hmk.
    + rewrite <- (Hk He). exact Hmk.
  - apply tsafe_ret. auto.
Qed.

Lemma main_safe_off (i : nat) (p : pin) :
  lows4 !! i = Some (p, PIN_LOW) ->
  main_safe mk (main_at 0 i) (fun _ => main_at 0 (S i))
    (p ← atom (led_pins_at (Z.of_nat i)); atom (rt_pin_write p PIN_LOW)).
Proof.
  intros Hp.
  assert (led_pins !! i = Some p) as Hp'.
  { destruct i as [|[|[|[|i]]]]; cbn in Hp; try discriminate;
      injection Hp as <-; reflexivity. }
  apply (tsafe_bind _ _ _ _ (fun x w => x = p /\ main_at 0 i w)).
  - apply main_safe_pin. exact Hp'.
  - intros x. apply tsafe_pure. intros ->. apply main_safe_write. exact Hp.
Qed.

Lemma main_safe_leds_all_off :
  main_safe mk (main_at 0 0) (fun _ => main_at 0 4) Fine.leds_all_off.
Proof.
  change Fine.leds_all_off with
    ((p ← atom (led_pins_at (Z.of_nat 0)); atom (rt_pin_write p PIN_LOW));;
     (p ← atom (led_pins_at (Z.of_nat 1)); atom (rt_pin_write p PIN_LOW));;
     (p ← atom (led_pins_at (Z.of_nat 2)); atom (rt_pin_write p PIN_LOW));;
     (p ← atom (led_pins_at (Z.of_nat 3)); atom (rt_pin_write p PIN_LOW));;
     (mret tt : Thr unit)).
  apply (tsafe_bind _ _ _ _ (fun _ => main_at 0 1));
    [apply (main_safe_off 0 LED1_PIN); reflexivity|intros _].
  apply (tsafe_bind _ _ _ _ (fun _ => main_at 0 2));
    [apply (main_safe_off 1 LED2_PIN); reflexivity|intros _].
  apply (tsafe_bind _ _ _ _ (fun _ => main_at 0 3));
    [apply (main_safe_off 2 LED3_PIN); reflexivity|intros _].
  apply (tsafe_bind _ _ _ _ (fun _ => main_at 0 4));
    [apply (main_safe_off 3 LED4_PIN); reflexivity|intros _].
  apply tsafe_ret. auto.
Qed.

Lemma main_thread_safe : main_safe mk (main_at 0 0) main_end Fine.main.
Proof.
  unfold Fine.main.
  apply (tsafe_bind _ _ _ _ (fun _ => main_at 0 0));
    [apply main_safe_pin_mode|intros _].
  apply (tsafe_bind _ _ _ _ (fun _ => main_at 0 0));
    [apply main_safe_pin_mode|intros _].
  apply (tsafe_bind _ _ _ _ (fun _ => main_at 0 0));
    [apply main_safe_pin_mode|intros _].
  apply (tsafe_bind _ _ _ _ (fun _ => main_at 0 0));
    [apply main_safe_pin_mode|intros _].
  apply (tsafe_bind _ _ _ _ (fun _ => main_at 0 4));
    [apply main_safe_leds_all_off|intros _].
  apply (tsafe_bind _ _ _ _ (fun _ => main_at 0 4));
    [apply main_safe_pin_mode|intros _].
  apply (tsafe_bind _ _ _ _ (fun _ => main_at 0 4));
    [apply main_safe_pin_mode|intros _].
  apply (tsafe_bind _ _ _ _ (fun _ => main_at 0 4));
    [apply main_safe_pin_mode|intros _].
  apply (tsafe_bind _ _ _ _
           (fun a w => a = (if mk 0%nat then Some led_thread else None)
                       /\ main_at 1 4 w)); [apply main_safe_create|].
  intros led_tid. apply tsafe_pure. intros Hled.
  apply (tsafe_bind _ _ _ _ (fun _ => main_at 1 4)).
  { apply (main_safe_start 0 1 "led" led_thread_entry_fn 1024 5 10);
      [reflexivity|discriminate|exact Hled]. }
  intros _.
  apply (tsafe_bind _ _ _ _
           (fun a w => a = (if mk 1%nat then Some key_thread else None)
                       /\ main_at 2 4 w)); [apply main_safe_create|].
  intros key_tid. apply tsafe_pure. intros Hkey.
  apply (tsafe_bind _ _ _ _ (fun _ => main_at 2 4)).
  { apply (main_safe_start 1 2 "key" key_thread_entry_fn 1024 6 10);
      [discriminate|reflexivity|exact Hkey]. }
  intros _.
  apply tsafe_ret. intros w _ (_ & _ & rest & Hws & Hrest).
  split; [reflexivity|]. exists rest. split; [exact Hws|exact Hrest].
Qed.

(** *** Every schedule keeps the configuration consistent *)

Lemma sys_init_ok (inp : pin -> nat -> Z) : config_ok mk (sys_init inp mk).
Proof.
  unfold config_ok, sys_init. cbn [cf_world cf_main cf_led cf_key].
  split; [|split; [|split]].
  - unfold sys_inv, boot, started. world_simpl.
    split; [reflexivity|]. split; [left; reflexivity|].
    split; [lia|]. split; [lia|]. split; [apply Forall_nil_2|].
    split; [reflexivity|]. split; [discriminate|]. split; [discriminate|].
    split; [intros _; repeat split; apply Forall_nil_2|].
    split; [intros _; exists 0%nat; reflexivity|].
    split; [reflexivity|]. intros H. contradiction.
  - exists (main_at 0 0). split; [apply main_at_stable|].
    split; [|apply main_thread_safe].
    split; [reflexivity|]. split; [reflexivity|].
    exists []. split; reflexivity.
  - exists (fun _ => True). split; [apply stable_true|].
    split; [exact Logic.I|]. cbn [tsafe]. auto.
  - exists (fun _ => True). split; [apply stable_true|].
    split; [exact Logic.I|]. cbn [tsafe]. auto.
Qed.

Lemma sys_step_ok (a : action) (c : config) :
  config_ok mk c -> exists c', sys_step a c = Some c' /\ config_ok mk c'.
Proof.
  intros (HI & Hmain & Hled & Hkey). destruct c as [w tm tl tk].
  cbn [cf_world cf_main cf_led cf_key] in *.
  destruct a; cbn [sys_step cf_world cf_main cf_led cf_key].
  - destruct (thr_step_ok (sys_inv mk) (fun _ => True) main_rely main_guar
                main_end TDone tm w) as (t' & w' & Hs & HI' & HG & Hok);
      [apply main_end_stable| |exact HI|exact Logic.I|exact Hmain|].
    { intros x. cbn [tsafe]. auto. }
    rewrite Hs. eexists. split; [reflexivity|].
    split; [exact HI'|]. split; [exact Hok|].
    cbn [cf_world cf_main cf_led cf_key].
    destruct HG as [->|HG]; [auto|]. split.
    + apply (thread_ok_rely _ _ _ _ _ _ w w' HI); [left; exact HG|exact Hled].
    + apply (thread_ok_rely _ _ _ _ _ _ w w' HI); [left; exact HG|exact Hkey].
  - destruct (started led_thread_entry_fn w) eqn:Hon.
    2:{ eexists. split; [reflexivity|]. unfold config_ok.
        cbn [cf_world cf_main cf_led cf_key]. auto. }
    destruct (thr_step_ok (sys_inv mk) led_enabled led_rely led_guar
                (fun _ _ => True) (fun _ => Fine.led_thread_body) tl w)
      as (t' & w' & Hs & HI' & HG & Hok);
      [intros _; apply stable_true|intros _; apply led_thread_safe
      |exact HI|exact Hon|exact Hled|].
    rewrite Hs. eexists. split; [reflexivity|].
    split; [exact HI'|]. cbn [cf_world cf_main cf_led cf_key].
    destruct HG as [->|HG]; [auto|].
    split; [|split; [exact Hok|]].
    + apply (thread_ok_rely _ _ _ _ _ _ w w' HI); [left; exact HG|exact Hmain].
    + apply (thread_ok_rely _ _ _ _ _ _ w w' HI); [right; exact HG|exact Hkey].
  - destruct (started key_thread_entry_fn w) eqn:Hon.
    2:{ eexists. split; [reflexivity|]. unfold config_ok.
        cbn [cf_world cf_main cf_led cf_key]. auto. }
    destruct (thr_step_ok (sys_inv mk) key_enabled key_rely key_guar
                (fun _ _ => True) Fine.key_thread_body tk w)
      as (t' & w' & Hs & HI' & HG & Hok);
      [intros _; apply stable_true|intros l; apply key_thread_safe
      |exact HI|exact Hon|exact Hkey|].
    rewrite Hs. eexists. split; [reflexivity|].
    split; [exact HI'|]. cbn [cf_world cf_main cf_led cf_key].
    destruct HG as [->|HG]; [auto|].
    split; [|split; [|exact Hok]].
    + apply (thread_ok_rely _ _ _ _ _ _ w w' HI); [right; exact HG|exact Hmain].
    + apply (thread_ok_rely _ _ _ _ _ _ w w' HI); [right; exact HG|exact Hled].
Qed.

Lemma sys_run_ok (sched : list action) (c : config) :
  config_ok mk c -> exists c', sys_run sched c = Some c' /\ config_ok mk c'.
Proof.
  revert c. induction sched as [|a sched IH]; intros c Hc.
  - exists c. split; [reflexivity|exact Hc].
  - destruct (sys_step_ok a c Hc) as (c1 & Hs & Hc1).
    cbn [sys_run]. rewrite Hs. apply IH. exact Hc1.
Qed.

Lemma system_config_ok (inp : pin -> nat -> Z) (sched : list action) :
  exists c, system inp mk sched = Some c /\ config_ok mk c.
Proof. apply sys_run_ok. apply sys_init_ok. Qed.

(** Once [main] has returned, its four writes of LOW are in the trace. *)
Lemma main_returned_end (c : config) :
  config_ok mk c -> main_returned c = true ->
  exists rest,
    pin_writes (trace (cf_world c)) = lows4 ++ rest
    /\ (started led_thread_entry_fn (cf_world c) = false -> rest = []).
Proof.
  intros (HI & (Q & _ & HQ & Ht) & _) Hret. unfold main_returned in Hret.
  destruct (cf_main c) as [x|A m k]; [|discriminate].
  cbn [tsafe] in Ht. destruct (Ht _ HI HQ) as (_ & H). exact H.
Qed.

End Threads.

(* ===================================================================== *)
(** ** Properties of the pattern generators and of the LED thread *)
(* ===================================================================== *)

(** C1, as stated, fails at K = 1: from counter value 0 the first binary
    step renders the counter before incrementing it, so after one
    invocation the outputs show 0, not 1 mod 16. *)
Lemma C1_counterexample :
  binary_value demo_world = 0
  /\ exists w',
       exec (binary_run 1) demo_world = Some w'
       /\ visible_pattern w' = 0
       /\ visible_pattern w' <> Z.of_nat 1 mod 16.
Proof.
  split; [reflexivity|].
  destruct (binary_run_spec 0 demo_world) as (w' & Hrun & _ & _ & _ & Hpat).
  exists w'. unfold exec. rewrite Hrun. split; [reflexivity|].
  change (binary_value demo_world) with 0 in Hpat.
  rewrite Hpat. split; [reflexivity | discriminate].
Qed.

(** C1 (amended): starting from counter value 0, after K >= 1 consecutive
    invocations of the binary-count step the four outputs, read in index
    order as a 4-bit unsigned value, show (K - 1) mod 16: each step
    renders the counter and then increments it, so the counter itself is
    K mod 256 and is what the next step will render. *)
Theorem C1_binary_pattern_after_K_steps (w : world) (K : nat) :
  binary_value w = 0 ->
  (1 <= K)%nat ->
  exists w',
    exec (binary_run K) w = Some w'
    /\ visible_pattern w' = (Z.of_nat K - 1) mod 16
    /\ binary_value w' = Z.of_nat K mod 256.
Proof.
  intros Hzero HK. destruct K as [|n]; [lia|].
  destruct (binary_run_spec n w) as (w' & Hrun & Hval & _ & _ & Hpat).
  exists w'. unfold exec. rewrite Hrun. split; [reflexivity|].
  rewrite Hpat, Hval, Hzero. split; f_equal; lia.
Qed.

(** C1 at boot, K = 5: the outputs show 4. *)
Lemma C1_binary_pattern_after_K_steps_witness :
  binary_value demo_world = 0
  /\ (1 <= 5)%nat
  /\ exists w',
       exec (binary_run 5) demo_world = Some w'
       /\ visible_pattern w' = (Z.of_nat 5 - 1) mod 16
       /\ binary_value w' = Z.of_nat 5 mod 256.
Proof.
  split; [reflexivity|]. split; [lia|].
  apply (C1_binary_pattern_after_K_steps demo_world 5); [reflexivity | lia].
Defined.

(** C2: from any world whose chase index is in [0,4), for every number N
    of earlier consecutive invocations, the next invocation of the chase
    step succeeds, leaves exactly one output high, namely the one at the
    index retained before that invocation, and advances the index by one
    modulo 4; the lit output recurs after p further invocations exactly
    when p is a multiple of 4 (period exactly 4). *)
Theorem C2_chase_one_hot_period_4 (w : world) (N : nat) :
  0 <= flow_index w < 4 ->
  exists w1 w2,
    exec (flow_run N) w = Some w1
    /\ exec led_mode_flow_step w1 = Some w2
    /\ exec (flow_run (S N)) w = Some w2
    /\ lit_leds w2 = [Z.to_nat (flow_index w1)]
    /\ 0 <= flow_index w1 < 4
    /\ flow_index w2 = (flow_index w1 + 1) mod 4
    /\ forall p : nat, exists w3,
         exec (flow_run (S N + p)) w = Some w3
         /\ (lit_leds w3 = lit_leds w2 <-> Z.of_nat p mod 4 = 0).
Proof.
  intros Hrange.
  destruct (flow_run_spec N w Hrange) as (w1 & Hrun1 & Hidx1 & _ & _ & _).
  assert (0 <= flow_index w1 < 4) as Hrange1.
  { rewrite Hidx1. apply Z.mod_pos_bound. lia. }
  destruct (led_pins_lookup_range _ Hrange1) as [q Hq].
  pose proof (flow_step_run w1 q Hrange1 Hq) as Hstep.
  pose proof (lit_leds_flow_after w1 q Hrange1 Hq) as Hlit.
  pose proof (flow_after_index w1 q Hrange1) as Hidx2.
  assert (flow_run (S N) w = Some (tt, flow_after q w1)) as Hrun2.
  { unfold flow_run in *. rewrite loop_n_snoc, Hrun1. exact Hstep. }
  exists w1, (flow_after q w1). unfold exec.
  rewrite Hrun1, Hstep, Hrun2.
  split; [reflexivity|]. split; [reflexivity|]. split; [reflexivity|].
  split; [exact Hlit|]. split; [exact Hrange1|]. split; [exact Hidx2|].
  intros p.
  destruct (flow_run_spec (S N + p) w Hrange) as (w3 & Hrun3 & _ & _ & _ & Hlit3).
  exists w3. rewrite Hrun3. split; [reflexivity|].
  rewrite Hlit, Hlit3 by lia. rewrite Hidx1.
  split.
  - intros Heq. injection Heq as Heq. revert Heq.
    Z.to_euclidean_division_equations. lia.
  - intros Hp. f_equal. revert Hp.
    Z.to_euclidean_division_equations. lia.
Qed.

(** C2 at boot, for the seventh invocation. *)
Lemma C2_chase_one_hot_period_4_witness :
  0 <= flow_index demo_world < 4
  /\ exists w1 w2,
       exec (flow_run 6) demo_world = Some w1
       /\ exec led_mode_flow_step w1 = Some w2
       /\ exec (flow_run 7) demo_world = Some w2
       /\ lit_leds w2 = [Z.to_nat (flow_index w1)]
       /\ 0 <= flow_index w1 < 4
       /\ flow_index w2 = (flow_index w1 + 1) mod 4
       /\ forall p : nat, exists w3,
            exec (flow_run (7 + p)) demo_world = Some w3
            /\ (lit_leds w3 = lit_leds w2 <-> Z.of_nat p mod 4 = 0).
Proof.
  split; [cbn; lia|].
  apply (C2_chase_one_hot_period_4 demo_world 6). cbn. lia.
Defined.

(** C5: whenever the LED thread reads mode Off, that iteration drives all
    four outputs low; so from any world in which Off is selected, after
    the first render and after every later one (n further renders, the
    mode staying Off) all four outputs are low. *)
Theorem C5_off_all_outputs_low (w : world) (n : nat) :
  g_led_mode w = LED_MODE_NONE ->
  (exists w1,
     exec led_thread_body w = Some w1
     /\ all_leds_low w1 = true)
  /\ exists w',
       exec (led_thread_entry (S n)) w = Some w'
       /\ g_led_mode w' = LED_MODE_NONE
       /\ all_leds_low w' = true
       /\ lit_leds w' = [].
Proof.
  intros Hoff. split.
  - exists (off_after w). unfold exec.
    rewrite led_body_default, off_render_run by (rewrite Hoff; discriminate).
    split; [reflexivity | apply all_leds_low_off_after].
  - destruct (off_run_spec n w Hoff) as (w' & Hrun & Hm & _ & _ & Hlow & Hlit).
    exists w'. unfold exec. rewrite Hrun. auto.
Qed.

(** C5 at boot, where Off is selected: three renders. *)
Lemma C5_off_all_outputs_low_witness :
  g_led_mode demo_world = LED_MODE_NONE
  /\ (exists w1,
        exec led_thread_body demo_world = Some w1
        /\ all_leds_low w1 = true)
  /\ exists w',
       exec (led_thread_entry 3) demo_world = Some w'
       /\ g_led_mode w' = LED_MODE_NONE
       /\ all_leds_low w' = true
       /\ lit_leds w' = [].
Proof.
  split; [reflexivity|].
  apply (C5_off_all_outputs_low demo_world 2). reflexivity.
Defined.

(** C7: a binary step replaces the counter by (counter + 1) mod 256, an
    8-bit value, and renders only the low 4 bits of the counter it found;
    hence over consecutive invocations the visible pattern recurs exactly
    every 16 invocations and the counter exactly every 256. *)
Theorem C7_binary_counter_wraps (w : world) (n p : nat) :
  exists w1 wn wp,
    exec led_mode_binary_step w = Some w1
    /\ binary_value w1 = (binary_value w + 1) mod 256
    /\ 0 <= binary_value w1 < 256
    /\ visible_pattern w1 = binary_value w mod 16
    /\ visible_pattern w1 = Z.land (binary_value w) 15
    /\ exec (binary_run (S n)) w = Some wn
    /\ exec (binary_run (S n + p)) w = Some wp
    /\ (visible_pattern wp = visible_pattern wn <-> Z.of_nat p mod 16 = 0)
    /\ (binary_value wp = binary_value wn <-> Z.of_nat p mod 256 = 0).
Proof.
  destruct (binary_run_spec n w) as (wn & Hrunn & Hvaln & _ & _ & Hpatn).
  destruct (binary_run_spec (n + p) w) as (wp & Hrunp & Hvalp & _ & _ & Hpatp).
  exists (binary_after w), wn, wp. unfold exec.
  rewrite binary_step_run, Hrunn.
  change (S n + p)%nat with (S (n + p)). rewrite Hrunp.
  split; [reflexivity|]. split; [apply binary_after_value|].
  split; [rewrite binary_after_value; apply Z.mod_pos_bound; lia|].
  split; [apply visible_pattern_binary_after|].
  split.
  { rewrite visible_pattern_binary_after.
    change 15 with (Z.ones 4). rewrite Z.land_ones by lia. reflexivity. }
  split; [reflexivity|]. split; [reflexivity|].
  rewrite Hpatn, Hpatp, Hvaln, Hvalp.
  split; Z.to_euclidean_division_equations; lia.
Qed.

(** C10: for every value of the mode variable other than the Chase and
    BinaryCount codes, an LED-thread iteration takes the default branch:
    it runs exactly the Off render, drives all four outputs low, and
    leaves the same world an iteration reading Off would leave (apart
    from the mode variable itself, which it does not write). *)
Theorem C10_other_modes_render_as_off (w : world) :
  g_led_mode w <> LED_MODE_FLOW ->
  g_led_mode w <> LED_MODE_BINARY ->
  led_thread_body w = (leds_all_off;; rt_thread_mdelay 50) w
  /\ exists w' w0,
       exec led_thread_body w = Some w'
       /\ all_leds_low w' = true
       /\ lit_leds w' = []
       /\ g_led_mode w' = g_led_mode w
       /\ exec led_thread_body (set_g_led_mode LED_MODE_NONE w) = Some w0
       /\ w' = set_g_led_mode (g_led_mode w) w0.
Proof.
  intros Hf Hb. split; [apply led_body_default; assumption|].
  exists (off_after w), (off_after (set_g_led_mode LED_MODE_NONE w)).
  unfold exec.
  rewrite led_body_default, off_render_run by assumption.
  rewrite led_body_default, off_render_run by discriminate.
  split; [reflexivity|].
  split; [apply all_leds_low_off_after|].
  split; [apply lit_leds_off_after|].
  split; [reflexivity|]. split; [reflexivity|].
  destruct w. reflexivity.
Qed.

(** C10 for the out-of-range mode byte 200. *)
Lemma C10_other_modes_render_as_off_witness :
  let w := set_g_led_mode 200 demo_world in
  g_led_mode w <> LED_MODE_FLOW
  /\ g_led_mode w <> LED_MODE_BINARY
  /\ led_thread_body w = (leds_all_off;; rt_thread_mdelay 50) w
  /\ exists w' w0,
       exec led_thread_body w = Some w'
       /\ all_leds_low w' = true
       /\ lit_leds w' = []
       /\ g_led_mode w' = g_led_mode w
       /\ exec led_thread_body (set_g_led_mode LED_MODE_NONE w) = Some w0
       /\ w' = set_g_led_mode (g_led_mode w) w0.
Proof.
  cbv zeta. split; [discriminate|]. split; [discriminate|].
  apply (C10_other_modes_render_as_off (set_g_led_mode 200 demo_world));
    discriminate.
Defined.

(** C6: the chase index and the binary counter are retained and never
    reset.  A chase step changes only the chase index, a binary step only
    the binary counter, an Off render and a key scan neither; and over any
    sequence [ms] of modes read by successive LED-thread iterations the
    index has advanced by the number of Chase iterations (mod 4) and the
    counter by the number of BinaryCount iterations (mod 256), so that
    re-entering a mode resumes from the retained value. *)
Theorem C6_generator_state_retained (w : world) (ms : list Z) (l : key_last) :
  0 <= flow_index w < 4 ->
  0 <= binary_value w < 256 ->
  (exists w1,
     exec led_mode_flow_step w = Some w1
     /\ flow_index w1 = (flow_index w + 1) mod 4
     /\ binary_value w1 = binary_value w)
  /\ (exists w2,
        exec led_mode_binary_step w = Some w2
        /\ binary_value w2 = (binary_value w + 1) mod 256
        /\ flow_index w2 = flow_index w)
  /\ (exists w3,
        exec (leds_all_off;; rt_thread_mdelay 50) w = Some w3
        /\ flow_index w3 = flow_index w
        /\ binary_value w3 = binary_value w)
  /\ (exists w4,
        exec (key_thread_body l) w = Some w4
        /\ flow_index w4 = flow_index w
        /\ binary_value w4 = binary_value w)
  /\ exists w' wf wb,
       exec (led_run_modes ms) w = Some w'
       /\ flow_index w' = (flow_index w + count_mode LED_MODE_FLOW ms) mod 4
       /\ binary_value w' =
            (binary_value w + count_mode LED_MODE_BINARY ms) mod 256
       /\ exec led_mode_flow_step w' = Some wf
       /\ lit_leds wf =
            [Z.to_nat ((flow_index w + count_mode LED_MODE_FLOW ms) mod 4)]
       /\ exec led_mode_binary_step w' = Some wb
       /\ visible_pattern wb =
            (binary_value w + count_mode LED_MODE_BINARY ms) mod 16.
Proof.
  intros Hidx Hval. unfold exec.
  split.
  { destruct (led_pins_lookup_range _ Hidx) as [q Hq].
    exists (flow_after q w). rewrite (flow_step_run w q) by assumption.
    split; [reflexivity|]. split; [apply flow_after_index; assumption|].
    reflexivity. }
  split.
  { exists (binary_after w). rewrite binary_step_run. repeat split. }
  split.
  { exists (off_after w). rewrite off_render_run. repeat split. }
  split.
  { exists (scan_after l w). rewrite key_body_run.
    destruct (scan_after_frame l w) as (Hi & Hv & _).
    auto. }
  destruct (led_run_modes_spec ms w Hidx Hval) as (w' & Hrun & Hi & Hv).
  assert (0 <= flow_index w' < 4) as Hidx'.
  { rewrite Hi. apply Z.mod_pos_bound. lia. }
  destruct (led_pins_lookup_range _ Hidx') as [q Hq].
  exists w', (flow_after q w'), (binary_after w').
  rewrite Hrun, (flow_step_run w' q), binary_step_run by assumption.
  split; [reflexivity|]. split; [exact Hi|]. split; [exact Hv|].
  split; [reflexivity|].
  split; [rewrite lit_leds_flow_after, Hi by assumption; reflexivity|].
  split; [reflexivity|].
  rewrite visible_pattern_binary_after, Hv.
  apply Z.mod_mod_divide. exists 16. reflexivity.
Qed.

(** C6 at boot, for the mode sequence Chase, BinaryCount, Off, Chase. *)
Lemma C6_generator_state_retained_witness :
  let ms := [LED_MODE_FLOW; LED_MODE_BINARY; LED_MODE_NONE; LED_MODE_FLOW] in
  let w := demo_world in
  let l := key_last_init in
  0 <= flow_index w < 4
  /\ 0 <= binary_value w < 256
  /\ (exists w1,
        exec led_mode_flow_step w = Some w1
        /\ flow_index w1 = (flow_index w + 1) mod 4
        /\ binary_value w1 = binary_value w)
  /\ (exists w2,
        exec led_mode_binary_step w = Some w2
        /\ binary_value w2 = (binary_value w + 1) mod 256
        /\ flow_index w2 = flow_index w)
  /\ (exists w3,
        exec (leds_all_off;; rt_thread_mdelay 50) w = Some w3
        /\ flow_index w3 = flow_index w
        /\ binary_value w3 = binary_value w)
  /\ (exists w4,
        exec (key_thread_body l) w = Some w4
        /\ flow_index w4 = flow_index w
        /\ binary_value w4 = binary_value w)
  /\ exists w' wf wb,
       exec (led_run_modes ms) w = Some w'
       /\ flow_index w' = (flow_index w + count_mode LED_MODE_FLOW ms) mod 4
       /\ binary_value w' =
            (binary_value w + count_mode LED_MODE_BINARY ms) mod 256
       /\ exec led_mode_flow_step w' = Some wf
       /\ lit_leds wf =
            [Z.to_nat ((flow_index w + count_mode LED_MODE_FLOW ms) mod 4)]
       /\ exec led_mode_binary_step w' = Some wb
       /\ visible_pattern wb =
            (binary_value w + count_mode LED_MODE_BINARY ms) mod 16.
Proof.
  cbv zeta. split; [cbn; lia|]. split; [cbn; lia|].
  apply (C6_generator_state_retained demo_world
           [LED_MODE_FLOW; LED_MODE_BINARY; LED_MODE_NONE; LED_MODE_FLOW]
           key_last_init); cbn; lia.
Defined.

(* ===================================================================== *)
(** ** Properties of the key-scanning thread *)
(* ===================================================================== *)

Lemma msg_of_button_inj (b b' : button) :
  msg_of_button b = msg_of_button b' -> b = b'.
Proof.
  destruct b, b'; intros Heq; try reflexivity; vm_compute in Heq; discriminate.
Qed.

Lemma scan_edges_confirmed (b : button) (l : key_last) (w : world) :
  b ∈ scan_edges l w <-> confirmed_edge b l w = true.
Proof.
  unfold scan_edges. rewrite list_elem_of_In, filter_In.
  split; [intros [_ H]; exact H|].
  intros H. split; [|exact H]. destruct b; cbn; auto.
Qed.

Lemma glitch_not_confirmed (b : button) (l : key_last) (w : world) :
  glitch b l w = true -> confirmed_edge b l w = false.
Proof.
  unfold glitch, confirmed_edge.
  destruct (falling_edge b l w), (resample b w =? 0); cbn; congruence.
Qed.

(** C3: for every number of scans, from any world and any remembered
    samples, the scans succeed, the diagnostic lines they print are those
    of the confirmed edges in order (within one scan KEY1, KEY2, KEY3),
    and the mode afterwards is the mode of the last confirmed edge (the
    old mode when there was none).  For a single scan this reads: KEY3's
    confirmed edge wins over KEY2's, which wins over KEY1's. *)
Theorem C3_last_confirmed_edge_wins (n : nat) (l : key_last) (w : world) :
  (exists l' w',
     loop_n n key_thread_body l w = Some (l', w')
     /\ kprintf_lines (trace w') =
          kprintf_lines (trace w) ++ (msg_of_button <$> run_edges n l w)
     /\ (forall b, last (run_edges n l w) = Some b ->
                   g_led_mode w' = mode_of_button b)
     /\ (run_edges n l w = [] -> g_led_mode w' = g_led_mode w))
  /\ exists l1 w1,
       key_thread_body l w = Some (l1, w1)
       /\ g_led_mode w1 =
            if confirmed_edge KEY3 l w then LED_MODE_NONE
            else if confirmed_edge KEY2 l w then LED_MODE_BINARY
            else if confirmed_edge KEY1 l w then LED_MODE_FLOW
            else g_led_mode w.
Proof.
  split.
  - destruct (key_run_spec n l w) as (l' & w' & Hrun & Hmode & Hlines & _).
    exists l', w'. split; [exact Hrun|]. split; [exact Hlines|].
    unfold last_write_wins in Hmode. split.
    + intros b Hb. rewrite Hb in Hmode. exact Hmode.
    + intros Hnil. rewrite Hnil in Hmode. exact Hmode.
  - exists (scan_last w), (scan_after l w).
    split; [apply key_body_run|].
    rewrite scan_after_mode. unfold last_write_wins, scan_edges.
    cbn [List.filter].
    destruct (confirmed_edge KEY1 l w), (confirmed_edge KEY2 l w),
             (confirmed_edge KEY3 l w); reflexivity.
Qed.

(** C4, as stated, fails when another button is confirmed in the same
    scan: KEY1 glitches, yet the scan changes the mode from Off to
    BinaryCount because KEY2's edge is confirmed. *)
Lemma C4_counterexample :
  glitch KEY1 key_last_init bounce_world = true
  /\ exists l' w',
       key_thread_body key_last_init bounce_world = Some (l', w')
       /\ g_led_mode bounce_world = LED_MODE_NONE
       /\ g_led_mode w' = LED_MODE_BINARY
       /\ g_led_mode w' <> g_led_mode bounce_world.
Proof.
  split; [vm_compute; reflexivity|].
  exists (scan_last bounce_world), (scan_after key_last_init bounce_world).
  split; [apply key_body_run|]. split; [reflexivity|].
  rewrite scan_after_mode.
  split; [vm_compute; reflexivity | vm_compute; discriminate].
Qed.

(** C4 (amended): in a scan in which button [b] samples a falling edge
    but its re-sample does not read low, button [b] writes nothing: no
    diagnostic line of [b] is printed, [b] is not among the confirmed
    edges, and the mode after the scan is decided by the other buttons'
    confirmed edges alone; in particular when no other button has a
    confirmed edge in that scan the mode is unchanged and no line is
    printed at all. *)
Theorem C4_glitch_writes_nothing (b : button) (l : key_last) (w : world) :
  glitch b l w = true ->
  exists l' w' new,
    key_thread_body l w = Some (l', w')
    /\ kprintf_lines (trace w') = kprintf_lines (trace w) ++ new
    /\ (msg_of_button b ∉ new)
    /\ (b ∉ scan_edges l w)
    /\ g_led_mode w' = last_write_wins (g_led_mode w) (scan_edges l w)
    /\ ((forall b', b' <> b -> confirmed_edge b' l w = false) ->
        g_led_mode w' = g_led_mode w /\ new = []).
Proof.
  intros Hglitch.
  pose proof (glitch_not_confirmed b l w Hglitch) as Hnot.
  exists (scan_last w), (scan_after l w), (msg_of_button <$> scan_edges l w).
  split; [apply key_body_run|].
  split; [apply scan_after_lines|].
  assert (b ∉ scan_edges l w) as Hnotin.
  { rewrite scan_edges_confirmed. congruence. }
  split.
  { intros Hin. apply list_elem_of_fmap in Hin as (b' & Heq & Hin').
    apply msg_of_button_inj in Heq. subst b'. contradiction. }
  split; [exact Hnotin|].
  split; [apply scan_after_mode|].
  intros Hothers.
  assert (scan_edges l w = []) as Hnil.
  { unfold scan_edges. cbn [List.filter].
    assert (forall b', confirmed_edge b' l w = false) as Hall.
    { intros b'. destruct (decide (b' = b)) as [->|Hne]; auto. }
    rewrite !Hall. reflexivity. }
  rewrite scan_after_mode, Hnil. split; reflexivity.
Qed.

(** C4 (amended) for KEY1 in the bouncing world. *)
Lemma C4_glitch_writes_nothing_witness :
  glitch KEY1 key_last_init bounce_world = true
  /\ exists l' w' new,
       key_thread_body key_last_init bounce_world = Some (l', w')
       /\ kprintf_lines (trace w') = kprintf_lines (trace bounce_world) ++ new
       /\ (msg_of_button KEY1 ∉ new)
       /\ (KEY1 ∉ scan_edges key_last_init bounce_world)
       /\ g_led_mode w' =
            last_write_wins (g_led_mode bounce_world)
              (scan_edges key_last_init bounce_world)
       /\ ((forall b', b' <> KEY1 ->
              confirmed_edge b' key_last_init bounce_world = false) ->
           g_led_mode w' = g_led_mode bounce_world /\ new = []).
Proof.
  split; [vm_compute; reflexivity|].
  apply (C4_glitch_writes_nothing KEY1 key_last_init bounce_world).
  vm_compute. reflexivity.
Defined.

(* ===================================================================== *)
(** ** Start-up and the whole system *)
(* ===================================================================== *)

(** C8: whatever the two thread creations return, [main] configures the
    pins, calls [rt_thread_create] exactly twice and returns [RT_EOK];
    a thread is started exactly when its creation succeeded, and a failed
    creation leaves nothing else behind: no second attempt, no diagnostic
    line, the same return value. *)
Theorem C8_main_returns_ok (w : world) :
  let ok_led := create_ok w (creates w) in
  let ok_key := create_ok w (S (creates w)) in
  exists w',
    main w = Some (RT_EOK, w')
    /\ trace w' = trace w ++ main_events ok_led ok_key
    /\ ready w' = ready w ++ main_started ok_led ok_key
    /\ creates w' = S (S (creates w))
    /\ kprintf_lines (trace w') = kprintf_lines (trace w)
    /\ (forall t, EvThreadStartup t ∈ main_events ok_led ok_key <->
                  (t = led_thread /\ ok_led = true)
                  \/ (t = key_thread /\ ok_key = true))
    /\ g_led_mode w' = g_led_mode w.
Proof.
  cbv zeta.
  destruct (main_run w) as (w' & Hrun & Htrace & Hready & Hcreates & Hmode & _).
  exists w'. split; [exact Hrun|]. split; [exact Htrace|].
  split; [exact Hready|]. split; [exact Hcreates|].
  split.
  { rewrite Htrace. unfold kprintf_lines. rewrite omap_app.
    destruct (create_ok w (creates w)), (create_ok w (S (creates w)));
      cbn [main_events app omap list_omap]; apply app_nil_r. }
  split; [|exact Hmode].
  intros t.
  destruct (create_ok w (creates w)), (create_ok w (S (creates w)));
    unfold main_events; cbn [app];
    rewrite !elem_of_cons, elem_of_nil; split.
  all: try (intros [[-> Hf]|[-> Hf]]; try discriminate Hf; solve [auto 20]).
  all: intros H; repeat destruct H as [H|H]; try discriminate H;
    try contradiction; injection H as ->; auto.
Qed.

(** C9: the mode variable starts as Off; a key scan either leaves it
    alone or stores one of Off, Chase, BinaryCount; and from reset, after
    any schedule of atomic steps of [main], the LED thread and the key
    thread (a thread may be interrupted between any two of its platform
    calls or variable accesses, so also inside a key scan or a render),
    under any inputs and any thread-creation outcomes, the system is
    still running and the mode variable holds one of the three enumerated
    modes.  Every prefix of a schedule is a schedule, so this holds
    after every single step. *)
Theorem C9_mode_always_enumerated (inp : pin -> nat -> Z) (mk : nat -> bool)
    (sched : list action) (l : key_last) (w : world) :
  g_led_mode (boot inp mk) = LED_MODE_NONE
  /\ (exists l' w',
        key_thread_body l w = Some (l', w')
        /\ (g_led_mode w' = g_led_mode w
            \/ g_led_mode w' = LED_MODE_NONE
            \/ g_led_mode w' = LED_MODE_FLOW
            \/ g_led_mode w' = LED_MODE_BINARY))
  /\ exists c,
       system inp mk sched = Some c
       /\ (g_led_mode (cf_world c) = LED_MODE_NONE
           \/ g_led_mode (cf_world c) = LED_MODE_FLOW
           \/ g_led_mode (cf_world c) = LED_MODE_BINARY).
Proof.
  split; [reflexivity|]. split.
  - exists (scan_last w), (scan_after l w).
    split; [apply key_body_run|].
    rewrite scan_after_mode. unfold last_write_wins.
    destruct (last (scan_edges l w)) as [[]|]; cbn [mode_of_button]; auto.
  - destruct (system_config_ok mk inp sched) as (c & Hrun & Hok).
    exists c. split; [exact Hrun|].
    destruct Hok as (HI & _). apply (sys_inv_mode mk _ HI).
Qed.

(* ===================================================================== *)
(** ** Worked examples *)
(* ===================================================================== *)

(** End to end, in atomic steps: Off after [main]; a confirmed edge on
    KEY1 selects Chase, and the next renders light outputs 0, 1, 2, 3,
    0. *)
Example chase_end_to_end :
  mode_after press1_input run_main = Some LED_MODE_NONE
  /\ lit_after press1_input (run_main ++ led_off_iteration) = Some []
  /\ mode_after press1_input
       (run_main ++ led_off_iteration ++ key_scan_one_edge)
     = Some LED_MODE_FLOW
  /\ lit_after press1_input
       (run_main ++ led_off_iteration ++ key_scan_one_edge
          ++ led_chase_iteration) = Some [0%nat]
  /\ lit_after press1_input
       (run_main ++ led_off_iteration ++ key_scan_one_edge
          ++ led_chase_iteration ++ led_chase_iteration) = Some [1%nat]
  /\ lit_after press1_input
       (run_main ++ led_off_iteration ++ key_scan_one_edge
          ++ led_chase_iteration ++ led_chase_iteration
          ++ led_chase_iteration) = Some [2%nat]
  /\ lit_after press1_input
       (run_main ++ led_off_iteration ++ key_scan_one_edge
          ++ led_chase_iteration ++ led_chase_iteration
          ++ led_chase_iteration ++ led_chase_iteration) = Some [3%nat]
  /\ lit_after press1_input
       (run_main ++ led_off_iteration ++ key_scan_one_edge
          ++ led_chase_iteration ++ led_chase_iteration
          ++ led_chase_iteration ++ led_chase_iteration
          ++ led_chase_iteration) = Some [0%nat].
Proof. vm_compute. repeat split. Qed.

(** The LED thread can run inside a key scan.  With KEY1 and KEY2 both
    down, the scan stores Chase, sleeps 20ms in the KEY2 block, and only
    then stores BinaryCount; an LED iteration scheduled during that sleep
    reads Chase, lights output 0 and advances the chase index. *)
Example render_inside_a_scan :
  mode_after press12_input (run_main ++ key_scan_to_second_delay)
    = Some LED_MODE_FLOW
  /\ lit_after press12_input
       (run_main ++ key_scan_to_second_delay ++ led_chase_iteration)
     = Some [0%nat]
  /\ index_after press12_input
       (run_main ++ key_scan_to_second_delay ++ led_chase_iteration)
     = Some 1
  /\ mode_after press12_input
       (run_main ++ key_scan_to_second_delay ++ led_chase_iteration
          ++ key_scan_rest)
     = Some LED_MODE_BINARY
  /\ index_after press12_input
       (run_main ++ key_scan_to_second_delay ++ key_scan_rest
          ++ led_chase_iteration)
     = Some 0.
Proof. vm_compute. repeat split. Qed.

(** Uninterrupted, the threads as sequences of atomic steps do what the
    functions do. *)
Example atomic_steps_agree (l : key_last) (w : world) :
  flatten Fine.main w = main w
  /\ flatten Fine.led_thread_body w = led_thread_body w
  /\ flatten (Fine.key_thread_body l) w = key_thread_body l w.
Proof.
  split; [apply flatten_main|].
  split; [apply flatten_led_thread_body | apply flatten_key_thread_body].
Qed.

(** The binary pattern after 1, 2, 3 and 17 steps from counter 0. *)
Example binary_first_patterns :
  (w ← exec (binary_run 1) demo_world; Some (visible_pattern w)) = Some 0
  /\ (w ← exec (binary_run 2) demo_world; Some (visible_pattern w)) = Some 1
  /\ (w ← exec (binary_run 3) demo_world; Some (visible_pattern w)) = Some 2
  /\ (w ← exec (binary_run 17) demo_world; Some (visible_pattern w)) = Some 0.
Proof. vm_compute. repeat split. Qed.

(** Two buttons confirmed in one scan: KEY2, later in program order,
    wins over KEY1. *)
Example two_buttons_one_scan :
  scan_edges key_last_init (boot press12_input (fun _ => true)) = [KEY1; KEY2]
  /\ (s ← key_thread_body key_last_init (boot press12_input (fun _ => true));
      Some (g_led_mode s.2, kprintf_lines (trace s.2)))
     = Some (LED_MODE_BINARY, [msg_flow; msg_binary]).
Proof. vm_compute. repeat split. Qed.

(** Out of range the chase step is undefined, which no run from boot
    reaches. *)
Example flow_step_out_of_range :
  led_mode_flow_step (set_flow_index 4 demo_world) = None.
Proof. reflexivity. Qed.

(* ===================================================================== *)
(** ** Further properties: logs and frames of the operations *)
(* ===================================================================== *)

Lemma write4_trace (a b c d : Z) (w : world) :
  trace (write4 a b c d w) =
    trace w ++ [EvPinWrite LED1_PIN a; EvPinWrite LED2_PIN b;
                EvPinWrite LED3_PIN c; EvPinWrite LED4_PIN d].
Proof. cbn [write4 trace]. rewrite <- !app_assoc. reflexivity. Qed.

Lemma write4_other (a b c d : Z) (w : world) (q : pin) :
  q ∉ led_pins -> pin_level (write4 a b c d w) !! q = pin_level w !! q.
Proof.
  intros Hq. cbn [write4 pin_level].
  rewrite !lookup_insert_ne; [reflexivity|..];
    intros <-; apply Hq; unfold led_pins; set_solver.
Qed.

Lemma flow_after_trace (p : pin) (w : world) :
  trace (flow_after p w) =
    trace w ++ [EvPinWrite LED1_PIN PIN_LOW; EvPinWrite LED2_PIN PIN_LOW;
                EvPinWrite LED3_PIN PIN_LOW; EvPinWrite LED4_PIN PIN_LOW;
                EvPinWrite p PIN_HIGH; EvDelay 150].
Proof.
  unfold flow_after. cbv zeta. world_simpl. rewrite write4_trace.
  rewrite <- !app_assoc. reflexivity.
Qed.

Lemma binary_after_trace (w : world) :
  trace (binary_after w) =
    trace w ++ [EvPinWrite LED1_PIN (bit_level (binary_value w) 0);
                EvPinWrite LED2_PIN (bit_level (binary_value w) 1);
                EvPinWrite LED3_PIN (bit_level (binary_value w) 2);
                EvPinWrite LED4_PIN (bit_level (binary_value w) 3);
                EvDelay 200].
Proof.
  unfold binary_after. cbv zeta. world_simpl. rewrite write4_trace.
  rewrite <- !app_assoc. reflexivity.
Qed.

Lemma off_after_trace (w : world) :
  trace (off_after w) =
    trace w ++ [EvPinWrite LED1_PIN PIN_LOW; EvPinWrite LED2_PIN PIN_LOW;
                EvPinWrite LED3_PIN PIN_LOW; EvPinWrite LED4_PIN PIN_LOW;
                EvDelay 50].
Proof.
  unfold off_after. world_simpl. rewrite write4_trace.
  rewrite <- !app_assoc. reflexivity.
Qed.

Lemma bit_level_cases (v i : Z) :
  bit_level v i = PIN_LOW \/ bit_level v i = PIN_HIGH.
Proof.
  unfold bit_level.
  destruct (negb (Z.land v (Z.shiftl 1 i) =? 0)); auto.
Qed.

(** The three shapes of an LED-thread iteration. *)
Lemma led_body_cases (w : world) :
  0 <= flow_index w < 4 ->
  exists w',
    led_thread_body w = Some (tt, w')
    /\ ((g_led_mode w = LED_MODE_FLOW
         /\ exists p, led_pins !! Z.to_nat (flow_index w) = Some p
                      /\ w' = flow_after p w)
        \/ (g_led_mode w = LED_MODE_BINARY /\ w' = binary_after w)
        \/ (g_led_mode w <> LED_MODE_FLOW /\ g_led_mode w <> LED_MODE_BINARY
            /\ w' = off_after w)).
Proof.
  intros Hrange.
  destruct (Z.eq_dec (g_led_mode w) LED_MODE_FLOW) as [Hf|Hf].
  - destruct (led_pins_lookup_range _ Hrange) as [p Hp].
    exists (flow_after p w).
    rewrite led_body_flow, (flow_step_run w p) by assumption.
    split; [reflexivity|]. left. eauto.
  - destruct (Z.eq_dec (g_led_mode w) LED_MODE_BINARY) as [Hb|Hb].
    + exists (binary_after w).
      rewrite led_body_binary, binary_step_run by assumption.
      split; [reflexivity|]. right. left. auto.
    + exists (off_after w).
      rewrite led_body_default, off_render_run by assumption.
      split; [reflexivity|]. right. right. auto.
Qed.

Lemma led_levels_write4 (a b c d : Z) (w : world) :
  led_levels (write4 a b c d w) = [Some a; Some b; Some c; Some d].
Proof.
  unfold led_levels. cbn [led_pins fmap list_fmap].
  rewrite write4_led1, write4_led2, write4_led3, write4_led4. reflexivity.
Qed.

Lemma led_levels_ext (w1 w2 : world) :
  pin_level w1 = pin_level w2 -> led_levels w1 = led_levels w2.
Proof. intros Heq. unfold led_levels. rewrite Heq. reflexivity. Qed.

(** After a chase step the LED at the old index is high, the others low. *)
Lemma led_levels_flow_after (p : pin) (w : world) :
  0 <= flow_index w < 4 ->
  led_pins !! Z.to_nat (flow_index w) = Some p ->
  led_levels (flow_after p w) =
    (fun i => Some (if i =? flow_index w then PIN_HIGH else PIN_LOW))
      <$> [0; 1; 2; 3].
Proof.
  intros Hrange Hp.
  assert (flow_index w = 0 \/ flow_index w = 1 \/ flow_index w = 2
          \/ flow_index w = 3) as Hcase by lia.
  destruct Hcase as [Hi|[Hi|[Hi|Hi]]]; rewrite Hi in Hp |- *;
    cbn in Hp; injection Hp as <-;
    unfold led_levels, flow_after;
    cbn [led_pins fmap list_fmap Z.eqb Pos.eqb];
    world_simpl; cbn [write4 pin_level];
    repeat first [ rewrite lookup_insert_eq
                 | rewrite lookup_insert_ne by discriminate ];
    reflexivity.
Qed.

Lemma pin_level_off_twice (w : world) :
  pin_level (write4 PIN_LOW PIN_LOW PIN_LOW PIN_LOW
               (write4 PIN_LOW PIN_LOW PIN_LOW PIN_LOW w))
  = pin_level (write4 PIN_LOW PIN_LOW PIN_LOW PIN_LOW w).
Proof.
  apply map_eq. intros q. cbn [write4 pin_level].
  rewrite !lookup_insert. repeat case_decide; congruence.
Qed.

(** X1.  [leds_all_off] always succeeds; it logs exactly four writes, one
    low level per LED pin in table order, leaves every LED latch low and
    every other pin latch, the mode and both generator states as they
    were; running it again changes no latch. *)
Theorem leds_all_off_footprint (w : world) :
  exists w',
    leds_all_off w = Some (tt, w')
    /\ trace w' =
         trace w ++ [EvPinWrite LED1_PIN PIN_LOW; EvPinWrite LED2_PIN PIN_LOW;
                     EvPinWrite LED3_PIN PIN_LOW; EvPinWrite LED4_PIN PIN_LOW]
    /\ led_levels w' = [Some PIN_LOW; Some PIN_LOW; Some PIN_LOW; Some PIN_LOW]
    /\ (forall q, q ∉ led_pins -> pin_level w' !! q = pin_level w !! q)
    /\ g_led_mode w' = g_led_mode w
    /\ flow_index w' = flow_index w
    /\ binary_value w' = binary_value w
    /\ exists w'', leds_all_off w' = Some (tt, w'')
                   /\ pin_level w'' = pin_level w'.
Proof.
  exists (write4 PIN_LOW PIN_LOW PIN_LOW PIN_LOW w).
  split; [apply leds_all_off_run|].
  split; [apply write4_trace|].
  split; [apply led_levels_write4|].
  split; [intros q Hq; apply write4_other; exact Hq|].
  split; [reflexivity|]. split; [reflexivity|]. split; [reflexivity|].
  eexists. split; [apply leds_all_off_run|]. apply pin_level_off_twice.
Qed.

Lemma render_levels_defined (m i v : Z) :
  Forall (fun o => o = Some PIN_LOW \/ o = Some PIN_HIGH) (render_levels m i v).
Proof.
  unfold render_levels.
  destruct (m =? LED_MODE_FLOW); [|destruct (m =? LED_MODE_BINARY)];
    cbn [fmap list_fmap];
    repeat first [apply Forall_cons_2 | apply Forall_nil_2]; auto.
  - destruct (0 =? i); auto.
  - destruct (1 =? i); auto.
  - destruct (2 =? i); auto.
  - destruct (3 =? i); auto.
  - destruct (bit_level_cases v 0) as [->| ->]; auto.
  - destruct (bit_level_cases v 1) as [->| ->]; auto.
  - destruct (bit_level_cases v 2) as [->| ->]; auto.
  - destruct (bit_level_cases v 3) as [->| ->]; auto.
Qed.

(** The LED latches an iteration leaves, in closed form. *)
Lemma led_body_levels (w : world) :
  0 <= flow_index w < 4 ->
  exists w',
    led_thread_body w = Some (tt, w')
    /\ led_levels w' =
         render_levels (g_led_mode w) (flow_index w) (binary_value w).
Proof.
  intros Hrange.
  destruct (led_body_cases w Hrange) as (w' & Hrun & Hc).
  exists w'. split; [exact Hrun|]. unfold render_levels.
  destruct Hc as [(Hf & p & Hp & ->)|[(Hb & ->)|(Hnf & Hnb & ->)]].
  - rewrite Hf. cbn [Z.eqb LED_MODE_FLOW Pos.eqb].
    apply led_levels_flow_after; assumption.
  - rewrite Hb. cbn [Z.eqb LED_MODE_FLOW LED_MODE_BINARY Pos.eqb].
    rewrite (led_levels_ext (binary_after w)
               (write4 (bit_level (binary_value w) 0)
                  (bit_level (binary_value w) 1)
                  (bit_level (binary_value w) 2)
                  (bit_level (binary_value w) 3) w)) by reflexivity.
    apply led_levels_write4.
  - apply Z.eqb_neq in Hnf, Hnb. rewrite Hnf, Hnb.
    rewrite (led_levels_ext (off_after w)
               (write4 PIN_LOW PIN_LOW PIN_LOW PIN_LOW w)) by reflexivity.
    apply led_levels_write4.
Qed.

(** X2.  What an LED-thread iteration leaves on the four LED pins is a
    function of the mode byte, the chase index and the binary counter
    alone: two worlds that agree on these three end with the same LED
    latches, whatever the latches were before, and every LED latch then
    holds a definite low or high level. *)
Theorem led_render_is_function_of_state (w1 w2 : world) :
  0 <= flow_index w1 < 4 ->
  g_led_mode w1 = g_led_mode w2 ->
  flow_index w1 = flow_index w2 ->
  binary_value w1 = binary_value w2 ->
  exists w1' w2',
    exec led_thread_body w1 = Some w1'
    /\ exec led_thread_body w2 = Some w2'
    /\ led_levels w1' = led_levels w2'
    /\ led_levels w1' =
         render_levels (g_led_mode w1) (flow_index w1) (binary_value w1)
    /\ Forall (fun o => o = Some PIN_LOW \/ o = Some PIN_HIGH) (led_levels w1').
Proof.
  intros Hrange Hm Hi Hv.
  assert (0 <= flow_index w2 < 4) as Hrange2 by (rewrite <- Hi; exact Hrange).
  destruct (led_body_levels w1 Hrange) as (w1' & Hrun1 & Hl1).
  destruct (led_body_levels w2 Hrange2) as (w2' & Hrun2 & Hl2).
  exists w1', w2'. unfold exec. rewrite Hrun1, Hrun2.
  split; [reflexivity|]. split; [reflexivity|].
  rewrite Hl1, Hl2, Hm, Hi, Hv.
  split; [reflexivity|]. split; [reflexivity | apply render_levels_defined].
Qed.

(** X2 for two worlds with different latches: boot, and boot after a
    binary step put back to counter 0. *)
Lemma led_render_is_function_of_state_witness :
  let w1 := demo_world in
  let w2 := set_binary_value 0 (binary_after demo_world) in
  0 <= flow_index w1 < 4
  /\ g_led_mode w1 = g_led_mode w2
  /\ flow_index w1 = flow_index w2
  /\ binary_value w1 = binary_value w2
  /\ exists w1' w2',
       exec led_thread_body w1 = Some w1'
       /\ exec led_thread_body w2 = Some w2'
       /\ led_levels w1' = led_levels w2'
       /\ led_levels w1' =
            render_levels (g_led_mode w1) (flow_index w1) (binary_value w1)
       /\ Forall (fun o => o = Some PIN_LOW \/ o = Some PIN_HIGH)
                 (led_levels w1').
Proof.
  cbv zeta. split; [cbn; lia|]. split; [reflexivity|].
  split; [reflexivity|]. split; [reflexivity|].
  apply (led_render_is_function_of_state demo_world
           (set_binary_value 0 (binary_after demo_world)));
    [cbn; lia | reflexivity | reflexivity | reflexivity].
Defined.

Lemma led_pin_write (i : nat) (p : pin) (v : Z) :
  led_pins !! i = Some p -> v = PIN_LOW \/ v = PIN_HIGH -> led_write (p, v).
Proof.
  intros Hp Hv. split; [|exact Hv].
  cbn [fst]. apply list_elem_of_lookup. exists i. exact Hp.
Qed.

(** Everything an LED-thread iteration logs and leaves untouched. *)
Lemma led_body_log (w : world) :
  0 <= flow_index w < 4 ->
  exists w' new,
    led_thread_body w = Some (tt, w')
    /\ trace w' = trace w ++ new
    /\ Forall led_write (pin_writes new)
    /\ kprintf_lines new = []
    /\ delay_total new =
         (if g_led_mode w =? LED_MODE_FLOW then 150
          else if g_led_mode w =? LED_MODE_BINARY then 200 else 50)
    /\ last new = Some (EvDelay (delay_total new))
    /\ g_led_mode w' = g_led_mode w
    /\ pin_reads w' = pin_reads w
    /\ pin_input w' = pin_input w
    /\ ready w' = ready w
    /\ (forall q, q ∉ led_pins -> pin_level w' !! q = pin_level w !! q).
Proof.
  intros Hrange.
  destruct (led_body_cases w Hrange) as (w' & Hrun & Hc).
  exists w'.
  destruct Hc as [(Hf & p & Hp & ->)|[(Hb & ->)|(Hnf & Hnb & ->)]].
  - eexists. split; [exact Hrun|]. split; [apply flow_after_trace|].
    split.
    { cbn [pin_writes omap list_omap].
      repeat first [apply Forall_cons_2 | apply Forall_nil_2].
      - apply (led_pin_write 0); auto.
      - apply (led_pin_write 1); auto.
      - apply (led_pin_write 2); auto.
      - apply (led_pin_write 3); auto.
      - apply (led_pin_write (Z.to_nat (flow_index w))); auto. }
    split; [reflexivity|]. split; [rewrite Hf; reflexivity|].
    split; [reflexivity|]. split; [reflexivity|]. split; [reflexivity|].
    split; [reflexivity|]. split; [reflexivity|].
    intros q Hq. unfold flow_after. cbv zeta. world_simpl.
    rewrite lookup_insert_ne.
    + apply write4_other. exact Hq.
    + intros <-. apply Hq. apply list_elem_of_lookup. eauto.
  - eexists. split; [exact Hrun|]. split; [apply binary_after_trace|].
    split.
    { cbn [pin_writes omap list_omap].
      repeat first [apply Forall_cons_2 | apply Forall_nil_2].
      - apply (led_pin_write 0); [reflexivity | apply bit_level_cases].
      - apply (led_pin_write 1); [reflexivity | apply bit_level_cases].
      - apply (led_pin_write 2); [reflexivity | apply bit_level_cases].
      - apply (led_pin_write 3); [reflexivity | apply bit_level_cases]. }
    split; [reflexivity|]. split; [rewrite Hb; reflexivity|].
    split; [reflexivity|]. split; [reflexivity|]. split; [reflexivity|].
    split; [reflexivity|]. split; [reflexivity|].
    intros q Hq. unfold binary_after. cbv zeta. world_simpl.
    apply write4_other. exact Hq.
  - eexists. split; [exact Hrun|]. split; [apply off_after_trace|].
    apply Z.eqb_neq in Hnf, Hnb.
    split.
    { cbn [pin_writes omap list_omap].
      repeat first [apply Forall_cons_2 | apply Forall_nil_2].
      - apply (led_pin_write 0); auto.
      - apply (led_pin_write 1); auto.
      - apply (led_pin_write 2); auto.
      - apply (led_pin_write 3); auto. }
    split; [reflexivity|]. split; [rewrite Hnf, Hnb; reflexivity|].
    split; [reflexivity|]. split; [reflexivity|]. split; [reflexivity|].
    split; [reflexivity|]. split; [reflexivity|].
    intros q Hq. unfold off_after. world_simpl.
    apply write4_other. exact Hq.
Qed.



(** X4.  The delays of an LED-thread iteration add up to 150ms when the
    mode byte is Chase, 200ms when it is BinaryCount and 50ms for every
    other value, and a delay of that length is the iteration's last
    action. *)
Theorem led_iteration_period (w : world) :
  0 <= flow_index w < 4 ->
  exists w' new,
    exec led_thread_body w = Some w'
    /\ trace w' = trace w ++ new
    /\ delay_total new =
         (if g_led_mode w =? LED_MODE_FLOW then 150
          else if g_led_mode w =? LED_MODE_BINARY then 200 else 50)
    /\ last new = Some (EvDelay (delay_total new)).
Proof.
  intros Hrange.
  destruct (led_body_log w Hrange)
    as (w' & new & Hrun & Ht & _ & _ & Hd & Hl & _).
  exists w', new. unfold exec. rewrite Hrun.
  split; [reflexivity|]. split; [exact Ht|]. split; [exact Hd | exact Hl].
Qed.

Lemma led_iteration_period_witness :
  let w := set_g_led_mode LED_MODE_BINARY demo_world in
  0 <= flow_index w < 4
  /\ exists w' new,
       exec led_thread_body w = Some w'
       /\ trace w' = trace w ++ new
       /\ delay_total new =
            (if g_led_mode w =? LED_MODE_FLOW then 150
             else if g_led_mode w =? LED_MODE_BINARY then 200 else 50)
       /\ last new = Some (EvDelay (delay_total new)).
Proof.
  cbv zeta. split; [cbn; lia|].
  apply (led_iteration_period (set_g_led_mode LED_MODE_BINARY demo_world)).
  cbn. lia.
Defined.

(* ===================================================================== *)
(** ** Further properties: the key scan *)
(* ===================================================================== *)

Lemma key_block_after_trace (e c : bool) (p : pin) (mode : Z) (msg : string)
    (w : world) :
  trace (key_block_after e c p mode msg w) = trace w ++ block_events e c msg.
Proof.
  unfold key_block_after, block_events.
  destruct e, c; world_simpl; rewrite <- ?app_assoc, ?app_nil_r; reflexivity.
Qed.

Lemma key_block_after_all_reads (e c : bool) (p : pin) (mode : Z)
    (msg : string) (w : world) (q : pin) :
  pin_reads (key_block_after e c p mode msg w) q =
    if e then bump p (pin_reads w) q else pin_reads w q.
Proof. unfold key_block_after. destruct e, c; reflexivity. Qed.

Lemma scan_after_trace (l : key_last) (w : world) :
  trace (scan_after l w) =
    trace w
    ++ block_events (falling_edge KEY1 l w) (resample KEY1 w =? 0) msg_flow
    ++ block_events (falling_edge KEY2 l w) (resample KEY2 w =? 0) msg_binary
    ++ block_events (falling_edge KEY3 l w) (resample KEY3 w =? 0) msg_none
    ++ [EvDelay 10].
Proof.
  unfold scan_after. cbv zeta.
  change (trace (log (EvDelay 10) ?x)) with (trace x ++ [EvDelay 10]).
  rewrite !key_block_after_trace. world_simpl.
  rewrite <- !app_assoc. reflexivity.
Qed.

Lemma scan_after_reads (l : key_last) (w : world) (b : button) :
  pin_reads (scan_after l w) (key_pin b) =
    (pin_reads w (key_pin b) + 1 + (if falling_edge b l w then 1 else 0))%nat.
Proof.
  unfold scan_after. cbv zeta. world_simpl.
  rewrite !key_block_after_all_reads. world_simpl.
  destruct b; cbn [key_pin];
    destruct (falling_edge KEY1 l w), (falling_edge KEY2 l w),
             (falling_edge KEY3 l w);
    repeat first [ rewrite key_block_after_all_reads
                 | rewrite bump_same
                 | rewrite bump_other by discriminate
                 | progress world_simpl ];
    lia.
Qed.

Lemma scan_after_reads_other (l : key_last) (w : world) (q : pin) :
  (forall b, q <> key_pin b) ->
  pin_reads (scan_after l w) q = pin_reads w q.
Proof.
  intros Hq.
  pose proof (Hq KEY1) as H1. pose proof (Hq KEY2) as H2.
  pose proof (Hq KEY3) as H3. cbn [key_pin] in H1, H2, H3.
  unfold scan_after. cbv zeta. world_simpl.
  rewrite !key_block_after_all_reads. world_simpl.
  destruct (falling_edge KEY1 l w), (falling_edge KEY2 l w),
           (falling_edge KEY3 l w);
    repeat first [ rewrite key_block_after_all_reads
                 | rewrite bump_other by assumption
                 | progress world_simpl ];
    reflexivity.
Qed.

Lemma scan_after_input (l : key_last) (w : world) :
  pin_input (scan_after l w) = pin_input w.
Proof.
  unfold scan_after. cbv zeta. world_simpl.
  rewrite !key_block_after_input. reflexivity.
Qed.

(** What one scan logs. *)
Lemma scan_after_log (l : key_last) (w : world) :
  exists new,
    trace (scan_after l w) = trace w ++ new
    /\ pin_writes new = []
    /\ delay_total new = 10 + 20 * falling_count l w.
Proof.
  eexists. split; [apply scan_after_trace|].
  unfold block_events, falling_count.
  destruct (falling_edge KEY1 l w), (falling_edge KEY2 l w),
           (falling_edge KEY3 l w),
           (resample KEY1 w =? 0), (resample KEY2 w =? 0),
           (resample KEY3 w =? 0); split; reflexivity.
Qed.

(** X5.  One key scan never drives a pin and leaves every latch and the
    set of started threads alone.  It blocks for 10ms plus 20ms for each
    button showing a falling edge.  It reads each key pin once, and once
    more when that button shows a falling edge, and reads no other pin.
    The sample it remembers for the next scan is the first read, not the
    re-sample. *)
Theorem key_scan_footprint (l : key_last) (w : world) :
  exists l' w' new,
    key_thread_body l w = Some (l', w')
    /\ trace w' = trace w ++ new
    /\ pin_writes new = []
    /\ delay_total new = 10 + 20 * falling_count l w
    /\ pin_level w' = pin_level w
    /\ ready w' = ready w
    /\ (forall b, pin_reads w' (key_pin b) =
                  (pin_reads w (key_pin b) + 1
                   + (if falling_edge b l w then 1 else 0))%nat)
    /\ (forall q, (forall b, q <> key_pin b) -> pin_reads w' q = pin_reads w q)
    /\ (forall b, last_of b l' = sample b w).
Proof.
  destruct (scan_after_frame l w) as (_ & _ & Hpins & Hready).
  destruct (scan_after_log l w) as (new & Htrace & Hwrites & Hdelay).
  exists (scan_last w), (scan_after l w), new.
  split; [apply key_body_run|].
  split; [exact Htrace|]. split; [exact Hwrites|]. split; [exact Hdelay|].
  split; [exact Hpins|]. split; [exact Hready|].
  split; [intros b; apply scan_after_reads|].
  split; [intros q Hq; apply scan_after_reads_other; exact Hq|].
  intros []; reflexivity.
Qed.

Lemma edges_of_app (b : button) (es1 es2 : list button) :
  edges_of b (es1 ++ es2) = edges_of b es1 ++ edges_of b es2.
Proof. apply List.filter_app. Qed.

Lemma edges_of_scan (b : button) (l : key_last) (w : world) :
  edges_of b (scan_edges l w) = if confirmed_edge b l w then [b] else [].
Proof.
  unfold scan_edges. cbn [List.filter].
  destruct b;
    destruct (confirmed_edge KEY1 l w), (confirmed_edge KEY2 l w),
             (confirmed_edge KEY3 l w); reflexivity.
Qed.

Lemma run_edges_step (n : nat) (l : key_last) (w : world) :
  run_edges (S n) l w =
    scan_edges l w ++ run_edges n (scan_last w) (scan_after l w).
Proof. cbn [run_edges]. rewrite key_body_run. reflexivity. Qed.

Lemma reads_low_from_scan (b : button) (l : key_last) (w : world) :
  reads_low_from b w -> reads_low_from b (scan_after l w).
Proof.
  unfold reads_low_from. intros Hlow k Hk.
  rewrite scan_after_input. apply Hlow.
  rewrite scan_after_reads in Hk. lia.
Qed.

Lemma never_low_from_scan (b : button) (l : key_last) (w : world) :
  never_low_from b w -> never_low_from b (scan_after l w).
Proof.
  unfold never_low_from. intros Hhigh k Hk.
  rewrite scan_after_input. apply Hhigh.
  rewrite scan_after_reads in Hk. lia.
Qed.

Lemma reads_low_sample (b : button) (w : world) :
  reads_low_from b w -> sample b w = 0 /\ resample b w = 0.
Proof.
  intros Hlow. unfold sample, resample. split; apply Hlow; lia.
Qed.

(** While a button reads low and its remembered sample is not high, no
    scan confirms it. *)
Lemma no_edge_without_release (b : button) (n : nat) (l : key_last) (w : world) :
  reads_low_from b w ->
  last_of b l <> 1 ->
  edges_of b (run_edges n l w) = [].
Proof.
  revert l w. induction n as [|n IH]; intros l w Hlow Hlast; [reflexivity|].
  rewrite run_edges_step, edges_of_app, edges_of_scan.
  unfold confirmed_edge, falling_edge.
  apply Z.eqb_neq in Hlast. rewrite Hlast. cbn [andb app].
  apply IH; [apply reads_low_from_scan; exact Hlow|].
  destruct (reads_low_sample b w Hlow) as [Hs _].
  replace (last_of b (scan_last w)) with (sample b w) by (destruct b; reflexivity).
  rewrite Hs. discriminate.
Qed.

(** A button that never reads low is never confirmed. *)
Lemma no_edge_while_released (b : button) (n : nat) (l : key_last) (w : world) :
  never_low_from b w -> edges_of b (run_edges n l w) = [].
Proof.
  revert l w. induction n as [|n IH]; intros l w Hhigh; [reflexivity|].
  rewrite run_edges_step, edges_of_app, edges_of_scan.
  unfold confirmed_edge, falling_edge.
  assert (sample b w <> 0) as Hs by (apply Hhigh; lia).
  apply Z.eqb_neq in Hs. rewrite Hs, andb_false_r. cbn [andb app].
  apply IH. apply never_low_from_scan. exact Hhigh.
Qed.

Lemma edges_of_all (b : button) (es : list button) :
  (forall b', b' <> b -> edges_of b' es = []) -> edges_of b es = es.
Proof.
  induction es as [|x es IH]; intros Hothers; [reflexivity|].
  destruct (decide (x = b)) as [->|Hne].
  - unfold edges_of in *. cbn [List.filter].
    rewrite bool_decide_eq_true_2 by reflexivity. f_equal.
    apply IH. intros b' Hb'. specialize (Hothers b' Hb').
    cbn [List.filter] in Hothers.
    rewrite bool_decide_eq_false_2 in Hothers by congruence. exact Hothers.
  - specialize (Hothers x Hne). unfold edges_of in Hothers.
    cbn [List.filter] in Hothers.
    rewrite bool_decide_eq_true_2 in Hothers by reflexivity. discriminate.
Qed.

(** A button that reads low is confirmed exactly when its remembered
    sample is high. *)
Lemma held_confirmed (b : button) (l : key_last) (w : world) :
  reads_low_from b w -> confirmed_edge b l w = (last_of b l =? 1).
Proof.
  intros Hlow. destruct (reads_low_sample b w Hlow) as [Hs Hr].
  unfold confirmed_edge, falling_edge. rewrite Hs, Hr.
  cbn [Z.eqb]. rewrite !andb_true_r. reflexivity.
Qed.

(** After a scan that sampled it low, it is not confirmed again. *)
Lemma held_no_second_edge (b : button) (n : nat) (l : key_last) (w : world) :
  reads_low_from b w ->
  edges_of b (run_edges n (scan_last w) (scan_after l w)) = [].
Proof.
  intros Hlow. destruct (reads_low_sample b w Hlow) as [Hs _].
  apply no_edge_without_release.
  - apply reads_low_from_scan. exact Hlow.
  - replace (last_of b (scan_last w)) with (sample b w)
      by (destruct b; reflexivity).
    rewrite Hs. discriminate.
Qed.

Lemma lines_of_msgs (b : button) (es : list button) :
  lines_of b (msg_of_button <$> es) = msg_of_button <$> edges_of b es.
Proof.
  unfold lines_of, edges_of. induction es as [|x es IH]; [reflexivity|].
  cbn [fmap list_fmap List.filter].
  destruct (decide (x = b)) as [->|Hne].
  - rewrite !bool_decide_eq_true_2 by reflexivity.
    cbn [fmap list_fmap]. f_equal. exact IH.
  - rewrite (bool_decide_eq_false_2 (x = b)) by exact Hne.
    rewrite bool_decide_eq_false_2; [exact IH|].
    intros Heq. apply Hne. apply msg_of_button_inj. exact Heq.
Qed.

Lemma edges_of_nil_not_in (b : button) (es : list button) :
  edges_of b es = [] -> b ∉ es.
Proof.
  intros Hnil Hin. apply list_elem_of_In in Hin.
  assert (In b (edges_of b es)) as Hb.
  { unfold edges_of. apply filter_In. split; [exact Hin|].
    apply bool_decide_eq_true_2. reflexivity. }
  rewrite Hnil in Hb. exact Hb.
Qed.

Lemma last_write_wins_without (b : button) (m0 : Z) (es : list button) :
  b ∉ es ->
  last_write_wins m0 es = m0
  \/ exists b', b' <> b /\ b' ∈ es /\ last_write_wins m0 es = mode_of_button b'.
Proof.
  intros Hnot. unfold last_write_wins.
  destruct (last es) as [b'|] eqn:Hlast; [right|left; reflexivity].
  apply last_Some in Hlast as [es' ->].
  exists b'. split; [|split; [set_solver|reflexivity]].
  intros ->. apply Hnot. set_solver.
Qed.

(** X6.  Holding a button down does not retrigger it.  If button [b]
    reads low from now on then, whatever the other buttons do and for any
    number of further scans of [key_thread_entry]: the first scan prints
    [b]'s line exactly once when the remembered sample of [b] is high and
    not at all otherwise; the following scans never print [b]'s line
    again, and the mode variable they leave is the one the first scan
    left or the mode of some other button pressed since, never a new
    store for [b]. *)
Theorem held_button_confirmed_once (b : button) (n : nat) (l : key_last)
    (w : world) :
  reads_low_from b w ->
  exists l1 w1 l' w' first later,
    key_thread_body l w = Some (l1, w1)
    /\ loop_n n key_thread_body l1 w1 = Some (l', w')
    /\ loop_n (S n) key_thread_body l w = Some (l', w')
    /\ kprintf_lines (trace w1) = kprintf_lines (trace w) ++ first
    /\ lines_of b first = (if last_of b l =? 1 then [msg_of_button b] else [])
    /\ kprintf_lines (trace w') = kprintf_lines (trace w1) ++ later
    /\ lines_of b later = []
    /\ (g_led_mode w' = g_led_mode w1
        \/ exists b', b' <> b /\ g_led_mode w' = mode_of_button b'
                      /\ msg_of_button b' ∈ later)
    /\ edges_of b (scan_edges l w) = (if last_of b l =? 1 then [b] else [])
    /\ edges_of b (run_edges (S n) l w) = (if last_of b l =? 1 then [b] else []).
Proof.
  intros Hlow.
  destruct (key_run_spec n (scan_last w) (scan_after l w))
    as (l' & w' & Hrun & Hmode & Hlines & _).
  pose proof (held_no_second_edge b n l w Hlow) as Hnone.
  exists (scan_last w), (scan_after l w), l', w',
    (msg_of_button <$> scan_edges l w),
    (msg_of_button <$> run_edges n (scan_last w) (scan_after l w)).
  split; [apply key_body_run|]. split; [exact Hrun|].
  split. { cbn [loop_n]. rewrite bind_run, key_body_run. exact Hrun. }
  split; [apply scan_after_lines|].
  split.
  { rewrite lines_of_msgs, edges_of_scan, (held_confirmed b l w Hlow).
    destruct (last_of b l =? 1); reflexivity. }
  split; [exact Hlines|].
  split. { rewrite lines_of_msgs, Hnone. reflexivity. }
  split.
  { rewrite Hmode.
    destruct (last_write_wins_without b (g_led_mode (scan_after l w))
                (run_edges n (scan_last w) (scan_after l w))
                (edges_of_nil_not_in _ _ Hnone))
      as [Hsame|(b' & Hne & Hin & Hb')]; [left; exact Hsame|right].
    exists b'. split; [exact Hne|]. split; [exact Hb'|].
    apply list_elem_of_fmap_2. exact Hin. }
  split.
  { rewrite edges_of_scan, (held_confirmed b l w Hlow). reflexivity. }
  rewrite run_edges_step, edges_of_app, edges_of_scan.
  rewrite (held_confirmed b l w Hlow), Hnone. apply app_nil_r.
Qed.

Lemma held_button_confirmed_once_witness :
  let w := boot press1_input (fun _ => true) in
  reads_low_from KEY1 w
  /\ exists l1 w1 l' w' first later,
       key_thread_body key_last_init w = Some (l1, w1)
       /\ loop_n 4 key_thread_body l1 w1 = Some (l', w')
       /\ loop_n 5 key_thread_body key_last_init w = Some (l', w')
       /\ kprintf_lines (trace w1) = kprintf_lines (trace w) ++ first
       /\ lines_of KEY1 first
          = (if last_of KEY1 key_last_init =? 1 then [msg_of_button KEY1]
             else [])
       /\ kprintf_lines (trace w') = kprintf_lines (trace w1) ++ later
       /\ lines_of KEY1 later = []
       /\ (g_led_mode w' = g_led_mode w1
           \/ exists b', b' <> KEY1 /\ g_led_mode w' = mode_of_button b'
                         /\ msg_of_button b' ∈ later)
       /\ edges_of KEY1 (scan_edges key_last_init w)
          = (if last_of KEY1 key_last_init =? 1 then [KEY1] else [])
       /\ edges_of KEY1 (run_edges 5 key_last_init w)
          = (if last_of KEY1 key_last_init =? 1 then [KEY1] else []).
Proof.
  cbv zeta. split; [intros k _; reflexivity|].
  apply (held_button_confirmed_once KEY1 4 key_last_init
           (boot press1_input (fun _ => true))).
  intros k _. reflexivity.
Defined.

(** X7.  Pressing and holding one button from the released state, the
    others staying released: for any number of scans the key thread
    confirms exactly one edge, prints exactly that button's line, and the
    mode variable ends as that button's mode. *)
Theorem single_press_selects_mode (b : button) (n : nat) (l : key_last)
    (w : world) :
  last_of b l = 1 ->
  reads_low_from b w ->
  (forall b', b' <> b -> never_low_from b' w) ->
  exists l' w',
    loop_n (S n) key_thread_body l w = Some (l', w')
    /\ run_edges (S n) l w = [b]
    /\ g_led_mode w' = mode_of_button b
    /\ kprintf_lines (trace w') = kprintf_lines (trace w) ++ [msg_of_button b].
Proof.
  intros Hlast Hlow Hothers.
  assert (run_edges (S n) l w = [b]) as Hedges.
  { rewrite <- (edges_of_all b (run_edges (S n) l w)).
    - rewrite run_edges_step, edges_of_app, edges_of_scan.
      rewrite (held_confirmed b l w Hlow), Hlast.
      rewrite (held_no_second_edge b n l w Hlow). reflexivity.
    - intros b' Hb'. apply no_edge_while_released. apply Hothers. exact Hb'. }
  destruct (key_run_spec (S n) l w) as (l' & w' & Hrun & Hmode & Hlines & _).
  exists l', w'. split; [exact Hrun|]. split; [exact Hedges|].
  rewrite Hmode, Hlines, Hedges. split; reflexivity.
Qed.

Lemma single_press_selects_mode_witness :
  let w := boot press1_input (fun _ => true) in
  last_of KEY1 key_last_init = 1
  /\ reads_low_from KEY1 w
  /\ (forall b', b' <> KEY1 -> never_low_from b' w)
  /\ exists l' w',
       loop_n 4 key_thread_body key_last_init w = Some (l', w')
       /\ run_edges 4 key_last_init w = [KEY1]
       /\ g_led_mode w' = mode_of_button KEY1
       /\ kprintf_lines (trace w') =
            kprintf_lines (trace w) ++ [msg_of_button KEY1].
Proof.
  cbv zeta.
  assert (forall b', b' <> KEY1 ->
            never_low_from b' (boot press1_input (fun _ => true))) as Hothers.
  { intros [] Hne k _; [congruence | discriminate | discriminate]. }
  split; [reflexivity|]. split; [intros k _; reflexivity|].
  split; [exact Hothers|].
  apply (single_press_selects_mode KEY1 3 key_last_init
           (boot press1_input (fun _ => true)));
    [reflexivity | intros k _; reflexivity | exact Hothers].
Defined.

(** X8.  A press that bounces at the re-sample is lost.  If a button
    shows a falling edge whose re-sample does not read low, and from then
    on reads low for good, then neither that scan nor any later one
    confirms it: the scan remembers the first, low, sample, so no further
    falling edge is seen until the button has been sampled high again. *)
Theorem bounced_press_is_lost (b : button) (n : nat) (l : key_last)
    (w : world) :
  glitch b l w = true ->
  (forall k : nat, (pin_reads w (key_pin b) + 2 <= k)%nat ->
                   pin_input w (key_pin b) k = 0) ->
  edges_of b (run_edges (S n) l w) = []
  /\ exists l' w' new,
       loop_n (S n) key_thread_body l w = Some (l', w')
       /\ kprintf_lines (trace w') = kprintf_lines (trace w) ++ new
       /\ (msg_of_button b ∉ new).
Proof.
  intros Hglitch Hlow.
  assert (edges_of b (run_edges (S n) l w) = []) as Hnone.
  { rewrite run_edges_step, edges_of_app, edges_of_scan.
    rewrite (glitch_not_confirmed b l w Hglitch). cbn [app].
    apply no_edge_without_release.
    - intros k Hk. rewrite scan_after_input. apply Hlow.
      rewrite scan_after_reads in Hk.
      unfold glitch in Hglitch. apply andb_true_iff in Hglitch as [Hf _].
      rewrite Hf in Hk. lia.
    - replace (last_of b (scan_last w)) with (sample b w)
        by (destruct b; reflexivity).
      unfold glitch, falling_edge in Hglitch.
      apply andb_true_iff in Hglitch as [Hf _].
      apply andb_true_iff in Hf as [_ Hs].
      apply Z.eqb_eq in Hs. rewrite Hs. discriminate. }
  split; [exact Hnone|].
  destruct (key_run_spec (S n) l w) as (l' & w' & Hrun & _ & Hlines & _).
  exists l', w', (msg_of_button <$> run_edges (S n) l w).
  split; [exact Hrun|]. split; [exact Hlines|].
  intros Hin. apply list_elem_of_fmap in Hin as (b' & Heq & Hin').
  apply msg_of_button_inj in Heq. subst b'.
  assert (b ∈ edges_of b (run_edges (S n) l w)) as Hmem.
  { unfold edges_of. apply list_elem_of_In, filter_In.
    split; [apply list_elem_of_In; exact Hin'|].
    apply bool_decide_eq_true_2. reflexivity. }
  rewrite Hnone in Hmem. apply elem_of_nil in Hmem. exact Hmem.
Qed.

Lemma bounced_press_is_lost_witness :
  let w := boot bounce_then_hold_input (fun _ => true) in
  glitch KEY1 key_last_init w = true
  /\ (forall k : nat, (pin_reads w (key_pin KEY1) + 2 <= k)%nat ->
                      pin_input w (key_pin KEY1) k = 0)
  /\ edges_of KEY1 (run_edges 6 key_last_init w) = []
  /\ exists l' w' new,
       loop_n 6 key_thread_body key_last_init w = Some (l', w')
       /\ kprintf_lines (trace w') = kprintf_lines (trace w) ++ new
       /\ (msg_of_button KEY1 ∉ new).
Proof.
  cbv zeta.
  assert (forall k : nat,
            (pin_reads (boot bounce_then_hold_input (fun _ => true))
               (key_pin KEY1) + 2 <= k)%nat ->
            pin_input (boot bounce_then_hold_input (fun _ => true))
              (key_pin KEY1) k = 0) as Hlow.
  { intros [|[|k]] Hk; cbn in Hk; [lia | lia | reflexivity]. }
  split; [vm_compute; reflexivity|]. split; [exact Hlow|].
  apply (bounced_press_is_lost KEY1 5 key_last_init
           (boot bounce_then_hold_input (fun _ => true)));
    [vm_compute; reflexivity | exact Hlow].
Defined.

Lemma edges_of_none (es : list button) :
  (forall b, edges_of b es = []) -> es = [].
Proof.
  intros Hnone. destruct es as [|x es]; [reflexivity|].
  specialize (Hnone x). unfold edges_of in Hnone. cbn [List.filter] in Hnone.
  rewrite bool_decide_eq_true_2 in Hnone by reflexivity. discriminate.
Qed.

(** X9.  With no button ever reading low, the key thread is inert: for
    any number of scans and any remembered samples it confirms nothing,
    prints nothing and leaves the mode variable as it was. *)
Theorem released_buttons_change_nothing (n : nat) (l : key_last) (w : world) :
  (forall b, never_low_from b w) ->
  exists l' w',
    loop_n n key_thread_body l w = Some (l', w')
    /\ run_edges n l w = []
    /\ g_led_mode w' = g_led_mode w
    /\ kprintf_lines (trace w') = kprintf_lines (trace w).
Proof.
  intros Hhigh.
  assert (run_edges n l w = []) as Hnone.
  { apply edges_of_none. intros b. apply no_edge_while_released. apply Hhigh. }
  destruct (key_run_spec n l w) as (l' & w' & Hrun & Hmode & Hlines & _).
  exists l', w'. split; [exact Hrun|]. split; [exact Hnone|].
  rewrite Hmode, Hlines, Hnone. split; [reflexivity | apply app_nil_r].
Qed.

Lemma released_buttons_change_nothing_witness :
  (forall b, never_low_from b demo_world)
  /\ exists l' w',
       loop_n 7 key_thread_body key_last_init demo_world = Some (l', w')
       /\ run_edges 7 key_last_init demo_world = []
       /\ g_led_mode w' = g_led_mode demo_world
       /\ kprintf_lines (trace w') = kprintf_lines (trace demo_world).
Proof.
  split; [intros b k _; discriminate|].
  apply (released_buttons_change_nothing 7 key_last_init demo_world).
  intros b k _. discriminate.
Defined.

(* ===================================================================== *)
(** ** Further properties: start-up and the running system *)
(* ===================================================================== *)

(** X10.  Whatever the latches were and whatever the two thread creations
    return, [main] ends with all four LED latches low; it touches no
    other latch and reads no pin. *)
Theorem main_leaves_leds_low (w : world) :
  exists w',
    exec main w = Some w'
    /\ led_levels w' = [Some PIN_LOW; Some PIN_LOW; Some PIN_LOW; Some PIN_LOW]
    /\ all_leds_low w' = true
    /\ lit_leds w' = []
    /\ (forall q, q ∉ led_pins -> pin_level w' !! q = pin_level w !! q)
    /\ pin_reads w' = pin_reads w.
Proof.
  destruct (main_run w)
    as (w' & Hrun & _ & _ & _ & _ & _ & _ & Hpins & Hreads & _).
  exists w'. unfold exec. rewrite Hrun. split; [reflexivity|].
  split; [rewrite (led_levels_ext _ _ Hpins); apply led_levels_write4|].
  split; [rewrite (all_leds_low_ext _ _ Hpins); apply all_off_low|].
  split.
  { rewrite (lit_leds_ext _ _ Hpins). unfold lit_leds, led_high.
    cbn [List.filter]. rewrite !led_is_write4. reflexivity. }
  split; [|exact Hreads].
  intros q Hq. rewrite Hpins. apply write4_other. exact Hq.
Qed.

(** *** The latches, from the writes logged *)

Lemma replay_lookup_definite (ws : list (pin * Z)) (m : gmap pin Z) (p : pin) :
  Forall led_write ws -> definite (m !! p) -> definite (replay ws m !! p).
Proof.
  revert m. induction ws as [|[q v] ws IH]; intros m Hws Hm; [exact Hm|].
  apply Forall_cons in Hws as [[_ Hv] Hws]. cbn in Hv.
  unfold replay. cbn [fold_left]. apply IH; [exact Hws|].
  cbn. destruct (decide (q = p)) as [->|Hne].
  - rewrite lookup_insert_eq. destruct Hv as [-> | ->]; [left|right]; reflexivity.
  - rewrite lookup_insert_ne by exact Hne. exact Hm.
Qed.

Lemma replay_lookup_low (ws : list (pin * Z)) (m : gmap pin Z) (p : pin) :
  Forall (fun pv => pv.2 = PIN_LOW) ws -> m !! p = Some PIN_LOW ->
  replay ws m !! p = Some PIN_LOW.
Proof.
  revert m. induction ws as [|[q v] ws IH]; intros m Hws Hm; [exact Hm|].
  apply Forall_cons in Hws as [Hv Hws]. cbn in Hv.
  unfold replay. cbn [fold_left]. apply IH; [exact Hws|].
  cbn. destruct (decide (q = p)) as [->|Hne].
  - rewrite lookup_insert_eq. rewrite Hv. reflexivity.
  - rewrite lookup_insert_ne by exact Hne. exact Hm.
Qed.

Lemma replay_lows4 (p : pin) :
  p ∈ led_pins -> replay lows4 ∅ !! p = Some PIN_LOW.
Proof.
  unfold led_pins. rewrite !elem_of_cons, elem_of_nil.
  intros [-> | [-> | [-> | [-> | []]]]]; vm_compute; reflexivity.
Qed.

Lemma all_leds_low_intro (w : world) :
  (forall p, p ∈ led_pins -> pin_level w !! p = Some PIN_LOW) ->
  all_leds_low w = true.
Proof.
  intros H. unfold all_leds_low, led_low, led_is.
  cbn [forallb led_pins lookup list_lookup].
  rewrite !H by (unfold led_pins; set_solver).
  rewrite !bool_decide_eq_true_2 by reflexivity. reflexivity.
Qed.

Lemma led_levels_definite (w : world) (rest : list (pin * Z)) :
  pin_level w = replay (pin_writes (trace w)) ∅ ->
  pin_writes (trace w) = lows4 ++ rest ->
  Forall led_write (pin_writes (trace w)) ->
  Forall definite (led_levels w).
Proof.
  intros Hlv Hws Hall. unfold led_levels. apply Forall_fmap, Forall_forall.
  intros p Hp. cbn. rewrite Hlv, Hws, replay_app.
  rewrite Hws in Hall. apply Forall_app in Hall as [_ Hrest].
  apply replay_lookup_definite; [exact Hrest|].
  left. apply replay_lows4. exact Hp.
Qed.

Lemma all_leds_low_of_writes (w : world) (rest : list (pin * Z)) :
  pin_level w = replay (pin_writes (trace w)) ∅ ->
  pin_writes (trace w) = lows4 ++ rest ->
  Forall (fun pv => pv.2 = PIN_LOW) (pin_writes (trace w)) ->
  all_leds_low w = true.
Proof.
  intros Hlv Hws Hall. apply all_leds_low_intro. intros p Hp.
  rewrite Hlv, Hws, replay_app.
  rewrite Hws in Hall. apply Forall_app in Hall as [_ Hrest].
  apply replay_lookup_low; [exact Hrest|]. apply replay_lows4. exact Hp.
Qed.

Lemma sys_inv_levels (mk : nat -> bool) (w : world) :
  sys_inv mk w -> pin_level w = replay (pin_writes (trace w)) ∅.
Proof. intros H. apply H. Qed.

Lemma sys_inv_writes (mk : nat -> bool) (w : world) :
  sys_inv mk w -> Forall led_write (pin_writes (trace w)).
Proof. intros H. apply H. Qed.

Lemma sys_inv_reads (mk : nat -> bool) (w : world) :
  sys_inv mk w -> forall q, (forall b, q <> key_pin b) -> pin_reads w q = 0%nat.
Proof. intros H. apply H. Qed.

Lemma sys_inv_led_started (mk : nat -> bool) (w : world) :
  sys_inv mk w -> started led_thread_entry_fn w = true -> mk 0%nat = true.
Proof. intros H. apply H. Qed.

Lemma sys_inv_key_started (mk : nat -> bool) (w : world) :
  sys_inv mk w -> started key_thread_entry_fn w = true -> mk 1%nat = true.
Proof. intros H. apply H. Qed.

Lemma sys_inv_no_key (mk : nat -> bool) (w : world) :
  sys_inv mk w -> started key_thread_entry_fn w = false ->
  g_led_mode w = LED_MODE_NONE
  /\ kprintf_lines (trace w) = []
  /\ (forall q, pin_reads w q = 0%nat)
  /\ Forall (fun pv => pv.2 = PIN_LOW) (pin_writes (trace w)).
Proof.
  intros (_ & _ & _ & _ & _ & _ & _ & _ & H9 & _) Hk. apply H9. exact Hk.
Qed.

Lemma sys_inv_no_led (mk : nat -> bool) (w : world) :
  sys_inv mk w -> started led_thread_entry_fn w = false ->
  exists n : nat, pin_writes (trace w) = take n lows4.
Proof.
  intros (_ & _ & _ & _ & _ & _ & _ & _ & _ & H10 & _) Hl. apply H10. exact Hl.
Qed.

Lemma sys_inv_running (mk : nat -> bool) (w : world) :
  sys_inv mk w -> ready w <> [] ->
  exists rest, pin_writes (trace w) = lows4 ++ rest.
Proof.
  intros (_ & _ & _ & _ & _ & _ & _ & _ & _ & _ & _ & H12) Hr.
  apply H12. exact Hr.
Qed.

Lemma take_lows4_low (n : nat) :
  Forall (fun pv : pin * Z => pv.2 = PIN_LOW) (take n lows4).
Proof.
  apply Forall_take. unfold lows4.
  repeat first [apply Forall_cons_2 | apply Forall_nil_2]; reflexivity.
Qed.

(** X11.  If creating the LED thread fails, the outputs are never driven
    again.  From reset, after any schedule of atomic steps of [main] and
    the two threads, under any inputs: the LED thread is not started and
    the pin writes logged so far are an initial part of the four low
    writes of [main]; once [main] has returned they are exactly these
    four writes and all four LEDs are low, even though the key thread may
    have changed the mode meanwhile. *)
Theorem led_thread_missing_outputs_stay_low (inp : pin -> nat -> Z)
    (mk : nat -> bool) (sched : list action) :
  mk 0%nat = false ->
  exists c,
    system inp mk sched = Some c
    /\ started led_thread_entry_fn (cf_world c) = false
    /\ (exists n : nat, pin_writes (trace (cf_world c)) = take n lows4)
    /\ (main_returned c = true ->
        all_leds_low (cf_world c) = true
        /\ pin_writes (trace (cf_world c)) =
             [(LED1_PIN, PIN_LOW); (LED2_PIN, PIN_LOW);
              (LED3_PIN, PIN_LOW); (LED4_PIN, PIN_LOW)]).
Proof.
  intros Hmk. destruct (system_config_ok mk inp sched) as (c & Hrun & Hok).
  exists c. split; [exact Hrun|].
  assert (sys_inv mk (cf_world c)) as HI by apply Hok.
  assert (started led_thread_entry_fn (cf_world c) = false) as Hoff.
  { apply started_false_iff. intros Hon.
    rewrite (sys_inv_led_started mk _ HI Hon) in Hmk. discriminate. }
  split; [exact Hoff|]. split; [apply (sys_inv_no_led mk _ HI Hoff)|].
  intros Hret.
  destruct (main_returned_end mk c Hok Hret) as (rest & Hws & Hrest).
  rewrite (Hrest Hoff), app_nil_r in Hws. split; [|exact Hws].
  apply (all_leds_low_of_writes _ []).
  - apply (sys_inv_levels mk _ HI).
  - rewrite app_nil_r. exact Hws.
  - rewrite Hws. apply (take_lows4_low 4).
Qed.

Lemma led_thread_missing_outputs_stay_low_witness :
  mk_no_led 0%nat = false
  /\ exists c,
       system press1_input mk_no_led sched_no_led = Some c
       /\ main_returned c = true
       /\ g_led_mode (cf_world c) = LED_MODE_FLOW
       /\ started led_thread_entry_fn (cf_world c) = false
       /\ all_leds_low (cf_world c) = true
       /\ pin_writes (trace (cf_world c)) =
            [(LED1_PIN, PIN_LOW); (LED2_PIN, PIN_LOW);
             (LED3_PIN, PIN_LOW); (LED4_PIN, PIN_LOW)].
Proof.
  split; [reflexivity|].
  destruct (led_thread_missing_outputs_stay_low press1_input mk_no_led
              sched_no_led eq_refl) as (c & Hrun & Hoff & _ & Hend).
  assert ((fun c => (main_returned c, g_led_mode (cf_world c)))
            <$> system press1_input mk_no_led sched_no_led
          = Some (true, LED_MODE_FLOW)) as Hobs by (vm_compute; reflexivity).
  rewrite Hrun in Hobs. cbn in Hobs. injection Hobs as Hret Hmode.
  exists c. split; [exact Hrun|]. split; [exact Hret|].
  split; [exact Hmode|]. split; [exact Hoff|]. apply Hend. exact Hret.
Defined.

(** X12.  If creating the key thread fails, the mode can never leave Off.
    From reset, after any schedule of atomic steps of [main] and the two
    threads, under any inputs: the key thread is not started, the mode
    variable is Off, no diagnostic line was printed, no pin was ever
    read, and every pin write logged drove an output low; once [main]
    has returned all four LEDs are low, whatever the LED thread has done
    meanwhile. *)
Theorem key_thread_missing_mode_stays_off (inp : pin -> nat -> Z)
    (mk : nat -> bool) (sched : list action) :
  mk 1%nat = false ->
  exists c,
    system inp mk sched = Some c
    /\ started key_thread_entry_fn (cf_world c) = false
    /\ g_led_mode (cf_world c) = LED_MODE_NONE
    /\ kprintf_lines (trace (cf_world c)) = []
    /\ (forall q, pin_reads (cf_world c) q = 0%nat)
    /\ Forall (fun pv => pv.2 = PIN_LOW) (pin_writes (trace (cf_world c)))
    /\ (main_returned c = true -> all_leds_low (cf_world c) = true).
Proof.
  intros Hmk. destruct (system_config_ok mk inp sched) as (c & Hrun & Hok).
  exists c. split; [exact Hrun|].
  assert (sys_inv mk (cf_world c)) as HI by apply Hok.
  assert (started key_thread_entry_fn (cf_world c) = false) as Hoff.
  { apply started_false_iff. intros Hon.
    rewrite (sys_inv_key_started mk _ HI Hon) in Hmk. discriminate. }
  split; [exact Hoff|].
  destruct (sys_inv_no_key mk _ HI Hoff) as (Hm & Hk & Hr & Hlow).
  split; [exact Hm|]. split; [exact Hk|]. split; [exact Hr|].
  split; [exact Hlow|]. intros Hret.
  destruct (main_returned_end mk c Hok Hret) as (rest & Hws & _).
  apply (all_leds_low_of_writes _ rest);
    [apply (sys_inv_levels mk _ HI)|exact Hws|exact Hlow].
Qed.

Lemma key_thread_missing_mode_stays_off_witness :
  mk_no_key 1%nat = false
  /\ exists c,
       system press1_input mk_no_key sched_no_key = Some c
       /\ main_returned c = true
       /\ started led_thread_entry_fn (cf_world c) = true
       /\ started key_thread_entry_fn (cf_world c) = false
       /\ g_led_mode (cf_world c) = LED_MODE_NONE
       /\ kprintf_lines (trace (cf_world c)) = []
       /\ (forall q, pin_reads (cf_world c) q = 0%nat)
       /\ all_leds_low (cf_world c) = true.
Proof.
  split; [reflexivity|].
  destruct (key_thread_missing_mode_stays_off press1_input mk_no_key
              sched_no_key eq_refl)
    as (c & Hrun & Hoff & Hm & Hk & Hr & _ & Hend).
  assert ((fun c => (main_returned c,
                     started led_thread_entry_fn (cf_world c)))
            <$> system press1_input mk_no_key sched_no_key
          = Some (true, true)) as Hobs by (vm_compute; reflexivity).
  rewrite Hrun in Hobs. cbn in Hobs. injection Hobs as Hret Hled.
  exists c. split; [exact Hrun|]. split; [exact Hret|].
  split; [exact Hled|]. split; [exact Hoff|]. split; [exact Hm|].
  split; [exact Hk|]. split; [exact Hr|]. apply Hend. exact Hret.
Defined.

(** X13.  Safety of the running system.  From reset, after any schedule
    of atomic steps of [main], the LED thread and the key thread (each
    may be interrupted between any two of its platform calls or variable
    accesses), under any inputs and creation outcomes: no step is
    undefined, the chase index is in [0,4) (so [led_pins] is never
    indexed out of bounds), the binary counter is a byte, every pin write
    ever logged drove one of the four LED pins with low or high, no pin
    other than the three key pins was ever read, and as soon as a thread
    has been started or [main] has returned every LED latch holds a
    definite level. *)
Theorem system_safety (inp : pin -> nat -> Z) (mk : nat -> bool)
    (sched : list action) :
  exists c,
    system inp mk sched = Some c
    /\ 0 <= flow_index (cf_world c) < 4
    /\ 0 <= binary_value (cf_world c) < 256
    /\ Forall led_write (pin_writes (trace (cf_world c)))
    /\ (forall q, (forall b, q <> key_pin b) -> pin_reads (cf_world c) q = 0%nat)
    /\ (main_returned c = true \/ ready (cf_world c) <> [] ->
        Forall (fun o => o = Some PIN_LOW \/ o = Some PIN_HIGH)
               (led_levels (cf_world c))).
Proof.
  destruct (system_config_ok mk inp sched) as (c & Hrun & Hok).
  exists c. split; [exact Hrun|].
  assert (sys_inv mk (cf_world c)) as HI by apply Hok.
  split; [apply (sys_inv_index mk _ HI)|].
  split; [apply (sys_inv_value mk _ HI)|].
  split; [apply (sys_inv_writes mk _ HI)|].
  split; [apply (sys_inv_reads mk _ HI)|].
  intros Hlive.
  assert (exists rest, pin_writes (trace (cf_world c)) = lows4 ++ rest)
    as (rest & Hws).
  { destruct Hlive as [Hret|Hrd].
    - destruct (main_returned_end mk c Hok Hret) as (rest & Hws & _).
      exists rest. exact Hws.
    - apply (sys_inv_running mk _ HI Hrd). }
  apply (led_levels_definite _ rest);
    [apply (sys_inv_levels mk _ HI)|exact Hws|apply (sys_inv_writes mk _ HI)].
Qed.

(* ===================================================================== *)
(** ** Further properties: the outputs during a chase step *)
(* ===================================================================== *)

Lemma filter_length_le (f g : nat -> bool) (l : list nat) :
  (forall x, f x = true -> g x = true) ->
  (length (List.filter f l) <= length (List.filter g l))%nat.
Proof.
  intros Himp. induction l as [|x l IH]; [reflexivity|].
  cbn [List.filter]. destruct (f x) eqn:Hf.
  - rewrite (Himp x Hf). cbn [length]. lia.
  - destruct (g x); cbn [length]; lia.
Qed.

(** Driving a pin low never lights an LED. *)
Lemma lit_of_low_le (m : gmap pin Z) (p : pin) :
  (length (lit_of (<[p := PIN_LOW]> m)) <= length (lit_of m))%nat.
Proof.
  unfold lit_of. apply filter_length_le. intros i.
  destruct (led_pins !! i) as [q|]; [|auto].
  intros H. apply bool_decide_eq_true in H. apply bool_decide_eq_true.
  rewrite lookup_insert in H. case_decide; [discriminate H | exact H].
Qed.

(** X14.  During a chase step two LEDs are never on at once.  If at most
    one LED is high when the step starts (as after any chase step or Off
    render), then after each individual pin write of the step at most one
    LED is high: the step blanks all four outputs before it raises the
    next one.  The latches the step leaves are those obtained by applying
    its logged writes in order. *)
Theorem chase_step_never_two_lit (w : world) :
  0 <= flow_index w < 4 ->
  (length (lit_leds w) <= 1)%nat ->
  exists w' new,
    exec led_mode_flow_step w = Some w'
    /\ trace w' = trace w ++ new
    /\ levels_after new (pin_level w) = pin_level w'
    /\ forall k : nat,
         (length (lit_of (levels_after (take k new) (pin_level w))) <= 1)%nat.
Proof.
  intros Hrange Hone.
  destruct (led_pins_lookup_range _ Hrange) as [p Hp].
  exists (flow_after p w). eexists. unfold exec.
  rewrite (flow_step_run w p) by assumption.
  split; [reflexivity|]. split; [apply flow_after_trace|].
  split; [reflexivity|].
  assert (length (lit_of (pin_level (flow_after p w))) <= 1)%nat as Hfinal.
  { change (lit_of (pin_level (flow_after p w)))
      with (lit_leds (flow_after p w)).
    rewrite lit_leds_flow_after by assumption. cbn [length]. lia. }
  change (lit_leds w) with (lit_of (pin_level w)) in Hone.
  pose proof (lit_of_low_le (pin_level w) LED1_PIN) as H1.
  pose proof (lit_of_low_le (<[LED1_PIN := PIN_LOW]> (pin_level w)) LED2_PIN)
    as H2.
  pose proof (lit_of_low_le
                (<[LED2_PIN := PIN_LOW]>
                   (<[LED1_PIN := PIN_LOW]> (pin_level w))) LED3_PIN) as H3.
  pose proof (lit_of_low_le
                (<[LED3_PIN := PIN_LOW]>
                   (<[LED2_PIN := PIN_LOW]>
                      (<[LED1_PIN := PIN_LOW]> (pin_level w)))) LED4_PIN) as H4.
  intros [|[|[|[|[|[|k]]]]]]; cbn [take levels_after fold_left];
    rewrite ?take_nil; cbn [fold_left]; try lia; exact Hfinal.
Qed.

Lemma chase_step_never_two_lit_witness :
  lit_leds one_lit_world = [0%nat]
  /\ 0 <= flow_index one_lit_world < 4
  /\ (length (lit_leds one_lit_world) <= 1)%nat
  /\ exists w' new,
       exec led_mode_flow_step one_lit_world = Some w'
       /\ trace w' = trace one_lit_world ++ new
       /\ levels_after new (pin_level one_lit_world) = pin_level w'
       /\ forall k : nat,
            (length (lit_of (levels_after (take k new)
                                          (pin_level one_lit_world)))
             <= 1)%nat.
Proof.
  split; [vm_compute; reflexivity|].
  split; [vm_compute; split; [discriminate|reflexivity]|].
  split; [vm_compute; lia|].
  apply (chase_step_never_two_lit one_lit_world);
    [vm_compute; split; [discriminate|reflexivity] | vm_compute; lia].
Defined.
